(** * perfana: frequency inference and return statistics

    A shallow embedding of [perfana/core/utils.py] and
    [perfana/core/returns.py].

    - Python values: integers are [Z], strings are [string] (strings of
      ASCII characters, on which [lower] is [str.lower()]), floats are
      IEEE-754 binary64 numbers ([PrimFloat.float]), so that NaN is the
      missing value exactly as in pandas.
    - Python exceptions: an error monad [result] over the exception type [exn].
    - pandas objects: a [Series] is a name and a list of (timestamp, value)
      rows, a [DataFrame] is a shared index and a list of labelled columns.
      Timestamps are day numbers ([Z]); the difference of two timestamps is a
      number of days. *)

From Stdlib Require Import ZArith List String Ascii Bool Lia Floats DecimalString Sorted.
From Stdlib Require OrderedTypeEx.
Import ListNotations.

#[local] Set Warnings "-inexact-float".
#[local] Open Scope string_scope.
#[local] Open Scope list_scope.
#[local] Open Scope Z_scope.

(* ================================================================== *)
(** * Part I: the embedding *)
(* ================================================================== *)

(** ** Python layer *)

Module Py.

(** The exceptions the two modules raise.  [TimeIndexError] and
    [TimeIndexMismatchError] come from [perfana.exceptions]. *)
Inductive exn : Type :=
| ValueError (msg : string)
| TypeError (msg : string)
| ZeroDivisionError
| TimeIndexError
| TimeIndexMismatchError (fa fb : string).

Inductive result (A : Type) : Type :=
| OK (a : A)
| Raise (e : exn).

Arguments OK {A} a.
Arguments Raise {A} e.

Definition bind {A B : Type} (m : result A) (k : A -> result B) : result B :=
  match m with
  | OK a => k a
  | Raise e => Raise e
  end.

Definition raises {A : Type} (m : result A) : Prop := exists e, m = Raise e.

(** [str.lower()], on ASCII strings. *)
Definition lower_ascii (c : ascii) : ascii :=
  let n := nat_of_ascii c in
  if (65 <=? n)%nat && (n <=? 90)%nat then ascii_of_nat (n + 32) else c.

Fixpoint lower (s : string) : string :=
  match s with
  | EmptyString => EmptyString
  | String c r => String (lower_ascii c) (lower r)
  end.

(** [s in (a, b, ...)] for a tuple of strings. *)
Definition str_in (s : string) (t : list string) : bool :=
  existsb (String.eqb s) t.

(** [str(x)] for an optional string: [str(None)] is ['None']. *)
Definition py_str (x : option string) : string :=
  match x with
  | Some s => s
  | None => "None"
  end.

(** [str(i)] for an integer, as an f-string formats it. *)
Definition str_of_int (i : Z) : string :=
  NilZero.string_of_int (Z.to_int i).

(** [range(a, b)]. *)
Definition range (a b : Z) : list Z :=
  map (fun k => a + Z.of_nat k) (seq 0 (Z.to_nat (b - a))).

(** [sum(...)] over integers. *)
Definition py_sum (l : list Z) : Z := fold_left Z.add l 0.

(** [float(i)], exact for 0 <= i < 2^53. *)
Definition float_of_int (i : Z) : float := PrimFloat.of_uint63 (Uint63.of_Z i).

(** [a / b] on two Python integers: true division, which raises on a zero
    divisor. *)
Definition int_truediv (a b : Z) : result float :=
  if b =? 0 then Raise ZeroDivisionError
  else OK (float_of_int a / float_of_int b)%float.

(** [max(items, key=...)] over (key, value) items: the first item carrying
    the largest value; raises on an empty iterable. *)
Fixpoint max_from {K : Type} (best : K * Z) (l : list (K * Z)) : K :=
  match l with
  | [] => fst best
  | x :: r => if snd best <? snd x then max_from x r else max_from best r
  end.

Definition max_by_value {K : Type} (l : list (K * Z)) : result K :=
  match l with
  | [] => Raise (ValueError "max() arg is an empty sequence")
  | x :: r => OK (max_from x r)
  end.

End Py.

Export Py.

Notation "x <- e ;; k" := (bind e (fun x => k))
  (at level 61, e at next level, right associativity).

(** ** pandas layer *)

Module Pandas.

(** A column label or a Series name: pandas accepts integers and strings. *)
Inductive label : Type :=
| LInt (i : Z)
| LStr (s : string).

Definition label_eqb (a b : label) : bool :=
  match a, b with
  | LInt i, LInt j => i =? j
  | LStr s, LStr t => String.eqb s t
  | _, _ => false
  end.

(** Timestamps are day numbers. *)
Definition timestamp : Type := Z.

Record Series : Type := mkSeries {
  s_name : option label;
  s_rows : list (timestamp * float)
}.

Record DataFrame : Type := mkDataFrame {
  df_index : list timestamp;
  df_columns : list (label * list float)
}.

(** [TimeSeriesData] after [to_time_series]: a Series or a DataFrame. *)
Inductive TimeSeriesData : Type :=
| TSeries (s : Series)
| TFrame (d : DataFrame).

Definition s_index (s : Series) : list timestamp := map fst (s_rows s).
Definition s_values (s : Series) : list float := map snd (s_rows s).

(** [data.index] and [len(data)]. *)
Definition index (data : TimeSeriesData) : list timestamp :=
  match data with
  | TSeries s => s_index s
  | TFrame d => df_index d
  end.

Definition len (data : TimeSeriesData) : Z := Z.of_nat (List.length (index data)).

(** [index[1:] - index[:-1]]: element-wise difference of the two slices. *)
Definition index_diff (idx : list timestamp) : list Z :=
  map (fun p => fst p - snd p) (combine (tl idx) (removelast idx)).

(** [value_counts()]: a table from each distinct value to its number of
    occurrences. *)
Fixpoint vc_incr (k : Z) (m : list (Z * Z)) : list (Z * Z) :=
  match m with
  | [] => [(k, 1)]
  | (k', c) :: r => if k =? k' then (k', c + 1) :: r else (k', c) :: vc_incr k r
  end.

Definition value_counts (l : list Z) : list (Z * Z) :=
  fold_left (fun m k => vc_incr k m) l [].

(** [counts.get(key, default)]. *)
Fixpoint vc_get (m : list (Z * Z)) (k : Z) (default : Z) : Z :=
  match m with
  | [] => default
  | (k', c) :: r => if k =? k' then c else vc_get r k default
  end.

End Pandas.

Export Pandas.

(** ** perfana/core/utils.py *)

Module Utils.

(** [freq_to_scale]: the branches are tested in the order of the source. *)
Definition freq_to_scale (freq : option string) : result Z :=
  let freq := lower (py_str freq) in
  if str_in freq ["d"; "day"; "daily"] then OK 252
  else if str_in freq ["w"; "week"; "weekly"] then OK 52
  else if str_in freq ["m"; "month"; "monthly"] then OK 12
  else if str_in freq ["s"; "semi-annual"; "semi-annually"] then OK 6
  else if str_in freq ["q"; "quarter"; "quarterly"] then OK 4
  else if str_in freq ["y"; "year"; "yearly"; "annual"] then OK 1
  else Raise (ValueError ("Unknown frequency: " ++ freq)%string).

(** [time_delta.get(f'{day} days', 0)]. *)
Definition days_get (time_delta : list (Z * Z)) (day : Z) : Z :=
  vc_get time_delta day 0.

(** The [delta] dictionary, in insertion order. *)
Definition delta_of (time_delta : list (Z * Z)) : list (string * Z) :=
  [ ("daily", py_sum (map (days_get time_delta) (range 1 6)));
    ("weekly", days_get time_delta 7);
    ("monthly", py_sum (map (days_get time_delta) [28; 29; 30; 31]));
    ("quarterly", py_sum (map (days_get time_delta) (range 89 93)));
    ("semi-annually", py_sum (map (days_get time_delta) (range 180 185)));
    ("yearly", py_sum (map (days_get time_delta) (range 360 367))) ].

(** [count > 0.85 * n], in binary64 arithmetic as Python evaluates it. *)
Definition over_85pct (count n : Z) : bool :=
  (0.85 * float_of_int n <? float_of_int count)%float.

(** [infer_frequency].  The [isinstance] test of the source always passes on
    a [TimeSeriesData]. *)
Definition infer_frequency (data : TimeSeriesData) (fail_policy : string)
  : result (option string) :=
  let fail_policy := lower fail_policy in
  if negb (str_in fail_policy ["ignore"; "raise"]) then
    Raise (ValueError ("Unknown <fail_policy>: " ++ fail_policy
                       ++ ". Use one of [ignore, raise]")%string)
  else
    let n := len data in
    let time_delta := value_counts (index_diff (index data)) in
    let delta := delta_of time_delta in
    if n <? 30 then
      k <- max_by_value delta ;; OK (Some k)
    else
      match find (fun item => over_85pct (snd item) n) delta with
      | Some (freq, _) => OK (Some freq)
      | None =>
          if String.eqb fail_policy "raise" then
            Raise (TypeError "could not infer periodicity of time series index")
          else OK None
      end.

End Utils.

Export Utils.

(** ** More of the pandas layer: missing values, slicing, joins *)

Module Frames.

(** [notna]: NaN is the missing value. *)
Definition notna (x : float) : bool := negb (PrimFloat.is_nan x).

(** [Series.dropna()]. *)
Definition series_dropna (s : Series) : Series :=
  mkSeries (s_name s) (filter (fun r => notna (snd r)) (s_rows s)).

(** Keep the positions of [l] that the mask marks. *)
Fixpoint select {A : Type} (mask : list bool) (l : list A) : list A :=
  match mask, l with
  | b :: m, x :: r => if b then x :: select m r else select m r
  | _, _ => []
  end.

(** [DataFrame.dropna()]: a row stays when none of its cells is missing. *)
Definition row_mask (d : DataFrame) : list bool :=
  map (fun i => forallb (fun c => notna (nth i (snd c) nan)) (df_columns d))
      (seq 0 (List.length (df_index d))).

Definition frame_dropna (d : DataFrame) : DataFrame :=
  let m := row_mask d in
  mkDataFrame (select m (df_index d))
              (map (fun c => (fst c, select m (snd c))) (df_columns d)).

Definition dropna (data : TimeSeriesData) : TimeSeriesData :=
  match data with
  | TSeries s => TSeries (series_dropna s)
  | TFrame d => TFrame (frame_dropna d)
  end.

(** [data.iloc[:n]]. *)
Definition iloc_head (n : Z) (data : TimeSeriesData) : TimeSeriesData :=
  let k := Z.to_nat n in
  match data with
  | TSeries s => TSeries (mkSeries (s_name s) (firstn k (s_rows s)))
  | TFrame d =>
      TFrame (mkDataFrame (firstn k (df_index d))
                          (map (fun c => (fst c, firstn k (snd c))) (df_columns d)))
  end.

(** [data.ndim] and [data.shape]. *)
Definition ndim (data : TimeSeriesData) : Z :=
  match data with
  | TSeries _ => 1
  | TFrame _ => 2
  end.

Definition shape (data : TimeSeriesData) : list Z :=
  match data with
  | TSeries _ => [len data]
  | TFrame d => [len data; Z.of_nat (List.length (df_columns d))]
  end.

Fixpoint shape_eqb (a b : list Z) : bool :=
  match a, b with
  | [], [] => true
  | x :: a', y :: b' => (x =? y) && shape_eqb a' b'
  | _, _ => false
  end.

(** [prod()] of a column without missing values: the factors are multiplied
    in their order; the product of no value is 1.0. *)
Definition prod (l : list float) : float := fold_left PrimFloat.mul l 1%float.

Section Sums.

(** The sum of one or more floats as numpy computes it.  The order in which
    the library adds (pairwise by blocks on contiguous data, row by row
    otherwise) decides the rounding and is not fixed here: the summation is
    a parameter of the embedding. *)
Variable np_sum : list float -> float.

(** [sum()] and [mean()] of a column without missing values: the sum of no
    value is 0.0, and the mean is the sum divided by the count, so that the
    mean of no value is NaN (0.0 / 0). *)
Definition total (l : list float) : float :=
  match l with
  | [] => 0%float
  | _ :: _ => np_sum l
  end.

Definition mean (l : list float) : float :=
  (total l / float_of_int (Z.of_nat (List.length l)))%float.

End Sums.

(** [cumprod()]: running products, the first one being the first value. *)
Fixpoint cumprod_from (acc : float) (l : list float) : list float :=
  match l with
  | [] => []
  | x :: r => let acc' := (acc * x)%float in acc' :: cumprod_from acc' r
  end.

Definition cumprod (l : list float) : list float :=
  match l with
  | [] => []
  | x :: r => x :: cumprod_from x r
  end.

(** The value of a Series at a timestamp; NaN when the timestamp is absent,
    as a join fills it. *)
Fixpoint row_get (rows : list (timestamp * float)) (t : timestamp) : float :=
  match rows with
  | [] => nan
  | (t', v) :: r => if t =? t' then v else row_get r t
  end.

(** The union of two indexes, in increasing order and without repetition. *)
Fixpoint insert_sorted (t : timestamp) (l : list timestamp) : list timestamp :=
  match l with
  | [] => [t]
  | u :: r =>
      if t <? u then t :: l
      else if t =? u then l
      else u :: insert_sorted t r
  end.

Definition index_union (ia ib : list timestamp) : list timestamp :=
  fold_left (fun acc t => insert_sorted t acc) (ia ++ ib) [].

(** [left_ax.join(right_ax, how='outer', return_indexers=True)], the join
    that [pd.merge(.., 'outer', left_index=True, right_index=True)] makes of
    the two indexes: each row of the result has its timestamp and the
    position it comes from on each side, if any.  An empty side leaves the
    other side as it is.  Two equal indexes without repetition are kept in
    their order; otherwise the timestamps come in increasing order, and a
    timestamp that occurs several times gives one row for every pair of its
    positions on the two sides. *)
Fixpoint positions_from (k : nat) (idx : list timestamp) (t : timestamp) : list nat :=
  match idx with
  | [] => []
  | u :: r =>
      if u =? t then k :: positions_from (S k) r t else positions_from (S k) r t
  end.

Definition or_missing (ps : list nat) : list (option nat) :=
  match ps with
  | [] => [None]
  | _ :: _ => map Some ps
  end.

Fixpoint is_unique (idx : list timestamp) : bool :=
  match idx with
  | [] => true
  | t :: r => negb (existsb (Z.eqb t) r) && is_unique r
  end.

Definition index_eqb (ia ib : list timestamp) : bool :=
  (List.length ia =? List.length ib)%nat
  && forallb (fun p => fst p =? snd p) (combine ia ib).

Definition join_keys (ia ib : list timestamp) : list timestamp :=
  if is_unique ia && is_unique ib && index_eqb ia ib then ia
  else index_union ia ib.

Definition join_outer (ia ib : list timestamp)
  : list (timestamp * (option nat * option nat)) :=
  match ia, ib with
  | _, [] =>
      map (fun p => (snd p, (Some (fst p), None)))
          (combine (seq 0 (List.length ia)) ia)
  | [], _ =>
      map (fun p => (snd p, (None, Some (fst p))))
          (combine (seq 0 (List.length ib)) ib)
  | _, _ =>
      flat_map (fun t =>
                  map (fun q => (t, q))
                      (list_prod (or_missing (positions_from 0 ia t))
                                 (or_missing (positions_from 0 ib t))))
               (join_keys ia ib)
  end.

(** The value at a position of the join: missing where the side has no
    row. *)
Definition take (vals : list float) (i : option nat) : float :=
  match i with
  | Some i => nth i vals nan
  | None => nan
  end.

(** [pd.merge(a, b, 'outer', left_index=True, right_index=True)] of two
    Series. *)
Definition merge_outer (a b : list (timestamp * float))
  : list (timestamp * (float * float)) :=
  map (fun r => (fst r, (take (map snd a) (fst (snd r)),
                         take (map snd b) (snd (snd r)))))
      (join_outer (map fst a) (map fst b)).

(** [.dropna()] on the joined table. *)
Definition joined_dropna (j : list (timestamp * (float * float)))
  : list (timestamp * (float * float)) :=
  filter (fun r => notna (fst (snd r)) && notna (snd (snd r))) j.

(** The labels of a column and of a Series. *)
Definition label_str (l : label) : string :=
  match l with
  | LInt i => str_of_int i
  | LStr s => s
  end.

(** [name or prefix]: [None], [0] and [''] are falsy. *)
Definition name_or (name : option label) (prefix : string) : label :=
  match name with
  | None => LStr prefix
  | Some (LInt 0) => LStr prefix
  | Some (LStr EmptyString) => LStr prefix
  | Some l => l
  end.

(** [pd.DataFrame(s.rename(name))]. *)
Definition frame_of_series (name : label) (s : Series) : DataFrame :=
  mkDataFrame (s_index s) [(name, s_values s)].

(** [d.iteritems()]: each column as a Series over the index of the table. *)
Definition column_series (d : DataFrame) (c : label * list float) : Series :=
  mkSeries (Some (fst c)) (combine (df_index d) (snd c)).

Definition iteritems (d : DataFrame) : list (label * Series) :=
  map (fun c => (fst c, column_series d c)) (df_columns d).

(** [dict[k] = v]: a new key goes last, an old key keeps its place. *)
Fixpoint dict_set {V : Type} (d : list (label * V)) (k : label) (v : V)
  : list (label * V) :=
  match d with
  | [] => [(k, v)]
  | (k', v') :: r =>
      if label_eqb k k' then (k', v) :: r else (k', v') :: dict_set r k v
  end.

End Frames.

Export Frames.

(** ** perfana/core/returns.py *)

Module Returns.

(** What [annualized_returns] yields: a float for a Series, one float per
    column (a Series indexed by the column labels) for a DataFrame. *)
Inductive Annualized : Type :=
| AScalar (x : float)
| APerColumn (v : list (label * float)).

(** Apply a column statistic to a Series or to each column of a table. *)
Definition reduce (f : list float -> float) (r : TimeSeriesData) : Annualized :=
  match r with
  | TSeries s => AScalar (f (s_values s))
  | TFrame d => APerColumn (map (fun c => (fst c, f (snd c))) (df_columns d))
  end.

(** Arithmetic between annualized figures, with the broadcasting of pandas:
    a scalar meets every entry; two per-column results meet label by label
    ([NaN] where a label is on one side only).  When the two label lists are
    equal the entries meet by position and the order is kept; when one side
    is empty the other side's labels are kept as they are; otherwise the
    result is laid over the union of the labels, which pandas sorts when the
    labels can be compared with each other (all integers or all strings) and
    leaves with the left labels first when they cannot. *)
Fixpoint col_get (v : list (label * float)) (l : label) : float :=
  match v with
  | [] => nan
  | (l', x) :: r => if label_eqb l l' then x else col_get r l
  end.

Definition labels_eqb (v w : list (label * float)) : bool :=
  (List.length v =? List.length w)%nat
  && forallb (fun p => label_eqb (fst (fst p)) (fst (snd p))) (combine v w).

Definition label_compare (a b : label) : comparison :=
  match a, b with
  | LInt i, LInt j => Z.compare i j
  | LStr s, LStr t => String.compare s t
  | LInt _, LStr _ => Lt
  | LStr _, LInt _ => Gt
  end.

Definition label_before (a b : label) : Prop := label_compare a b = Lt.

Definition is_int_label (l : label) : bool :=
  match l with LInt _ => true | LStr _ => false end.

(** Labels of one kind can be ordered; an integer and a string cannot. *)
Definition homogeneous (ls : list label) : bool :=
  forallb is_int_label ls || forallb (fun l => negb (is_int_label l)) ls.

Fixpoint insert_label (l : label) (acc : list label) : list label :=
  match acc with
  | [] => [l]
  | u :: r =>
      match label_compare l u with
      | Lt => l :: acc
      | Eq => acc
      | Gt => u :: insert_label l r
      end
  end.

Definition sort_labels (ls : list label) : list label :=
  fold_left (fun acc l => insert_label l acc) ls [].

Definition has_label (ls : list label) (l : label) : bool :=
  existsb (label_eqb l) ls.

Definition union_labels (lv lw : list label) : list label :=
  let u := lv ++ filter (fun l => negb (has_label lv l)) lw in
  if homogeneous u then sort_labels u else u.

Definition align (f : float -> float -> float) (v w : list (label * float))
  : list (label * float) :=
  if labels_eqb v w then
    map (fun p => (fst (fst p), f (snd (fst p)) (snd (snd p)))) (combine v w)
  else
    match v, w with
    | _, [] => map (fun c => (fst c, f (snd c) nan)) v
    | [], _ => map (fun c => (fst c, f nan (snd c))) w
    | _, _ =>
        map (fun l => (l, f (col_get v l) (col_get w l)))
            (union_labels (map fst v) (map fst w))
    end.

Definition ann_binop (f : float -> float -> float) (a b : Annualized) : Annualized :=
  match a, b with
  | AScalar x, AScalar y => AScalar (f x y)
  | APerColumn v, AScalar y => APerColumn (map (fun c => (fst c, f (snd c) y)) v)
  | AScalar x, APerColumn w => APerColumn (map (fun c => (fst c, f x (snd c))) w)
  | APerColumn v, APerColumn w => APerColumn (align f v w)
  end.

Definition ann_sub : Annualized -> Annualized -> Annualized := ann_binop PrimFloat.sub.
Definition ann_div : Annualized -> Annualized -> Annualized := ann_binop PrimFloat.div.
Definition ann_add : Annualized -> Annualized -> Annualized := ann_binop PrimFloat.add.

(** What [active_premium] handles: [pd.Series(premium)], indexed by benchmark
    names, and the table [res] whose columns are the asset names.  A cell
    holds the value of the subtraction of two annualized figures. *)
Inductive Premium : Type :=
| PremiumSeries (rows : list (label * Annualized))
| PremiumFrame (columns : list (label * list (label * Annualized))).

(** Modelled from the spec: [to_time_series] of [perfana.conversions], a
    module that is not embedded here.  The spec describes it as the generic
    coercion into the internal time-series representation; on a value that
    is already a time-indexed Series or table it changes nothing. *)
Definition to_time_series (r : TimeSeriesData) : TimeSeriesData := r.

(** A column name in the output: an integer label takes the prefix. *)
Definition col_name (prefix : string) (c : label) : label :=
  match c with
  | LInt i => LStr (prefix ++ "_" ++ str_of_int i)%string
  | LStr _ => c
  end.

(** [if isinstance(r, pd.Series): r = pd.DataFrame(r.rename(r.name or prefix))]. *)
Definition as_frame (prefix : string) (r : TimeSeriesData) : DataFrame :=
  match r with
  | TSeries s => frame_of_series (name_or (s_name s) prefix) s
  | TFrame d => d
  end.

(** The ratio of cumulative growth of one asset column against one benchmark
    column: lines 171 and 172 of the source. *)
Definition pair_relative (a b : Series) : list (timestamp * float) :=
  let df := joined_dropna (merge_outer (s_rows a) (s_rows b)) in
  let ga := cumprod (map (fun r => (fst (snd r) + 1)%float) df) in
  let gb := cumprod (map (fun r => (snd (snd r) + 1)%float) df) in
  combine (map fst df) (map (fun p => (fst p / snd p)%float) (combine ga gb)).

(** [pd.merge(res, rel.rename(name), 'outer', left_index=True,
    right_index=True)]: the index is that of the outer join, every column
    takes its values at the positions of the join, and a name already
    present gets the suffixes of [pd.merge] ([_x] on the left, [_y] on the
    right). *)
Definition suffix (l : label) (s : string) : label :=
  LStr (label_str l ++ s)%string.

Definition merge_column (res : DataFrame) (name : label)
  (rel : list (timestamp * float)) : DataFrame :=
  let j := join_outer (df_index res) (map fst rel) in
  let clash := existsb (fun c => label_eqb name (fst c)) (df_columns res) in
  let left :=
    map (fun c =>
           ((if label_eqb name (fst c) then suffix (fst c) "_x" else fst c),
            map (fun r => take (snd c) (fst (snd r))) j))
        (df_columns res) in
  mkDataFrame (map fst j)
    (left ++ [((if clash then suffix name "_y" else name),
               map (fun r => take (map snd rel) (snd (snd r))) j)]).

(** [relative_returns]: the two nested loops build [res], one column per
    (asset column, benchmark column) pair; a table of one column is returned
    as that column. *)
Definition pair_label (prefixes : string * string) (ca cb : label) : label :=
  let ca := col_name (fst prefixes) ca in
  let cb := col_name (snd prefixes) cb in
  LStr (label_str ca ++ "/" ++ label_str cb)%string.

Definition relative_table (ra rb : DataFrame) (prefixes : string * string)
  : DataFrame :=
  fold_left
    (fun res ia =>
       fold_left
         (fun res ib =>
            let rel := pair_relative (snd ia) (snd ib) in
            merge_column res (pair_label prefixes (fst ia) (fst ib)) rel)
         (iteritems rb) res)
    (iteritems ra) (mkDataFrame [] []).

Definition relative_returns (ra rb : TimeSeriesData) (prefixes : string * string)
  : TimeSeriesData :=
  let ra := as_frame (fst prefixes) (to_time_series ra) in
  let rb := as_frame (snd prefixes) (to_time_series rb) in
  let res := relative_table ra rb prefixes in
  match df_columns res with
  | [c] => TSeries (column_series res c)
  | _ => TFrame res
  end.

(** [(ra - rb) / (1 + rb) if geometric else ra - rb], the last line of
    [excess_returns]. *)
Definition excess_of (geometric : bool) (ra rb : Annualized) : Annualized :=
  if geometric then ann_div (ann_sub ra rb) (ann_add (AScalar 1) rb)
  else ann_sub ra rb.

Section Externals.

(** [**] on floats is the power function of numpy and [mean()] rests on
    its summation; the [ppa.frequency] accessor is registered by a module
    that is not embedded here.  All three are parameters of the embedding. *)
Variable pow : float -> float -> float.
Variable np_sum : list float -> float.
Variable ppa_frequency : TimeSeriesData -> result (option string).

(** [annualized_returns]. *)
Definition annualized_returns (r : TimeSeriesData) (freq : option string)
  (geometric : bool) : result Annualized :=
  let r := dropna (to_time_series r) in
  freq <- match freq with
          | None => ppa_frequency r
          | Some _ => OK freq
          end ;;
  scale <- freq_to_scale freq ;;
  if geometric then
    e <- int_truediv scale (len r) ;;
    OK (reduce (fun col => (pow (prod (map (fun x => x + 1) col)) e - 1)%float) r)
  else
    OK (reduce (fun col => (mean np_sum col * float_of_int scale)%float) r).

(** [_determine_frequency]. *)
Definition _determine_frequency (ra rb : TimeSeriesData) (freq : option string)
  : result string :=
  match freq with
  | Some f => OK f
  | None =>
      fa <- ppa_frequency ra ;;
      fb <- ppa_frequency rb ;;
      match fa, fb with
      | None, None => Raise TimeIndexError
      | None, Some b => OK b
      | Some a, None => OK a
      | Some a, Some b =>
          if negb (String.eqb a b) then Raise (TimeIndexMismatchError a b)
          else OK a
      end
  end.

(** [excess_returns]. *)
Definition excess_returns (ra rb : TimeSeriesData) (freq : option string)
  (geometric : bool) : result Annualized :=
  let ra := dropna (to_time_series ra) in
  let rb := dropna (to_time_series rb) in
  let n := Z.min (len ra) (len rb) in
  let ra := iloc_head n ra in
  let rb := iloc_head n rb in
  if (ndim ra =? ndim rb) && negb (shape_eqb (shape ra) (shape rb)) then
    Raise (ValueError "The shapes of the asset and benchmark returns do not match!")
  else
    freq <- _determine_frequency ra rb freq ;;
    ra <- annualized_returns ra (Some freq) true ;;
    rb <- annualized_returns rb (Some freq) true ;;
    OK (excess_of geometric ra rb).

(** [active_premium]: the two nested loops fill [premium] and [res]; an
    exception leaves the loops at once. *)
Fixpoint premium_loop (a : Series) (prefix : string) (freq : string)
  (geometric : bool) (bs : list (label * Series))
  (premium : list (label * Annualized)) : result (list (label * Annualized)) :=
  match bs with
  | [] => OK premium
  | ib :: rest =>
      let cb := col_name prefix (fst ib) in
      x <- annualized_returns (TSeries a) (Some freq) geometric ;;
      y <- annualized_returns (TSeries (snd ib)) (Some freq) geometric ;;
      premium_loop a prefix freq geometric rest (dict_set premium cb (ann_sub x y))
  end.

Fixpoint asset_loop (prefixes : string * string) (freq : string)
  (geometric : bool) (bs items : list (label * Series))
  (res : list (label * list (label * Annualized)))
  : result (list (label * list (label * Annualized))) :=
  match items with
  | [] => OK res
  | ia :: rest =>
      let ca := col_name (fst prefixes) (fst ia) in
      premium <- premium_loop (snd ia) (snd prefixes) freq geometric bs [] ;;
      asset_loop prefixes freq geometric bs rest (dict_set res ca premium)
  end.

Definition active_premium (ra rb : TimeSeriesData) (freq : option string)
  (geometric : bool) (prefixes : string * string) : result Premium :=
  let ra := as_frame (fst prefixes) (to_time_series ra) in
  let rb := as_frame (snd prefixes) (to_time_series rb) in
  freq <- _determine_frequency (TFrame ra) (TFrame rb) freq ;;
  res <- asset_loop prefixes freq geometric (iteritems rb) (iteritems ra) [] ;;
  OK (PremiumFrame res).

End Externals.

End Returns.

Export Returns.

(** ** The frequency classifier as the specification words it *)

Module FrequencySpec.

(** The periodicities, in their enumeration order. *)
Inductive Periodicity : Type :=
| Daily | Weekly | Monthly | Quarterly | SemiAnnually | Yearly.

Definition periodicities : list Periodicity :=
  [Daily; Weekly; Monthly; Quarterly; SemiAnnually; Yearly].

Definition periodicity_label (p : Periodicity) : string :=
  match p with
  | Daily => "daily"
  | Weekly => "weekly"
  | Monthly => "monthly"
  | Quarterly => "quarterly"
  | SemiAnnually => "semi-annually"
  | Yearly => "yearly"
  end.

Definition rank (p : Periodicity) : nat :=
  match p with
  | Daily => 0
  | Weekly => 1
  | Monthly => 2
  | Quarterly => 3
  | SemiAnnually => 4
  | Yearly => 5
  end.

(** The day-count membership set of each periodicity. *)
Definition in_day_set (p : Periodicity) (gap : Z) : bool :=
  match p with
  | Daily => (1 <=? gap) && (gap <=? 5)
  | Weekly => gap =? 7
  | Monthly => (28 <=? gap) && (gap <=? 31)
  | Quarterly => (89 <=? gap) && (gap <=? 92)
  | SemiAnnually => (180 <=? gap) && (gap <=? 184)
  | Yearly => (360 <=? gap) && (gap <=? 366)
  end.

(** The gaps between consecutive timestamps. *)
Fixpoint consecutive_gaps (idx : list timestamp) : list Z :=
  match idx with
  | [] => []
  | x :: r =>
      match r with
      | [] => []
      | y :: _ => (y - x) :: consecutive_gaps r
      end
  end.

(** The vote total of a periodicity: how many gaps fall in its set. *)
Definition votes (p : Periodicity) (idx : list timestamp) : Z :=
  Z.of_nat (List.length (filter (in_day_set p) (consecutive_gaps idx))).

(** [p] is the first periodicity, in enumeration order, whose vote total
    exceeds 0.85 * n. *)
Definition first_over_threshold (idx : list timestamp) (n : Z) (p : Periodicity)
  : Prop :=
  over_85pct (votes p idx) n = true
  /\ forall q, (rank q < rank p)%nat -> over_85pct (votes q idx) n = false.

(** The threshold test in exact arithmetic: count > 85/100 * n. *)
Definition exceeds_85pct_exactly (count n : Z) : bool := 17 * n <? 20 * count.

(** [f] holds on the [k] integers from [x] on. *)
Fixpoint holds_from (k : nat) (x : Z) (f : Z -> bool) : bool :=
  match k with
  | O => true
  | S k' => f x && holds_from k' (x + 1) f
  end.

(** The two tests agree for every count up to n, for every n below [bound]. *)
Definition threshold_tests_agree (bound : nat) : bool :=
  holds_from bound 0
    (fun n =>
       holds_from (S (Z.to_nat n)) 0
         (fun c => Bool.eqb (over_85pct c n) (exceeds_85pct_exactly c n))).

(** [p] has the highest vote total, and is the first such periodicity. *)
Definition first_with_most_votes (idx : list timestamp) (p : Periodicity) : Prop :=
  (forall q, votes q idx <= votes p idx)
  /\ forall q, (rank q < rank p)%nat -> votes q idx < votes p idx.

(** The failure policy is one of the two the source accepts. *)
Definition valid_policy (fail_policy : string) : Prop :=
  str_in (lower fail_policy) ["ignore"; "raise"] = true.

End FrequencySpec.

Export FrequencySpec.

(** ** Annualization as the specification words it *)

Module AnnualizeSpec.

(** The annualization factor of each periodicity. *)
Definition scale_of (p : Periodicity) : Z :=
  match p with
  | Daily => 252
  | Weekly => 52
  | Monthly => 12
  | Quarterly => 4
  | SemiAnnually => 6
  | Yearly => 1
  end.

Section WithPow.

Variable pow : float -> float -> float.

(** prod(1 + r) ^ (scale / n) - 1: the factors 1 + r are multiplied in
    their order, starting from 1.0. *)
Definition geometric_annual (scale n : Z) (r : list float) : float :=
  (pow (fold_left PrimFloat.mul (map (fun x => x + 1) r) 1)
       (float_of_int scale / float_of_int n) - 1)%float.

End WithPow.

Section WithSum.

Variable np_sum : list float -> float.


End WithSum.

(** The observations of a Series that are not missing. *)
Definition observed (s : Series) : list float := filter notna (s_values s).

(** A row of a table is complete when no column is missing there (a column
    that stops before the row counts as missing).  The observations of a
    column are its cells on the complete rows. *)
Definition row_complete (d : DataFrame) (i : nat) : bool :=
  forallb (fun c => negb (PrimFloat.is_nan (nth i (snd c) nan))) (df_columns d).

Definition observed_in (d : DataFrame) (column : list float) : list float :=
  map snd
      (filter (fun p => row_complete d (fst p))
              (combine (seq 0 (List.length (df_index d))) column)).

Definition complete_rows (d : DataFrame) : Z :=
  Z.of_nat (List.length (filter (row_complete d)
                                (seq 0 (List.length (df_index d))))).

(** A table is well formed when every column is as long as the index. *)
Definition well_formed (r : TimeSeriesData) : Prop :=
  match r with
  | TSeries _ => True
  | TFrame d =>
      Forall (fun c => List.length (snd c) = List.length (df_index d)) (df_columns d)
  end.

(** Two tables can be compared column for column when they have as many
    columns; a Series can be compared with anything. *)
Definition comparable (ra rb : TimeSeriesData) : Prop :=
  match ra, rb with
  | TFrame da, TFrame db =>
      List.length (df_columns da) = List.length (df_columns db)
  | _, _ => True
  end.

(** The earliest [n] observations that are not missing. *)
Definition earliest (n : Z) (r : TimeSeriesData) : TimeSeriesData :=
  iloc_head n (dropna r).

(** A table is complete when no cell of it is missing. *)
Definition complete (d : DataFrame) : Prop :=
  forall c, In c (df_columns d) -> Forall (fun x => notna x = true) (snd c).

End AnnualizeSpec.

Export AnnualizeSpec.

(** ** Excess returns as the specification words them *)

Module ExcessSpec.

(** (Ra - Rb) / (1 + Rb) when geometric, Ra - Rb otherwise. *)
Definition excess_value (geometric : bool) (a b : float) : float :=
  if geometric then ((a - b) / (1 + b))%float else (a - b)%float.

(** The figure a per-column result holds for a label, missing when the
    label is not there. *)
Definition value_at (v : list (label * float)) (l : label) : float :=
  match find (fun c => label_eqb (fst c) l) v with
  | Some c => snd c
  | None => nan
  end.

(** Integers are ordered as numbers and strings character by character; an
    integer and a string cannot be compared. *)
Definition label_lt (a b : label) : Prop :=
  match a, b with
  | LInt i, LInt j => i < j
  | LStr s, LStr t => String.ltb s t = true
  | _, _ => False
  end.

Definition same_kind (ls : list label) : Prop :=
  (forall l, In l ls -> exists i, l = LInt i)
  \/ (forall l, In l ls -> exists s, l = LStr s).

End ExcessSpec.

Export ExcessSpec.

(** ** Relative returns as the specification words them *)

Module RelativeSpec.

(** The product of a list of factors, taken from the first one on. *)
Definition running_product (l : list float) : float :=
  match l with
  | [] => 1%float
  | x :: rest => fold_left PrimFloat.mul rest x
  end.

(** Cumulative compounded growth of a list of returns: the product of the
    (1 + r). *)
Definition growth (r : list float) : float :=
  running_product (map (fun x => (x + 1)%float) r).

(** The outer join of two Series: one row per timestamp of either side, in
    increasing order, with the value of each side at that timestamp. *)
Definition outer_rows (a b : list (timestamp * float))
  : list (timestamp * (float * float)) :=
  map (fun t => (t, (row_get a t, row_get b t)))
      (index_union (map fst a) (map fst b)).

(** The rows of the outer join of two Series that have no missing value. *)
Definition joined (a b : Series) : list (timestamp * (float * float)) :=
  joined_dropna (outer_rows (s_rows a) (s_rows b)).

Definition asset_side (j : list (timestamp * (float * float))) : list float :=
  map (fun r => fst (snd r)) j.

Definition benchmark_side (j : list (timestamp * (float * float))) : list float :=
  map (fun r => snd (snd r)) j.

(** The (asset column, benchmark column) pairs, asset by asset. *)
Definition column_pairs (ra rb : DataFrame)
  : list ((label * Series) * (label * Series)) :=
  list_prod (iteritems ra) (iteritems rb).

(** Merging a list of named series into a table, one [pd.merge] after the
    other, as the loops of [relative_returns] do. *)
Definition merge_all {X : Type} (name_of : X -> label)
  (rows_of : X -> list (timestamp * float)) (items : list X) (res : DataFrame)
  : DataFrame :=
  fold_left (fun res p => merge_column res (name_of p) (rows_of p)) items res.

(** A Series laid over an index: its value at each timestamp of the index,
    missing where it has none. *)
Definition reindex (idx : list timestamp) (rows : list (timestamp * float))
  : list float :=
  map (row_get rows) idx.

(** The ratio of cumulative growth over the rows of the join that have no
    missing value. *)
Definition ratio_rows (a b : Series) : list (timestamp * float) :=
  let df := joined a b in
  let ga := cumprod (map (fun r => (fst (snd r) + 1)%float) df) in
  let gb := cumprod (map (fun r => (snd (snd r) + 1)%float) df) in
  combine (map fst df) (map (fun p => (fst p / snd p)%float) (combine ga gb)).

(** A table and a named series merged over the union of their timestamps,
    every column laid over the union. *)
Definition merged_column (res : DataFrame) (name : label)
  (rel : list (timestamp * float)) : DataFrame :=
  let idx := index_union (df_index res) (map fst rel) in
  let clash := existsb (fun c => label_eqb name (fst c)) (df_columns res) in
  let left :=
    map (fun c =>
           ((if label_eqb name (fst c) then suffix (fst c) "_x" else fst c),
            reindex idx (combine (df_index res) (snd c))))
        (df_columns res) in
  mkDataFrame idx
    (left ++ [((if clash then suffix name "_y" else name), reindex idx rel)]).

Definition merged_all {X : Type} (name_of : X -> label)
  (rows_of : X -> list (timestamp * float)) (items : list X) (res : DataFrame)
  : DataFrame :=
  fold_left (fun res p => merged_column res (name_of p) (rows_of p)) items res.

End RelativeSpec.

Export RelativeSpec.

(** ** Output names as the source gives them *)

Module NamingSpec.






End NamingSpec.

Export NamingSpec.

(** ** Sample data *)

Module Samples.

(** Business days: day numbers whose remainder modulo 7 is 0 (Monday) to
    4 (Friday). *)
Definition next_business_day (d : Z) : Z :=
  if d mod 7 =? 4 then d + 3 else d + 1.

Definition weekday (d : Z) : Prop := 0 <= d mod 7 <= 4.

Fixpoint business_days (n : nat) (d : Z) : list timestamp :=
  match n with
  | O => []
  | S k => d :: business_days k (next_business_day d)
  end.

(** A Series with the given values at the given timestamps. *)
Definition series_at (name : option label) (idx : list timestamp) (v : list float)
  : Series :=
  mkSeries name (combine idx v).

(** A Series that holds the same value at every timestamp. *)
Definition constant_series (idx : list timestamp) (x : float) : Series :=
  mkSeries None (map (fun t => (t, x)) idx).

(** Timestamps every [step] days. *)
Definition every (step : Z) (n : nat) : list timestamp :=
  map (fun k => step * Z.of_nat k) (seq 0 n).

(** A power function for running the samples: exact products for exponents
    that are non-negative whole numbers. *)
Fixpoint pow_steps (fuel : nat) (x e : float) : float :=
  match fuel with
  | O => 1%float
  | S k => if (e <=? 0)%float then 1%float
           else (x * pow_steps k x (e - 1))%float
  end.

Definition pow_whole (x e : float) : float := pow_steps 512 x e.

(** A summation for running the samples: the values are added in their
    order. *)
Definition sum_in_order (l : list float) : float := fold_left PrimFloat.add l 0%float.

(** A frequency accessor for running the samples: inference that yields
    [None] when it cannot decide. *)
Definition frequency_or_none (data : TimeSeriesData) : result (option string) :=
  infer_frequency data "ignore".

(** Twelve monthly, forty weekly and forty ten-day observations of a
    constant return, and a Series whose observations are all missing. *)
Definition sample_monthly : TimeSeriesData :=
  TSeries (constant_series (every 30 12) 0.01).

Definition sample_weekly : TimeSeriesData :=
  TSeries (constant_series (every 7 40) 0.002).

Definition sample_ten_days : TimeSeriesData :=
  TSeries (constant_series (every 10 40) 0.003).

Definition sample_missing : TimeSeriesData :=
  TSeries (mkSeries (Some (LStr "X")) [(0, nan); (1, nan)]).

(** An unnamed asset Series and an unnamed benchmark Series on the same
    three days, both starting with a return of 0; a benchmark of twelve
    monthly observations; a table with the integer labels 0 and 1, and one
    with the integer labels 5 and 7. *)
Definition sample_asset : Series :=
  mkSeries None [(0, 0%float); (1, 0.01%float); (2, 0.02%float)].

Definition sample_benchmark : Series :=
  mkSeries None [(0, 0%float); (1, 0.02%float); (2, 0.01%float)].


Definition sample_shuffled : Series :=
  mkSeries None [(2, 0.02%float); (0, 0%float); (1, 0.01%float)].

Definition sample_monthly_benchmark : TimeSeriesData :=
  TSeries (constant_series (every 30 12) 0.005).

Definition sample_table : DataFrame :=
  mkDataFrame [0; 1; 2]
    [(LInt 0, [0; 0.01; 0.02]%float); (LInt 1, [0.01; 0.01; 0.01]%float)].

Definition sample_table_5_7 : DataFrame :=
  mkDataFrame [0; 1; 2]
    [(LInt 5, [0; 0.01; 0.02]%float); (LInt 7, [0.01; 0.01; 0.01]%float)].

End Samples.

Export Samples.

(** ** Vocabulary of the further properties *)

Module Vocabulary.

(** The labels [freq_to_scale] knows, lower case. *)
Definition recognized_labels : list string :=
  [ "d"; "day"; "daily"; "w"; "week"; "weekly"; "m"; "month"; "monthly";
    "s"; "semi-annual"; "semi-annually"; "q"; "quarter"; "quarterly";
    "y"; "year"; "yearly"; "annual" ].

(** The scale of each of them. *)
Definition scale_table : list (string * Z) :=
  [ ("d", 252); ("day", 252); ("daily", 252);
    ("w", 52); ("week", 52); ("weekly", 52);
    ("m", 12); ("month", 12); ("monthly", 12);
    ("s", 6); ("semi-annual", 6); ("semi-annually", 6);
    ("q", 4); ("quarter", 4); ("quarterly", 4);
    ("y", 1); ("year", 1); ("yearly", 1); ("annual", 1) ].

(** A string of ASCII characters only; on these [lower] is [str.lower()]. *)
Definition ascii_only (s : string) : Prop :=
  Forall (fun c => (nat_of_ascii c < 128)%nat) (list_ascii_of_string s).

Definition ascii_label (freq : option string) : Prop :=
  match freq with
  | Some f => ascii_only f
  | None => True
  end.

(** A Series moved by [k] days. *)
Definition shift_series (k : Z) (s : Series) : Series :=
  mkSeries (s_name s) (map (fun r => (fst r + k, snd r)) (s_rows s)).

(** A Series followed by further rows. *)
Definition extend_series (s : Series) (later : list (timestamp * float)) : Series :=
  mkSeries (s_name s) (s_rows s ++ later).

(** The names under which the columns of a table come out. *)
Definition output_names (prefix : string) (d : DataFrame) : list label :=
  map (fun c => col_name prefix (fst c)) (df_columns d).

(** A table whose two columns come out under the same name: the integer
    label 0 becomes 'AST_0', which is the label of the other column. *)
Definition clashing_table : DataFrame :=
  mkDataFrame [0; 1; 2]
    [(LInt 0, [0%float; 0.01%float; 0.02%float]);
     (LStr "AST_0", [0.01%float; 0.01%float; 0.01%float])].

(** A table with one column that holds no observation. *)
Definition table_with_empty_column : DataFrame :=
  mkDataFrame [0; 1; 2]
    [(LStr "A", [0%float; 0.01%float; 0.02%float]);
     (LStr "B", [nan; nan; nan])].


End Vocabulary.

Export Vocabulary.

(* ================================================================== *)
(** * Part II: properties *)
(* ================================================================== *)

(** ** Python and pandas helpers *)

Section HelperFacts.

Lemma vc_get_incr (m : list (Z * Z)) (k d : Z) :
  vc_get (vc_incr k m) d 0 = vc_get m d 0 + (if d =? k then 1 else 0).
Proof.
  induction m as [|[k' c] m IH]; simpl.
  - destruct (d =? k); reflexivity.
  - destruct (k =? k') eqn:Ekk'; simpl.
    + apply Z.eqb_eq in Ekk'; subst k'.
      destruct (d =? k); lia.
    + destruct (d =? k') eqn:Edk'.
      * apply Z.eqb_eq in Edk'; subst k'.
        rewrite Z.eqb_sym in Ekk'. rewrite Ekk'. lia.
      * exact IH.
Qed.

Lemma vc_get_fold (l : list Z) (m : list (Z * Z)) (d : Z) :
  vc_get (fold_left (fun m k => vc_incr k m) l m) d 0
  = vc_get m d 0 + Z.of_nat (count_occ Z.eq_dec l d).
Proof.
  revert m; induction l as [|k l IH]; intros m; simpl.
  - lia.
  - rewrite IH, vc_get_incr.
    destruct (Z.eq_dec k d) as [->|Hne].
    + rewrite Z.eqb_refl. lia.
    + destruct (Z.eqb_spec d k); [congruence | lia].
Qed.

(** [value_counts(...).get(d, 0)] is the number of occurrences of [d]. *)
Lemma vc_get_value_counts (l : list Z) (d : Z) :
  vc_get (value_counts l) d 0 = Z.of_nat (count_occ Z.eq_dec l d).
Proof. unfold value_counts. rewrite vc_get_fold. reflexivity. Qed.

Lemma py_sum_shift (l : list Z) (a : Z) : fold_left Z.add l a = a + py_sum l.
Proof.
  unfold py_sum. revert a; induction l as [|x l IH]; intros a; simpl.
  - lia.
  - rewrite (IH (a + x)), (IH x). lia.
Qed.

Lemma py_sum_cons (x : Z) (l : list Z) : py_sum (x :: l) = x + py_sum l.
Proof. unfold py_sum at 1. simpl. apply (py_sum_shift l x). Qed.

(** Summing the counts of distinct days counts the values that are one of
    these days. *)
Lemma sum_counts_filter (days : list Z) (l : list Z) :
  NoDup days ->
  py_sum (map (fun d => Z.of_nat (count_occ Z.eq_dec l d)) days)
  = Z.of_nat (List.length (filter (fun g => existsb (Z.eqb g) days) l)).
Proof.
  intros Hnd. induction l as [|g l IH].
  - simpl. induction days as [|d days IHd]; [reflexivity|].
    cbn [map]. rewrite py_sum_cons. inversion Hnd; subst. rewrite IHd by assumption.
    reflexivity.
  - assert (Hstep : py_sum (map (fun d => Z.of_nat (count_occ Z.eq_dec (g :: l) d)) days)
                    = py_sum (map (fun d => Z.of_nat (count_occ Z.eq_dec l d)) days)
                      + (if existsb (Z.eqb g) days then 1 else 0)).
    { clear IH. induction days as [|d days IHd]; [reflexivity|].
      inversion Hnd as [|? ? Hnotin Hnd']; subst.
      cbn [map]. rewrite !py_sum_cons, IHd by assumption.
      cbn [existsb count_occ].
      destruct (Z.eq_dec g d) as [->|Hne].
      - rewrite Z.eqb_refl. cbn [orb].
        assert (Hex : existsb (Z.eqb d) days = false).
        { apply not_true_is_false. intros Hex. apply existsb_exists in Hex.
          destruct Hex as [y [Hin Hy]]. apply Z.eqb_eq in Hy. subst y. contradiction. }
        rewrite Hex, Nat2Z.inj_succ. lia.
      - destruct (Z.eqb_spec g d); [contradiction|]. cbn [orb].
        lia. }
    rewrite Hstep, IH. cbn [filter].
    destruct (existsb (Z.eqb g) days); cbn [List.length];
      rewrite ?Nat2Z.inj_succ; lia.
Qed.

End HelperFacts.

(** ** The frequency classifier *)

Section InferFrequencyFacts.

(** The element-wise difference of the two slices is the list of gaps between
    consecutive timestamps. *)
Lemma index_diff_gaps (idx : list timestamp) :
  index_diff idx = consecutive_gaps idx.
Proof.
  unfold index_diff. induction idx as [|x r IH]; [reflexivity|].
  destruct r as [|y r']; [reflexivity|].
  change (removelast (x :: y :: r')) with (x :: removelast (y :: r')).
  cbn [tl combine map fst snd consecutive_gaps].
  f_equal. exact IH.
Qed.

Lemma consecutive_gaps_length (idx : list timestamp) :
  List.length (consecutive_gaps idx) = Nat.pred (List.length idx).
Proof.
  induction idx as [|x r IH]; [reflexivity|].
  destruct r as [|y r']; [reflexivity|].
  cbn [consecutive_gaps List.length] in *. rewrite IH. reflexivity.
Qed.

Ltac day_set_tac :=
  let g := fresh "g" in
  intros g; apply eq_true_iff_eq;
  rewrite existsb_exists; cbn [In];
  rewrite ?andb_true_iff, ?Z.leb_le, ?Z.eqb_eq; split;
  [ intros [y [Hy Hg]]; apply Z.eqb_eq in Hg; lia
  | intros Hg; exists g; rewrite Z.eqb_refl; split; [lia | reflexivity] ].

Ltac nodup_tac :=
  repeat (constructor; [cbn [In]; lia|]); constructor.

Lemma votes_as_sum (p : Periodicity) (days : list Z) (idx : list timestamp) :
  NoDup days ->
  (forall g, existsb (Z.eqb g) days = in_day_set p g) ->
  py_sum (map (days_get (value_counts (index_diff idx))) days) = votes p idx.
Proof.
  intros Hnd Hset. unfold votes. rewrite <- index_diff_gaps.
  rewrite (map_ext _ (fun d => Z.of_nat (count_occ Z.eq_dec (index_diff idx) d)))
    by (intros d; apply vc_get_value_counts).
  rewrite sum_counts_filter by assumption.
  rewrite (filter_ext _ _ Hset). reflexivity.
Qed.

(** Each entry of [delta] is the vote total of its periodicity: the number of
    gaps that fall in its day-count set. *)
Lemma delta_votes (idx : list timestamp) :
  delta_of (value_counts (index_diff idx))
  = map (fun p => (periodicity_label p, votes p idx)) periodicities.
Proof.
  unfold delta_of.
  change (range 1 6) with [1; 2; 3; 4; 5].
  change (range 89 93) with [89; 90; 91; 92].
  change (range 180 185) with [180; 181; 182; 183; 184].
  change (range 360 367) with [360; 361; 362; 363; 364; 365; 366].
  rewrite (votes_as_sum Daily [1; 2; 3; 4; 5] idx);
    [| nodup_tac | unfold in_day_set; day_set_tac ].
  rewrite (votes_as_sum Monthly [28; 29; 30; 31] idx);
    [| nodup_tac | unfold in_day_set; day_set_tac ].
  rewrite (votes_as_sum Quarterly [89; 90; 91; 92] idx);
    [| nodup_tac | unfold in_day_set; day_set_tac ].
  rewrite (votes_as_sum SemiAnnually [180; 181; 182; 183; 184] idx);
    [| nodup_tac | unfold in_day_set; day_set_tac ].
  rewrite (votes_as_sum Yearly [360; 361; 362; 363; 364; 365; 366] idx);
    [| nodup_tac | unfold in_day_set; day_set_tac ].
  replace (days_get (value_counts (index_diff idx)) 7)
    with (py_sum (map (days_get (value_counts (index_diff idx))) [7]))
    by (cbn [map]; rewrite py_sum_cons; unfold py_sum; cbn [fold_left]; lia).
  rewrite (votes_as_sum Weekly [7] idx);
    [| nodup_tac | unfold in_day_set; day_set_tac ].
  reflexivity.
Qed.

End InferFrequencyFacts.

Section InferFrequencyTheorems.

Ltac pick_periodicity :=
  first
    [ exists Daily; split; [reflexivity|]
    | exists Weekly; split; [reflexivity|]
    | exists Monthly; split; [reflexivity|]
    | exists Quarterly; split; [reflexivity|]
    | exists SemiAnnually; split; [reflexivity|]
    | exists Yearly; split; [reflexivity|] ].

(** [max] over the six entries picks the first periodicity with the highest
    vote total. *)
Lemma max_first_most (v : Periodicity -> Z) :
  exists p,
    max_by_value (map (fun p => (periodicity_label p, v p)) periodicities)
    = OK (periodicity_label p)
    /\ (forall q, v q <= v p)
    /\ (forall q, (rank q < rank p)%nat -> v q < v p).
Proof.
  unfold periodicities, max_by_value. cbn [map max_from fst snd].
  repeat match goal with
         | |- context [Z.ltb ?a ?b] =>
             destruct (Z.ltb_spec a b); cbn [max_from fst snd]
         end;
    pick_periodicity;
    (split; intros q; destruct q; cbn [rank]; intros; lia).
Qed.

(** With a valid policy, [infer_frequency] is the choice between [max] and
    the threshold scan over the vote totals. *)
Lemma infer_frequency_unfold (data : TimeSeriesData) (fail_policy : string) :
  valid_policy fail_policy ->
  infer_frequency data fail_policy
  = let delta := map (fun p => (periodicity_label p, votes p (index data)))
                     periodicities in
    if len data <? 30 then
      k <- max_by_value delta ;; OK (Some k)
    else
      match find (fun item => over_85pct (snd item) (len data)) delta with
      | Some (freq, _) => OK (Some freq)
      | None =>
          if String.eqb (lower fail_policy) "raise" then
            Raise (TypeError "could not infer periodicity of time series index")
          else OK None
      end.
Proof.
  intros Hvalid. unfold infer_frequency. unfold valid_policy in Hvalid.
  rewrite Hvalid. cbn [negb]. rewrite delta_votes. reflexivity.
Qed.

Lemma first_with_most_votes_unique (idx : list timestamp) (p q : Periodicity) :
  first_with_most_votes idx p -> first_with_most_votes idx q -> p = q.
Proof.
  intros [Hp1 Hp2] [Hq1 Hq2].
  destruct (Nat.lt_trichotomy (rank p) (rank q)) as [Hlt | [Heq | Hgt]].
  - specialize (Hq2 p Hlt). specialize (Hp1 q). lia.
  - destruct p, q; cbn [rank] in Heq; congruence.
  - specialize (Hp2 q Hgt). specialize (Hq1 p). lia.
Qed.

(** Few timestamps give no gap at all, or none that votes. *)
Lemma votes_no_gap (p : Periodicity) (idx : list timestamp) :
  (List.length idx < 2)%nat -> votes p idx = 0.
Proof.
  intros Hlen. unfold votes.
  destruct idx as [|x [|y r]]; cbn [List.length] in Hlen; try lia; reflexivity.
Qed.

Lemma filter_all {A : Type} (f : A -> bool) (l : list A) :
  Forall (fun x => f x = true) l -> filter f l = l.
Proof.
  induction 1 as [|x l Hx _ IH]; [reflexivity|].
  cbn [filter]. rewrite Hx, IH. reflexivity.
Qed.

Lemma next_business_day_weekday (d : Z) :
  weekday d -> weekday (next_business_day d).
Proof.
  unfold weekday, next_business_day. intros Hd.
  destruct (Z.eqb_spec (d mod 7) 4) as [E|E];
    Z.div_mod_to_equations; lia.
Qed.

Lemma next_business_day_gap (d : Z) :
  in_day_set Daily (next_business_day d - d) = true.
Proof.
  unfold next_business_day, in_day_set.
  destruct (d mod 7 =? 4);
    [ replace (d + 3 - d) with 3 by lia | replace (d + 1 - d) with 1 by lia ];
    reflexivity.
Qed.

Lemma business_days_length (n : nat) (d : Z) :
  List.length (business_days n d) = n.
Proof.
  revert d; induction n as [|n IH]; intros d; [reflexivity|].
  cbn [business_days List.length]. rewrite IH. reflexivity.
Qed.

Lemma business_days_gaps (n : nat) (d : Z) :
  Forall (fun g => in_day_set Daily g = true)
         (consecutive_gaps (business_days n d)).
Proof.
  revert d; induction n as [|n IH]; intros d; [constructor|].
  destruct n as [|n]; [constructor|].
  change (business_days (S (S n)) d)
    with (d :: business_days (S n) (next_business_day d)).
  change (business_days (S n) (next_business_day d))
    with (next_business_day d
          :: business_days n (next_business_day (next_business_day d))) at 1.
  cbn [consecutive_gaps]. constructor.
  - apply next_business_day_gap.
  - exact (IH (next_business_day d)).
Qed.

Lemma business_days_votes (n : nat) (d : Z) :
  votes Daily (business_days n d) = Z.of_nat (Nat.pred n).
Proof.
  unfold votes. rewrite filter_all by apply business_days_gaps.
  rewrite consecutive_gaps_length, business_days_length. reflexivity.
Qed.

Lemma map_fst_combine {A B : Type} (l : list A) (l' : list B) :
  List.length l = List.length l' -> map fst (combine l l') = l.
Proof.
  revert l'; induction l as [|x l IH]; intros [|y l'] Hlen;
    cbn [List.length] in Hlen; try discriminate; [reflexivity|].
  cbn [combine map fst]. rewrite IH by lia. reflexivity.
Qed.

Lemma holds_from_spec (f : Z -> bool) (k : nat) (a x : Z) :
  holds_from k a f = true -> a <= x < a + Z.of_nat k -> f x = true.
Proof.
  revert a; induction k as [|k IH]; intros a Hall Hx; [lia|].
  cbn [holds_from] in Hall. apply andb_true_iff in Hall. destruct Hall as [Ha Hrest].
  destruct (Z.eq_dec x a) as [->|Hne]; [exact Ha|].
  apply (IH (a + 1) Hrest). lia.
Qed.

(** On series of fewer than 500 observations the binary64 test
    [count > 0.85 * n] decides exactly whether count exceeds 85% of n. *)
Lemma over_85pct_exact (count n : Z) :
  0 <= count <= n -> n < 500 ->
  over_85pct count n = exceeds_85pct_exactly count n.
Proof.
  intros Hc Hn.
  assert (Hall : threshold_tests_agree 500 = true) by (vm_compute; reflexivity).
  unfold threshold_tests_agree in Hall.
  pose proof (holds_from_spec _ 500 0 n Hall ltac:(lia)) as Hrow.
  cbv beta in Hrow.
  pose proof (holds_from_spec _ (S (Z.to_nat n)) 0 count Hrow ltac:(lia)) as Hcell.
  cbv beta in Hcell. apply eqb_prop in Hcell. exact Hcell.
Qed.

End InferFrequencyTheorems.

Section InferFrequencyClaims.

(** C3.  With at least 2 and fewer than 30 observations and a valid failure
    policy, [infer_frequency] returns the periodicity whose day-count set
    matches the largest number of consecutive gaps, the first one in the
    order daily, weekly, monthly, quarterly, semi-annually, yearly when
    several tie.  The statement does not mention the 85% threshold: it plays
    no part in this regime. *)
Theorem infer_frequency_few_observations
  (data : TimeSeriesData) (fail_policy : string) :
  valid_policy fail_policy ->
  2 <= len data < 30 ->
  exists p,
    infer_frequency data fail_policy = OK (Some (periodicity_label p))
    /\ first_with_most_votes (index data) p.
Proof.
  intros Hvalid [_ Hlt].
  rewrite (infer_frequency_unfold data fail_policy Hvalid). cbv zeta.
  destruct (Z.ltb_spec (len data) 30) as [_|Hge]; [|lia].
  destruct (max_first_most (fun p => votes p (index data))) as [p [Hmax Hspec]].
  exists p. rewrite Hmax. split; [reflexivity|exact Hspec].
Qed.

Lemma infer_frequency_few_observations_witness :
  exists p,
    infer_frequency (TSeries (constant_series (every 30 12) 0.01)) "raise"
    = OK (Some (periodicity_label p))
    /\ first_with_most_votes
         (index (TSeries (constant_series (every 30 12) 0.01))) p.
Proof.
  apply infer_frequency_few_observations.
  - reflexivity.
  - vm_compute. split; [discriminate | reflexivity].
Defined.

(** C2.  With at least 30 observations and a valid failure policy,
    [infer_frequency] scans daily, weekly, monthly, quarterly, semi-annually,
    yearly in this order and returns the first whose vote total exceeds
    0.85 * n; when none does it raises the error of a frequency that cannot
    be inferred under the policy 'raise' and returns [None] under 'ignore'.
    A series of 300 business-day timestamps is classified as 'daily'. *)
Theorem infer_frequency_many_observations :
  (forall (data : TimeSeriesData) (fail_policy : string),
      valid_policy fail_policy ->
      30 <= len data ->
      (forall p,
          first_over_threshold (index data) (len data) p ->
          infer_frequency data fail_policy = OK (Some (periodicity_label p)))
      /\ ((forall p, over_85pct (votes p (index data)) (len data) = false) ->
          (lower fail_policy = "raise" ->
           infer_frequency data fail_policy
           = Raise (TypeError "could not infer periodicity of time series index"))
          /\ (lower fail_policy = "ignore" ->
              infer_frequency data fail_policy = OK None)))
  /\ (forall (name : option label) (d : Z) (values : list float)
             (fail_policy : string),
         valid_policy fail_policy ->
         weekday d ->
         List.length values = 300%nat ->
         infer_frequency (TSeries (series_at name (business_days 300 d) values))
                         fail_policy
         = OK (Some "daily")).
Proof.
  assert (Hscan : forall (data : TimeSeriesData) (fail_policy : string),
             valid_policy fail_policy ->
             30 <= len data ->
             forall p,
               first_over_threshold (index data) (len data) p ->
               infer_frequency data fail_policy = OK (Some (periodicity_label p))).
  { intros data fail_policy Hvalid Hlen p [Hp Hq].
    rewrite (infer_frequency_unfold data fail_policy Hvalid). cbv zeta.
    destruct (Z.ltb_spec (len data) 30) as [Hlt|_]; [lia|].
    unfold periodicities. cbn [map find snd].
    destruct p; cbn [rank] in Hq;
      repeat first
        [ rewrite Hp
        | rewrite (Hq Daily) by (cbn [rank]; lia)
        | rewrite (Hq Weekly) by (cbn [rank]; lia)
        | rewrite (Hq Monthly) by (cbn [rank]; lia)
        | rewrite (Hq Quarterly) by (cbn [rank]; lia)
        | rewrite (Hq SemiAnnually) by (cbn [rank]; lia) ];
      reflexivity. }
  split.
  - intros data fail_policy Hvalid Hlen. split; [exact (Hscan data fail_policy Hvalid Hlen)|].
    intros Hnone.
    rewrite (infer_frequency_unfold data fail_policy Hvalid). cbv zeta.
    destruct (Z.ltb_spec (len data) 30) as [Hlt|_]; [lia|].
    unfold periodicities. cbn [map find snd].
    rewrite !Hnone.
    split; intros Hpol; rewrite Hpol; reflexivity.
  - intros name d values fail_policy Hvalid Hd Hvalues.
    assert (Hidx : index (TSeries (series_at name (business_days 300 d) values))
                   = business_days 300 d).
    { unfold index, s_index, series_at. cbn [s_rows].
      apply map_fst_combine. rewrite business_days_length. symmetry. exact Hvalues. }
    assert (Hlen : len (TSeries (series_at name (business_days 300 d) values)) = 300).
    { unfold len. rewrite Hidx, business_days_length. reflexivity. }
    refine (Hscan _ fail_policy Hvalid _ Daily _).
    + rewrite Hlen. lia.
    + rewrite Hidx, Hlen. split.
      * rewrite business_days_votes. vm_compute. reflexivity.
      * intros q Hq. cbn [rank] in Hq. lia.
Qed.

Lemma infer_frequency_many_observations_witness :
  infer_frequency sample_weekly "raise" = OK (Some "weekly")
  /\ infer_frequency sample_ten_days "Raise"
     = Raise (TypeError "could not infer periodicity of time series index")
  /\ infer_frequency sample_ten_days "ignore" = OK None
  /\ infer_frequency
       (TSeries (series_at None (business_days 300 0) (repeat 0.01%float 300)))
       "ignore"
     = OK (Some "daily").
Proof.
  split; [|split; [|split]].
  - apply (proj1 (proj1 infer_frequency_many_observations sample_weekly "raise"
                    eq_refl ltac:(vm_compute; discriminate)) Weekly).
    split.
    + vm_compute. reflexivity.
    + intros q Hq. destruct q; cbn [rank] in Hq; try lia. vm_compute. reflexivity.
  - apply (proj2 (proj1 infer_frequency_many_observations sample_ten_days "Raise"
                    eq_refl ltac:(vm_compute; discriminate))).
    + intros p. destruct p; vm_compute; reflexivity.
    + reflexivity.
  - apply (proj2 (proj1 infer_frequency_many_observations sample_ten_days "ignore"
                    eq_refl ltac:(vm_compute; discriminate))).
    + intros p. destruct p; vm_compute; reflexivity.
    + reflexivity.
  - apply (proj2 infer_frequency_many_observations None 0 (repeat 0.01%float 300)
             "ignore" eq_refl).
    + unfold weekday. vm_compute. split; discriminate.
    + reflexivity.
Defined.

(** C4 as the source has it.  With fewer than 2 timestamps and a valid
    failure policy, [infer_frequency] does not fail: no gap exists, every
    vote total is 0, and the branch for fewer than 30 observations returns
    the first periodicity, 'daily'. *)
Theorem infer_frequency_no_gap (data : TimeSeriesData) (fail_policy : string) :
  valid_policy fail_policy ->
  len data < 2 ->
  infer_frequency data fail_policy = OK (Some "daily").
Proof.
  intros Hvalid Hlen.
  rewrite (infer_frequency_unfold data fail_policy Hvalid). cbv zeta.
  destruct (Z.ltb_spec (len data) 30) as [_|Hge]; [|lia].
  unfold periodicities. cbn [map].
  rewrite !votes_no_gap by (unfold len in Hlen; lia).
  reflexivity.
Qed.

Lemma infer_frequency_no_gap_witness :
  infer_frequency (TSeries (mkSeries None [(0, 0.01%float)])) "raise"
  = OK (Some "daily").
Proof.
  apply infer_frequency_no_gap.
  - reflexivity.
  - vm_compute. reflexivity.
Defined.

(** C4 as the specification words it fails on a Series of one observation:
    under the policy 'raise' the call returns 'daily' and raises nothing. *)
Lemma infer_frequency_single_timestamp_returns :
  len (TSeries (mkSeries (Some (LStr "X")) [(17, 0.02%float)])) = 1
  /\ infer_frequency (TSeries (mkSeries (Some (LStr "X")) [(17, 0.02%float)])) "raise"
     = OK (Some "daily")
  /\ ~ raises
       (infer_frequency (TSeries (mkSeries (Some (LStr "X")) [(17, 0.02%float)]))
                        "raise").
Proof.
  split; [reflexivity|]. split; [reflexivity|].
  intros [e He]. vm_compute in He. discriminate He.
Qed.

End InferFrequencyClaims.

(** ** Frequency reconciliation and annualization *)

Section AnnualizeFacts.

Variable pow : float -> float -> float.
Variable np_sum : list float -> float.
Variable ppa_frequency : TimeSeriesData -> result (option string).

(** The scale of a recognised label is one of the six annualization factors. *)
Lemma freq_to_scale_values (freq : option string) (scale : Z) :
  freq_to_scale freq = OK scale ->
  In scale [252; 52; 12; 6; 4; 1].
Proof.
  unfold freq_to_scale.
  repeat match goal with
         | |- context [if ?b then _ else _] => destruct b
         end;
    intros H; inversion H; subst; cbn [In]; auto 10.
Qed.

Lemma freq_to_scale_positive (freq : option string) (scale : Z) :
  freq_to_scale freq = OK scale -> 0 < scale.
Proof.
  intros H. apply freq_to_scale_values in H. cbn [In] in H.
  repeat destruct H as [H|H]; subst; try lia; contradiction.
Qed.

(** The values of a cleaned Series are the values that are not missing, and
    their number is its length. *)
Lemma series_dropna_values (s : Series) :
  s_values (series_dropna s) = filter notna (s_values s).
Proof.
  unfold s_values, series_dropna. cbn [s_rows].
  induction (s_rows s) as [|[t v] r IH]; [reflexivity|].
  cbn [filter map snd]. destruct (notna v); cbn [map snd]; rewrite IH; reflexivity.
Qed.

Lemma len_series (s : Series) :
  len (TSeries s) = Z.of_nat (List.length (s_values s)).
Proof. unfold len, index, s_index, s_values. rewrite !length_map. reflexivity. Qed.

(** An empty mean scaled by any annualization factor is NaN. *)
Lemma empty_mean_scaled (freq : option string) (scale : Z) :
  freq_to_scale freq = OK scale ->
  (mean np_sum [] * float_of_int scale)%float = nan.
Proof.
  intros H. apply freq_to_scale_values in H. cbn [In] in H.
  repeat destruct H as [H|H]; subst; try contradiction; vm_compute; reflexivity.
Qed.

(** A mask that keeps nothing of the index keeps nothing of a column. *)
Lemma select_nothing {A B : Type} (m : list bool) (l : list A) (l' : list B) :
  List.length m = List.length l -> select m l = [] -> select m l' = [].
Proof.
  revert l l'; induction m as [|b m IH]; intros l l' Hlen Hsel; [reflexivity|].
  destruct l as [|x l]; [discriminate Hlen|].
  cbn [select] in Hsel. destruct b; [discriminate Hsel|].
  destruct l' as [|y l']; [reflexivity|].
  cbn [select]. apply (IH l); [cbn [List.length] in Hlen; lia | exact Hsel].
Qed.

Lemma row_mask_length (d : DataFrame) :
  List.length (row_mask d) = List.length (df_index d).
Proof. unfold row_mask. rewrite length_map, length_seq. reflexivity. Qed.

(** Every column of a cleaned table or Series without rows is empty. *)
Lemma reduce_empty (f : list float -> float) (r : TimeSeriesData) :
  len (dropna r) = 0 ->
  reduce f (dropna r) = reduce (fun _ => f []) (dropna r).
Proof.
  intros Hlen. destruct r as [s|d]; cbn [dropna reduce].
  - cbn [dropna] in Hlen. rewrite len_series in Hlen.
    destruct (s_values (series_dropna s)); [reflexivity|].
    cbn [List.length] in Hlen. lia.
  - f_equal. unfold frame_dropna. cbn [df_columns].
    rewrite !map_map. apply map_ext. intros c. cbn [fst snd]. f_equal. f_equal.
    apply (select_nothing _ (df_index d)); [apply row_mask_length|].
    unfold len, index, dropna, frame_dropna in Hlen. cbn [df_index] in Hlen.
    destruct (select (row_mask d) (df_index d)); [reflexivity|].
    cbn [List.length] in Hlen. lia.
Qed.

End AnnualizeFacts.

Section AnnualizeClaims.

Variable pow : float -> float -> float.
Variable np_sum : list float -> float.
Variable ppa_frequency : TimeSeriesData -> result (option string).

(** C5.  Frequency reconciliation: a requested frequency is returned as it
    is, whatever the inference on either side does; otherwise two absent
    frequencies give the error of no frequency, one absent frequency gives
    the other, two equal frequencies give that frequency, and two unequal
    frequencies give the mismatch error that carries both. *)
Theorem determine_frequency_reconciles :
  (forall ra rb f, _determine_frequency ppa_frequency ra rb (Some f) = OK f)
  /\ (forall ra rb,
         ppa_frequency ra = OK None -> ppa_frequency rb = OK None ->
         _determine_frequency ppa_frequency ra rb None = Raise TimeIndexError)
  /\ (forall ra rb f,
         ppa_frequency ra = OK None -> ppa_frequency rb = OK (Some f) ->
         _determine_frequency ppa_frequency ra rb None = OK f)
  /\ (forall ra rb f,
         ppa_frequency ra = OK (Some f) -> ppa_frequency rb = OK None ->
         _determine_frequency ppa_frequency ra rb None = OK f)
  /\ (forall ra rb f,
         ppa_frequency ra = OK (Some f) -> ppa_frequency rb = OK (Some f) ->
         _determine_frequency ppa_frequency ra rb None = OK f)
  /\ (forall ra rb fa fb,
         ppa_frequency ra = OK (Some fa) -> ppa_frequency rb = OK (Some fb) ->
         fa <> fb ->
         _determine_frequency ppa_frequency ra rb None
         = Raise (TimeIndexMismatchError fa fb)).
Proof.
  unfold _determine_frequency.
  repeat split; intros; try reflexivity;
    repeat match goal with
           | H : ppa_frequency _ = _ |- _ => rewrite H; clear H
           end;
    cbn [bind]; try reflexivity.
  - rewrite String.eqb_refl. reflexivity.
  - destruct (String.eqb_spec fa fb); [contradiction|reflexivity].
Qed.

(** The cells a row mask keeps, by position. *)
Lemma select_positions {A : Type} (g : nat -> bool) (n s : nat) (l : list A) :
  select (map g (seq s n)) l
  = map snd (filter (fun p => g (fst p)) (combine (seq s n) l)).
Proof.
  revert s l; induction n as [|n IH]; intros s l; [reflexivity|].
  cbn [seq map select combine]. destruct l as [|x l]; [reflexivity|].
  cbn [filter fst]. destruct (g s); cbn [map snd]; rewrite IH; reflexivity.
Qed.

Lemma select_count (g : nat -> bool) (n s : nat) (l : list nat) :
  List.length l = n ->
  List.length (select (map g (seq s n)) l) = List.length (filter g (seq s n)).
Proof.
  revert s l; induction n as [|n IH]; intros s l Hlen.
  - destruct l; [reflexivity|discriminate Hlen].
  - destruct l as [|x l]; [discriminate Hlen|].
    cbn [seq map select filter]. cbn [List.length] in Hlen.
    destruct (g s); cbn [List.length]; rewrite (IH (S s) l) by lia; reflexivity.
Qed.

Lemma select_observed_in (d : DataFrame) (column : list float) :
  select (row_mask d) column = observed_in d column.
Proof. unfold row_mask, observed_in. apply select_positions. Qed.

Lemma select_length_any {A B : Type} (m : list bool) (l : list A) (l' : list B) :
  List.length l = List.length l' ->
  List.length (select m l) = List.length (select m l').
Proof.
  revert l l'; induction m as [|b m IH]; intros l l' Hlen; [reflexivity|].
  destruct l as [|x l], l' as [|y l']; try discriminate Hlen; [reflexivity|].
  cbn [select]. cbn [List.length] in Hlen.
  destruct b; cbn [List.length]; rewrite (IH l l') by lia; reflexivity.
Qed.

Lemma len_frame_dropna (d : DataFrame) :
  len (TFrame (frame_dropna d)) = complete_rows d.
Proof.
  unfold len, index, frame_dropna, complete_rows. cbn [df_index]. f_equal.
  rewrite (select_length_any _ (df_index d) (seq 0 (List.length (df_index d))))
    by (rewrite length_seq; reflexivity).
  unfold row_mask. apply select_count. apply length_seq.
Qed.



(** C8 as the source has it.  On an input whose cleaned series is empty,
    [annualized_returns] fails in geometric mode, whatever the frequency
    argument; in arithmetic mode with a recognised frequency label it does
    not fail and returns NaN, the mean of no observation, for the Series or
    for every column. *)
Theorem annualized_returns_empty (r : TimeSeriesData) :
  len (dropna r) = 0 ->
  (forall freq, raises (annualized_returns pow np_sum ppa_frequency r freq true))
  /\ (forall f scale,
         freq_to_scale (Some f) = OK scale ->
         annualized_returns pow np_sum ppa_frequency r (Some f) false
         = OK (reduce (fun _ => nan) (dropna r))).
Proof.
  intros Hlen. split.
  - intros freq. unfold raises, annualized_returns, to_time_series.
    rewrite Hlen.
    destruct (match freq with
              | Some _ => OK freq
              | None => ppa_frequency (dropna r)
              end) as [fo|e]; cbn [bind]; [|eauto].
    destruct (freq_to_scale fo) as [scale|e]; cbn [bind]; [|eauto].
    unfold int_truediv. cbn [Z.eqb bind]. eauto.
  - intros f scale Hscale. unfold annualized_returns, to_time_series.
    cbn [bind]. rewrite Hscale. cbn [bind].
    rewrite reduce_empty by exact Hlen.
    rewrite (empty_mean_scaled np_sum (Some f) scale Hscale). reflexivity.
Qed.

End AnnualizeClaims.

Section AnnualizeSamples.

Lemma determine_frequency_reconciles_witness :
  _determine_frequency frequency_or_none sample_ten_days sample_ten_days None
  = Raise TimeIndexError
  /\ _determine_frequency frequency_or_none sample_ten_days sample_weekly None
     = OK "weekly"
  /\ _determine_frequency frequency_or_none sample_monthly sample_ten_days None
     = OK "monthly"
  /\ _determine_frequency frequency_or_none sample_weekly sample_weekly None
     = OK "weekly"
  /\ _determine_frequency frequency_or_none sample_monthly sample_weekly None
     = Raise (TimeIndexMismatchError "monthly" "weekly").
Proof.
  pose proof (determine_frequency_reconciles frequency_or_none)
    as [_ [Hnone [Hright [Hleft [Hsame Hdiff]]]]].
  split; [|split; [|split; [|split]]].
  - apply Hnone; vm_compute; reflexivity.
  - apply Hright; vm_compute; reflexivity.
  - apply Hleft; vm_compute; reflexivity.
  - apply Hsame; vm_compute; reflexivity.
  - apply Hdiff; [vm_compute; reflexivity | vm_compute; reflexivity | discriminate].
Defined.


Lemma annualized_returns_empty_witness :
  annualized_returns pow_whole sum_in_order frequency_or_none sample_missing (Some "daily") false
  = OK (reduce (fun _ => nan) (dropna sample_missing)).
Proof.
  apply (proj2 (annualized_returns_empty pow_whole sum_in_order frequency_or_none
                  sample_missing eq_refl) "daily" 252 eq_refl).
Defined.

(** C8 as the specification words it fails in arithmetic mode: on a Series
    without a single observation the call returns NaN and raises nothing. *)
Lemma annualized_returns_empty_arithmetic_returns :
  len (dropna (TSeries (mkSeries None []))) = 0
  /\ annualized_returns pow_whole sum_in_order frequency_or_none
       (TSeries (mkSeries None [])) (Some "daily") false
     = OK (AScalar nan)
  /\ ~ raises (annualized_returns pow_whole sum_in_order frequency_or_none
                 (TSeries (mkSeries None [])) (Some "daily") false).
Proof.
  split; [reflexivity|]. split; [vm_compute; reflexivity|].
  intros [e He]. vm_compute in He. discriminate He.
Qed.

End AnnualizeSamples.

(** ** Excess returns *)

Section ExcessFacts.

Lemma filter_forall {A : Type} (f : A -> bool) (l : list A) :
  Forall (fun x => f x = true) (filter f l).
Proof. apply Forall_forall. intros x Hx. apply filter_In in Hx. tauto. Qed.

Lemma forall_firstn {A : Type} (P : A -> Prop) (k : nat) (l : list A) :
  Forall P l -> Forall P (firstn k l).
Proof.
  revert l; induction k as [|k IH]; intros l H; [constructor|].
  destruct H as [|x l Hx Hl]; [constructor|].
  cbn [firstn]. constructor; [exact Hx|apply IH; exact Hl].
Qed.

(** Cleaning a Series twice, with a truncation in between, changes nothing
    the second time. *)
Lemma series_dropna_head (k : nat) (s : Series) :
  series_dropna (mkSeries (s_name s) (firstn k (s_rows (series_dropna s))))
  = mkSeries (s_name s) (firstn k (s_rows (series_dropna s))).
Proof.
  unfold series_dropna. cbn [s_name s_rows]. f_equal.
  apply filter_all. apply forall_firstn.
  apply (filter_forall (fun r => notna (snd r))).
Qed.

(** The cells a row mask keeps are the cells at the positions it marks. *)
Lemma select_marked (P : float -> Prop) (g : nat -> bool) (col : list float) :
  (forall i, g i = true -> P (nth i col nan)) ->
  forall (n s : nat) (l : list float),
    (forall j, nth j l nan = nth (s + j) col nan) ->
    Forall P (select (map g (seq s n)) l).
Proof.
  intros Hg. induction n as [|n IH]; intros s l Hl; [constructor|].
  cbn [seq map select]. destruct l as [|x l]; [constructor|].
  assert (Htail : forall j, nth j l nan = nth (S s + j) col nan).
  { intros j. specialize (Hl (S j)). cbn [nth] in Hl.
    rewrite Hl. f_equal. lia. }
  destruct (g s) eqn:Egs.
  - constructor; [|apply IH; exact Htail].
    specialize (Hl 0%nat). cbn [nth] in Hl. rewrite Hl, Nat.add_0_r.
    apply Hg. exact Egs.
  - apply IH. exact Htail.
Qed.

Lemma frame_dropna_observed (d : DataFrame) (c : label * list float) :
  In c (df_columns d) ->
  Forall (fun x => notna x = true) (select (row_mask d) (snd c)).
Proof.
  intros Hc. unfold row_mask.
  apply (select_marked _ _ (snd c)); [|intros j; reflexivity].
  intros i Hi. rewrite forallb_forall in Hi. exact (Hi c Hc).
Qed.

Lemma select_length {A B : Type} (m : list bool) (l : list A) (l' : list B) :
  List.length l = List.length l' ->
  List.length (select m l) = List.length (select m l').
Proof.
  revert l l'; induction m as [|b m IH]; intros l l' Hlen; [reflexivity|].
  destruct l as [|x l], l' as [|y l']; try discriminate Hlen; [reflexivity|].
  cbn [select]. cbn [List.length] in Hlen.
  destruct b; cbn [List.length]; rewrite (IH l l') by lia; reflexivity.
Qed.

Lemma select_all {A : Type} (m : list bool) (l : list A) :
  Forall (fun b => b = true) m ->
  (List.length l <= List.length m)%nat ->
  select m l = l.
Proof.
  intros Hm. revert l. induction Hm as [|b m Hb _ IH]; intros l Hlen.
  - destruct l; [reflexivity|cbn [List.length] in Hlen; lia].
  - destruct l as [|x l]; [reflexivity|].
    cbn [select]. subst b. rewrite IH; [reflexivity|].
    cbn [List.length] in Hlen. lia.
Qed.

(** Cleaning a well-formed table twice, with a truncation in between, changes
    nothing the second time. *)
Lemma frame_dropna_head (k : nat) (d : DataFrame) :
  well_formed (TFrame d) ->
  let d' := mkDataFrame (firstn k (df_index (frame_dropna d)))
              (map (fun c => (fst c, firstn k (snd c))) (df_columns (frame_dropna d))) in
  frame_dropna d' = d'.
Proof.
  intros Hwf d'. cbn [well_formed] in Hwf. rewrite Forall_forall in Hwf.
  assert (Hcols : forall c', In c' (df_columns d') ->
             Forall (fun x => notna x = true) (snd c')
             /\ List.length (snd c') = List.length (df_index d')).
  { intros c' Hc'. unfold d', frame_dropna in Hc'. cbn [df_columns df_index] in Hc'.
    rewrite map_map in Hc'. apply in_map_iff in Hc'. destruct Hc' as [c [<- Hc]].
    cbn [fst snd]. split.
    - apply forall_firstn. apply frame_dropna_observed. exact Hc.
    - unfold d', frame_dropna. cbn [df_index].
      rewrite !length_firstn. f_equal. apply select_length. apply Hwf. exact Hc. }
  assert (Hmask : Forall (fun b => b = true) (row_mask d')).
  { unfold row_mask. apply Forall_forall. intros b Hb.
    apply in_map_iff in Hb. destruct Hb as [i [<- Hi]].
    apply in_seq in Hi. apply forallb_forall. intros c' Hc'.
    destruct (Hcols c' Hc') as [Hnotna Hlen].
    rewrite Forall_forall in Hnotna. apply Hnotna. apply nth_In. lia. }
  assert (Hindex : select (row_mask d') (df_index d') = df_index d').
  { apply select_all; [exact Hmask|]. rewrite row_mask_length. lia. }
  assert (Hcolumns : map (fun c => (fst c, select (row_mask d') (snd c)))
                         (df_columns d') = df_columns d').
  { rewrite <- (map_id (df_columns d')) at 2. apply map_ext_in.
    intros c' Hc'. destruct (Hcols c' Hc') as [_ Hlen].
    destruct c' as [lbl col]. cbn [fst snd] in *. f_equal.
    apply select_all; [exact Hmask|]. rewrite row_mask_length. lia. }
  unfold frame_dropna. rewrite Hindex, Hcolumns. reflexivity.
Qed.

Lemma dropna_earliest (n : Z) (r : TimeSeriesData) :
  well_formed r -> dropna (earliest n r) = earliest n r.
Proof.
  intros Hwf. unfold earliest. destruct r as [s|d]; cbn [dropna iloc_head].
  - f_equal. apply (series_dropna_head (Z.to_nat n) s).
  - f_equal. apply (frame_dropna_head (Z.to_nat n) d Hwf).
Qed.

Lemma len_iloc_head (n : Z) (r : TimeSeriesData) :
  0 <= n <= len r -> len (iloc_head n r) = n.
Proof.
  intros Hn. unfold len in *. destruct r as [s|d]; cbn [iloc_head index] in *.
  - unfold s_index in *. cbn [s_rows]. rewrite length_map in *.
    rewrite length_firstn. lia.
  - cbn [df_index]. rewrite length_firstn. lia.
Qed.

Lemma len_nonneg (r : TimeSeriesData) : 0 <= len r.
Proof. unfold len. lia. Qed.

Lemma shape_eqb_refl (a : list Z) : shape_eqb a a = true.
Proof. induction a as [|x a IH]; [reflexivity|]. cbn. rewrite Z.eqb_refl. exact IH. Qed.

(** After the truncation the shape test of [excess_returns] passes exactly
    when the two sides are comparable. *)
Lemma shape_test_passes (n : Z) (ra rb : TimeSeriesData) :
  0 <= n <= len ra -> 0 <= n <= len rb ->
  comparable ra rb ->
  (ndim (iloc_head n ra) =? ndim (iloc_head n rb))
  && negb (shape_eqb (shape (iloc_head n ra)) (shape (iloc_head n rb))) = false.
Proof.
  intros Ha Hb Hcmp.
  pose proof (len_iloc_head n ra Ha) as La.
  pose proof (len_iloc_head n rb Hb) as Lb.
  destruct ra as [sa|da], rb as [sb|db]; cbn [iloc_head ndim] in *;
    try reflexivity; unfold shape; cbn [iloc_head] in *; rewrite La, Lb.
  - cbn. rewrite Z.eqb_refl. reflexivity.
  - cbn [df_columns comparable] in *. rewrite !length_map, Hcmp.
    rewrite shape_eqb_refl. reflexivity.
Qed.

Lemma map_snd_combine {A B : Type} (l : list A) (l' : list B) :
  List.length l = List.length l' -> map snd (combine l l') = l'.
Proof.
  revert l'; induction l as [|x l IH]; intros [|y l'] Hlen;
    cbn [List.length] in Hlen; try discriminate; [reflexivity|].
  cbn [combine map snd]. rewrite IH by lia. reflexivity.
Qed.

Lemma forall2_map_right {A B : Type} (R : A -> B -> Prop) (g : A -> B) (l : list A) :
  (forall c, In c l -> R c (g c)) -> Forall2 R l (map g l).
Proof.
  induction l as [|x l IH]; intros H; cbn [map]; constructor.
  - apply H. left. reflexivity.
  - apply IH. intros c Hc. apply H. right. exact Hc.
Qed.

(** Cleaning a complete well-formed table changes nothing. *)
Lemma frame_dropna_complete (d : DataFrame) :
  well_formed (TFrame d) -> complete d -> frame_dropna d = d.
Proof.
  intros Hwf Hcomplete. cbn [well_formed] in Hwf. rewrite Forall_forall in Hwf.
  assert (Hmask : Forall (fun b => b = true) (row_mask d)).
  { unfold row_mask. apply Forall_forall. intros b Hb.
    apply in_map_iff in Hb. destruct Hb as [i [<- Hi]].
    apply in_seq in Hi. apply forallb_forall. intros c Hc.
    pose proof (Hcomplete c Hc) as Hnotna. rewrite Forall_forall in Hnotna.
    apply Hnotna. apply nth_In. rewrite (Hwf c Hc). lia. }
  unfold frame_dropna. destruct d as [idx cols]. cbn [df_index df_columns] in *.
  f_equal.
  - apply select_all; [exact Hmask|]. rewrite row_mask_length. cbn [df_index]. lia.
  - rewrite <- (map_id cols) at 2. apply map_ext_in. intros [lbl col] Hc.
    cbn [fst snd]. f_equal. apply select_all; [exact Hmask|].
    rewrite row_mask_length. cbn [df_index]. specialize (Hwf _ Hc).
    cbn [snd] in Hwf. lia.
Qed.

Section ColumnAlone.

Variable pow : float -> float -> float.
Variable np_sum : list float -> float.
Variable ppa_frequency : TimeSeriesData -> result (option string).

(** On a complete well-formed table, the figure of each column is the
    figure of that column taken alone as a Series. *)
Lemma annualized_returns_column_alone (d : DataFrame) (f : string)
  (geometric : bool) (v : list (label * float)) :
  well_formed (TFrame d) -> complete d ->
  annualized_returns pow np_sum ppa_frequency (TFrame d) (Some f) geometric
  = OK (APerColumn v) ->
  Forall2
    (fun c e =>
       fst e = fst c
       /\ annualized_returns pow np_sum ppa_frequency (TSeries (column_series d c))
            (Some f) geometric
          = OK (AScalar (snd e)))
    (df_columns d) v.
Proof.
  intros Hwf Hcomplete Hrun.
  assert (Hcolumn : forall c, In c (df_columns d) ->
             dropna (TSeries (column_series d c)) = TSeries (column_series d c)
             /\ s_values (column_series d c) = snd c
             /\ len (TSeries (column_series d c)) = len (TFrame d)).
  { intros c Hc. cbn [well_formed] in Hwf. rewrite Forall_forall in Hwf.
    pose proof (Hwf c Hc) as Hlen.
    assert (Hvalues : s_values (column_series d c) = snd c).
    { unfold s_values, column_series. cbn [s_rows].
      apply map_snd_combine. symmetry. exact Hlen. }
    split; [|split; [exact Hvalues|]].
    - cbn [dropna]. f_equal. unfold series_dropna.
      destruct (column_series d c) as [nm rows] eqn:Ecol. cbn [s_name s_rows].
      f_equal. apply filter_all. apply Forall_forall. intros [t x] Hrow.
      cbn [snd]. pose proof (Hcomplete c Hc) as Hnotna.
      rewrite Forall_forall in Hnotna. apply Hnotna.
      rewrite <- Hvalues. unfold s_values. cbn [s_rows].
      apply (in_map snd) in Hrow. exact Hrow.
    - unfold len, index, s_index, column_series. cbn [s_rows].
      rewrite map_fst_combine by (symmetry; exact Hlen). reflexivity. }
  unfold annualized_returns, to_time_series in *. cbn [dropna bind] in Hrun.
  rewrite (frame_dropna_complete d Hwf Hcomplete) in Hrun.
  cbn [bind]. destruct (freq_to_scale (Some f)) as [scale|e];
    cbn [bind] in *; [|discriminate Hrun].
  destruct geometric.
  - destruct (int_truediv scale (len (TFrame d))) as [e|err] eqn:Ediv;
      cbn [bind] in Hrun; [|discriminate Hrun].
    inversion Hrun; subst v. clear Hrun.
    apply forall2_map_right. intros c Hc.
    destruct (Hcolumn c Hc) as [Hdrop [Hvalues Hlen]].
    cbn [fst snd]. split; [reflexivity|].
    rewrite Hdrop, Hlen, Ediv. cbn [bind reduce]. rewrite Hvalues. reflexivity.
  - inversion Hrun; subst v. clear Hrun.
    apply forall2_map_right. intros c Hc.
    destruct (Hcolumn c Hc) as [Hdrop [Hvalues Hlen]].
    cbn [fst snd]. split; [reflexivity|].
    rewrite Hdrop. cbn [reduce]. rewrite Hvalues. reflexivity.
Qed.

End ColumnAlone.

End ExcessFacts.

(** ** Facts about the alignment of per-column figures *)

Section AlignFacts.

Lemma label_eqb_true (a b : label) : label_eqb a b = true <-> a = b.
Proof.
  destruct a as [i|s], b as [j|t]; cbn [label_eqb];
    [rewrite Z.eqb_eq | | | rewrite String.eqb_eq];
    split; intros H; try discriminate; congruence.
Qed.

Lemma label_eqb_same (a : label) : label_eqb a a = true.
Proof. apply label_eqb_true. reflexivity. Qed.

Lemma label_eqb_swap (a b : label) : label_eqb a b = label_eqb b a.
Proof.
  destruct (label_eqb a b) eqn:E, (label_eqb b a) eqn:E'; try reflexivity.
  - apply label_eqb_true in E. subst. rewrite label_eqb_same in E'. discriminate.
  - apply label_eqb_true in E'. subst. rewrite label_eqb_same in E. discriminate.
Qed.

Lemma label_compare_eq (a b : label) : label_compare a b = Eq -> a = b.
Proof.
  destruct a as [i|s], b as [j|t]; cbn [label_compare]; intros H; try discriminate.
  - apply Z.compare_eq in H. congruence.
  - apply String.compare_eq_iff in H. congruence.
Qed.

Lemma label_compare_gt (a b : label) : label_compare a b = Gt -> label_before b a.
Proof.
  unfold label_before.
  destruct a as [i|s], b as [j|t]; cbn [label_compare]; intros H;
    try discriminate; try reflexivity.
  - apply Z.compare_gt_iff in H. apply Z.compare_lt_iff. exact H.
  - rewrite String.compare_antisym, H. reflexivity.
Qed.

Lemma label_before_trans (a b c : label) :
  label_before a b -> label_before b c -> label_before a c.
Proof.
  unfold label_before.
  destruct a as [i|s], b as [j|t], c as [k|u]; cbn [label_compare];
    intros H1 H2; try discriminate; try reflexivity.
  - change (i < j) in H1. change (j < k) in H2. change (i < k). lia.
  - apply OrderedTypeEx.String_as_OT.cmp_lt in H1.
    apply OrderedTypeEx.String_as_OT.cmp_lt in H2.
    apply OrderedTypeEx.String_as_OT.cmp_lt.
    exact (OrderedTypeEx.String_as_OT.lt_trans _ _ _ H1 H2).
Qed.

Lemma label_before_irrefl (a : label) : ~ label_before a a.
Proof.
  unfold label_before. destruct a as [i|s]; cbn [label_compare]; intros H.
  - rewrite Z.compare_refl in H. discriminate.
  - assert (E : String.compare s s = Eq) by (apply OrderedTypeEx.String_as_OT.cmp_eq; reflexivity).
    rewrite E in H. discriminate.
Qed.

Lemma insert_label_in (l : label) (acc : list label) (x : label) :
  In x (insert_label l acc) <-> x = l \/ In x acc.
Proof.
  induction acc as [|u r IH]; cbn [insert_label].
  - cbn [In]. intuition congruence.
  - destruct (label_compare l u) eqn:E.
    + apply label_compare_eq in E. subst u. cbn [In]. intuition congruence.
    + cbn [In]. intuition congruence.
    + cbn [In]. rewrite IH. intuition congruence.
Qed.

Lemma insert_label_sorted (l : label) (acc : list label) :
  StronglySorted label_before acc -> StronglySorted label_before (insert_label l acc).
Proof.
  induction 1 as [|u r Hr IH Hu]; cbn [insert_label].
  - constructor; constructor.
  - destruct (label_compare l u) eqn:E.
    + constructor; assumption.
    + constructor; [constructor; assumption|].
      constructor; [exact E|].
      rewrite Forall_forall in Hu |- *. intros x Hx.
      apply (label_before_trans l u x E). apply Hu. exact Hx.
    + constructor; [exact IH|].
      rewrite Forall_forall in Hu |- *. intros x Hx.
      apply insert_label_in in Hx. destruct Hx as [->|Hx].
      * apply label_compare_gt. exact E.
      * apply Hu. exact Hx.
Qed.

Lemma fold_insert_label_in (ls acc : list label) (x : label) :
  In x (fold_left (fun acc l => insert_label l acc) ls acc) <-> In x ls \/ In x acc.
Proof.
  revert acc; induction ls as [|l ls IH]; intros acc; cbn [fold_left].
  - cbn [In]. tauto.
  - rewrite IH, insert_label_in. cbn [In]. intuition congruence.
Qed.

Lemma fold_insert_label_sorted (ls acc : list label) :
  StronglySorted label_before acc ->
  StronglySorted label_before (fold_left (fun acc l => insert_label l acc) ls acc).
Proof.
  revert acc; induction ls as [|l ls IH]; intros acc Hs; cbn [fold_left]; [exact Hs|].
  apply IH. apply insert_label_sorted. exact Hs.
Qed.

Lemma sort_labels_in (ls : list label) (x : label) :
  In x (sort_labels ls) <-> In x ls.
Proof. unfold sort_labels. rewrite fold_insert_label_in. cbn [In]. tauto. Qed.

Lemma sort_labels_sorted (ls : list label) : StronglySorted label_before (sort_labels ls).
Proof. unfold sort_labels. apply fold_insert_label_sorted. constructor. Qed.

Lemma insert_label_last (l : label) (acc : list label) :
  Forall (fun u => label_before u l) acc -> insert_label l acc = acc ++ [l].
Proof.
  induction 1 as [|u r Hu _ IH]; [reflexivity|].
  cbn [insert_label app].
  destruct (label_compare l u) eqn:E.
  - apply label_compare_eq in E. subst u. destruct (label_before_irrefl l Hu).
  - destruct (label_before_irrefl l (label_before_trans l u l E Hu)).
  - rewrite IH. reflexivity.
Qed.

Lemma sorted_prefix_before {A : Type} (R : A -> A -> Prop) (acc l : list A) (t : A) :
  StronglySorted R (acc ++ t :: l) -> Forall (fun u => R u t) acc.
Proof.
  induction acc as [|u acc IH]; intros H; [constructor|].
  cbn [app] in H. inversion H as [|? ? Hs Hf]; subst.
  constructor; [|apply IH; exact Hs].
  rewrite Forall_forall in Hf. apply Hf. apply in_or_app. right. left. reflexivity.
Qed.

Lemma fold_insert_label_increasing (l acc : list label) :
  StronglySorted label_before (acc ++ l) ->
  fold_left (fun acc t => insert_label t acc) l acc = acc ++ l.
Proof.
  revert acc; induction l as [|t l IH]; intros acc Hs; cbn [fold_left].
  - rewrite app_nil_r. reflexivity.
  - rewrite (insert_label_last t acc (sorted_prefix_before _ acc l t Hs)).
    rewrite IH by (rewrite <- app_assoc; exact Hs).
    rewrite <- app_assoc. reflexivity.
Qed.

(** Sorting labels that are already in increasing order changes nothing. *)
Lemma sort_labels_increasing (l : list label) :
  StronglySorted label_before l -> sort_labels l = l.
Proof. intros Hs. unfold sort_labels. apply (fold_insert_label_increasing l []). exact Hs. Qed.

Lemma sorted_labels_nodup (l : list label) : StronglySorted label_before l -> NoDup l.
Proof.
  induction 1 as [|u r Hr IH Hu]; constructor; [|exact IH].
  intros Hin. rewrite Forall_forall in Hu.
  exact (label_before_irrefl u (Hu u Hin)).
Qed.

Lemma homogeneous_same_kind (ls : list label) :
  homogeneous ls = true <-> same_kind ls.
Proof.
  unfold homogeneous, same_kind. rewrite orb_true_iff, !forallb_forall. split.
  - intros [H|H]; [left|right]; intros l Hl; specialize (H l Hl);
      destruct l as [i|s]; try discriminate H; eexists; reflexivity.
  - intros [H|H]; [left|right]; intros l Hl; destruct (H l Hl) as [x ->]; reflexivity.
Qed.

Lemma same_kind_incl (ls ls' : list label) :
  incl ls' ls -> same_kind ls -> same_kind ls'.
Proof.
  intros Hincl [H|H]; [left|right]; intros l Hl; apply H; apply Hincl; exact Hl.
Qed.

Lemma label_before_lt (ls : list label) (a b : label) :
  same_kind ls -> In a ls -> In b ls -> label_before a b -> label_lt a b.
Proof.
  unfold label_before.
  intros [H|H] Ha Hb; destruct (H a Ha) as [x ->]; destruct (H b Hb) as [y ->];
    cbn [label_compare label_lt]; intros Hlt.
  - apply Z.compare_lt_iff. exact Hlt.
  - unfold String.ltb. rewrite Hlt. reflexivity.
Qed.

Lemma sorted_label_lt (ls : list label) :
  same_kind ls -> StronglySorted label_before ls -> StronglySorted label_lt ls.
Proof.
  intros Hk Hs. induction Hs as [|u r Hr IH Hu].
  - constructor.
  - constructor.
    + apply IH. apply (same_kind_incl (u :: r)); [|exact Hk].
      intros x Hx. right. exact Hx.
    + rewrite Forall_forall in Hu |- *. intros x Hx.
      apply (label_before_lt (u :: r)); [exact Hk|left; reflexivity|right; exact Hx|].
      apply Hu. exact Hx.
Qed.

Lemma has_label_in (ls : list label) (l : label) : has_label ls l = true <-> In l ls.
Proof.
  unfold has_label. rewrite existsb_exists. split.
  - intros [x [Hx E]]. apply label_eqb_true in E. subst. exact Hx.
  - intros H. exists l. split; [exact H|apply label_eqb_same].
Qed.

Lemma union_candidates_in (lv lw : list label) (l : label) :
  In l (lv ++ filter (fun l => negb (has_label lv l)) lw) <-> In l lv \/ In l lw.
Proof.
  rewrite in_app_iff, filter_In. split.
  - intros [H|[H _]]; [left|right]; exact H.
  - intros [H|H]; [left; exact H|].
    destruct (has_label lv l) eqn:E.
    + left. apply has_label_in. exact E.
    + right. split; [exact H|reflexivity].
Qed.

Lemma union_labels_in (lv lw : list label) (l : label) :
  In l (union_labels lv lw) <-> In l lv \/ In l lw.
Proof.
  unfold union_labels.
  destruct (homogeneous _); [rewrite sort_labels_in|]; apply union_candidates_in.
Qed.

Lemma union_labels_sorted (lv lw : list label) :
  same_kind (lv ++ lw) ->
  StronglySorted label_before (union_labels lv lw)
  /\ homogeneous (union_labels lv lw) = true.
Proof.
  intros Hk.
  assert (Hu : same_kind (lv ++ filter (fun l => negb (has_label lv l)) lw)).
  { apply (same_kind_incl (lv ++ lw)); [|exact Hk].
    intros x Hx. apply union_candidates_in in Hx. apply in_app_iff. exact Hx. }
  split.
  - unfold union_labels. apply homogeneous_same_kind in Hu. rewrite Hu.
    apply sort_labels_sorted.
  - apply homogeneous_same_kind. apply (same_kind_incl (lv ++ lw)); [|exact Hk].
    intros x Hx. apply union_labels_in in Hx. apply in_app_iff. exact Hx.
Qed.

(** When every label of the right is already on the left, and the left is
    in increasing order, the union is the left. *)
Lemma union_labels_absorb (lu lw : list label) :
  StronglySorted label_before lu -> homogeneous lu = true -> incl lw lu ->
  union_labels lu lw = lu.
Proof.
  intros Hs Hh Hincl. unfold union_labels.
  assert (E : filter (fun l => negb (has_label lu l)) lw = []).
  { induction lw as [|l lw IH]; [reflexivity|].
    cbn [filter].
    assert (Hl : has_label lu l = true)
      by (apply has_label_in; apply Hincl; left; reflexivity).
    rewrite Hl. cbn [negb]. apply IH. intros x Hx. apply Hincl. right. exact Hx. }
  rewrite E, app_nil_r, Hh. apply sort_labels_increasing. exact Hs.
Qed.

Lemma labels_eqb_iff (v w : list (label * float)) :
  labels_eqb v w = true <-> map fst v = map fst w.
Proof.
  unfold labels_eqb. rewrite andb_true_iff, Nat.eqb_eq.
  revert w; induction v as [|[l x] v IH]; intros [|[l' y] w]; cbn [map combine forallb List.length fst snd].
  - intuition.
  - split; [intros [H _]; discriminate H|discriminate].
  - split; [intros [H _]; discriminate H|discriminate].
  - rewrite andb_true_iff, label_eqb_true. specialize (IH w). split.
    + intros [Hlen [Hl Hall]]. f_equal; [exact Hl|].
      apply IH. split; [congruence|exact Hall].
    + intros H. injection H as Hl Hrest. apply IH in Hrest.
      destruct Hrest as [Hlen Hall]. repeat split; [congruence|exact Hl|exact Hall].
Qed.

Lemma col_get_value_at (v : list (label * float)) (l : label) :
  col_get v l = value_at v l.
Proof.
  unfold value_at. induction v as [|[l' x] v IH]; [reflexivity|].
  cbn [col_get find fst snd]. rewrite (label_eqb_swap l' l).
  destruct (label_eqb l l'); [reflexivity|exact IH].
Qed.

Lemma col_get_tabulate (F : label -> float) (lu : list label) (l : label) :
  In l lu -> col_get (map (fun l => (l, F l)) lu) l = F l.
Proof.
  induction lu as [|u lu IH]; intros Hin; [contradiction|].
  cbn [map col_get].
  destruct (label_eqb l u) eqn:E.
  - apply label_eqb_true in E. subst. reflexivity.
  - destruct Hin as [->|Hin]; [rewrite label_eqb_same in E; discriminate|].
    apply IH. exact Hin.
Qed.

Lemma col_get_map_values (g : float -> float) (w : list (label * float)) (l : label) :
  g nan = nan ->
  col_get (map (fun c => (fst c, g (snd c))) w) l = g (col_get w l).
Proof.
  intros Hg. induction w as [|[l' y] w IH]; cbn [map col_get fst snd].
  - symmetry. exact Hg.
  - destruct (label_eqb l l'); [reflexivity|exact IH].
Qed.

(** Entries that meet by position meet by label as well, when the labels
    are the same on both sides and none is repeated. *)
Lemma zip_by_label (f : float -> float -> float) (v w : list (label * float)) :
  map fst v = map fst w -> NoDup (map fst v) ->
  map (fun p => (fst (fst p), f (snd (fst p)) (snd (snd p)))) (combine v w)
  = map (fun l => (l, f (col_get v l) (col_get w l))) (map fst v).
Proof.
  revert w; induction v as [|[l x] v IH]; intros [|[l' y] w] Heq Hnd;
    try discriminate Heq; [reflexivity|].
  cbn [map fst] in Heq. injection Heq as Hl Hrest. subst l'.
  cbn [map fst] in Hnd. inversion Hnd as [|? ? Hnotin Hnd']; subst.
  cbn [combine map fst snd col_get]. rewrite label_eqb_same. f_equal.
  rewrite (IH w Hrest Hnd'). apply map_ext_in. intros u Hu.
  assert (E : label_eqb u l = false).
  { destruct (label_eqb u l) eqn:E; [|reflexivity].
    apply label_eqb_true in E. subst. contradiction. }
  rewrite E. reflexivity.
Qed.

Lemma align_same_labels (f : float -> float -> float) (v w : list (label * float)) :
  map fst v = map fst w ->
  align f v w
  = map (fun p => (fst (fst p), f (snd (fst p)) (snd (snd p)))) (combine v w).
Proof.
  intros H. unfold align. apply labels_eqb_iff in H. rewrite H. reflexivity.
Qed.

Lemma align_union (f : float -> float -> float) (v w : list (label * float)) :
  map fst v <> map fst w -> v <> [] -> w <> [] ->
  align f v w
  = map (fun l => (l, f (col_get v l) (col_get w l)))
        (union_labels (map fst v) (map fst w)).
Proof.
  intros Hne Hv Hw. unfold align.
  destruct (labels_eqb v w) eqn:E; [apply labels_eqb_iff in E; contradiction|].
  destruct v as [|c v]; [contradiction|]. destruct w as [|c' w]; [contradiction|].
  reflexivity.
Qed.

(** A figure laid over increasing labels meets a second one whose labels
    are all among them over the same labels. *)
Lemma align_onto (f : float -> float -> float) (F : label -> float)
      (lu : list label) (w : list (label * float)) :
  StronglySorted label_before lu -> homogeneous lu = true ->
  lu <> [] -> w <> [] -> incl (map fst w) lu ->
  align f (map (fun l => (l, F l)) lu) w
  = map (fun l => (l, f (F l) (col_get w l))) lu.
Proof.
  intros Hs Hh Hlu Hw Hincl.
  assert (Hfst : map fst (map (fun l => (l, F l)) lu) = lu).
  { rewrite map_map. cbn [fst]. apply map_id. }
  assert (Hfinal : map (fun l => (l, f (col_get (map (fun l => (l, F l)) lu) l) (col_get w l))) lu
                   = map (fun l => (l, f (F l) (col_get w l))) lu).
  { apply map_ext_in. intros l Hl. rewrite (col_get_tabulate F lu l Hl). reflexivity. }
  destruct (labels_eqb (map (fun l => (l, F l)) lu) w) eqn:E.
  - apply labels_eqb_iff in E.
    rewrite (align_same_labels f _ w E).
    rewrite (zip_by_label f _ w E)
      by (rewrite Hfst; apply sorted_labels_nodup; exact Hs).
    rewrite Hfst. exact Hfinal.
  - rewrite align_union.
    + rewrite Hfst, (union_labels_absorb lu (map fst w) Hs Hh Hincl). exact Hfinal.
    + intros Heq. apply labels_eqb_iff in Heq. rewrite Heq in E. discriminate.
    + destruct lu; [contradiction|discriminate].
    + exact Hw.
Qed.

(** Two per-column figures with different labels: the excess return is laid
    over the union of the labels. *)
Lemma excess_of_union (geometric : bool) (v w : list (label * float)) :
  same_kind (map fst v ++ map fst w) ->
  map fst v <> map fst w -> v <> [] -> w <> [] ->
  excess_of geometric (APerColumn v) (APerColumn w)
  = APerColumn (map (fun l => (l, excess_value geometric (value_at v l) (value_at w l)))
                    (union_labels (map fst v) (map fst w))).
Proof.
  intros Hk Hne Hv Hw.
  destruct (union_labels_sorted _ _ Hk) as [Hs Hh].
  assert (Hsub : ann_sub (APerColumn v) (APerColumn w)
                 = APerColumn (map (fun l => (l, (value_at v l - value_at w l)%float))
                                   (union_labels (map fst v) (map fst w)))).
  { unfold ann_sub, ann_binop. rewrite (align_union _ v w Hne Hv Hw). f_equal.
    apply map_ext. intros l. rewrite !col_get_value_at. reflexivity. }
  unfold excess_of. destruct geometric; [|exact Hsub].
  rewrite Hsub. unfold ann_add, ann_div, ann_binop.
  rewrite (align_onto PrimFloat.div (fun l => (value_at v l - value_at w l)%float)).
  - f_equal. apply map_ext. intros l.
    rewrite (col_get_map_values (fun y => (1 + y)%float) w l eq_refl).
    rewrite col_get_value_at. reflexivity.
  - exact Hs.
  - exact Hh.
  - destruct v as [|[l x] v]; [contradiction|].
    intros E. assert (Hin : In l (union_labels (map fst ((l, x) :: v)) (map fst w)))
      by (apply union_labels_in; left; left; reflexivity).
    rewrite E in Hin. contradiction.
  - destruct w; [contradiction|discriminate].
  - intros l Hl. rewrite map_map in Hl. cbn [fst] in Hl.
    apply union_labels_in. right. exact Hl.
Qed.

(** Two per-column figures with the same labels meet by position. *)
Lemma excess_of_same_labels (geometric : bool) (v w : list (label * float)) :
  map fst v = map fst w ->
  excess_of geometric (APerColumn v) (APerColumn w)
  = APerColumn (map (fun p => (fst (fst p),
                               excess_value geometric (snd (fst p)) (snd (snd p))))
                    (combine v w)).
Proof.
  intros Heq.
  assert (Hsub : ann_sub (APerColumn v) (APerColumn w)
                 = APerColumn (map (fun p => (fst (fst p), (snd (fst p) - snd (snd p))%float))
                                   (combine v w))).
  { unfold ann_sub, ann_binop. rewrite (align_same_labels _ v w Heq). reflexivity. }
  unfold excess_of. destruct geometric; [|exact Hsub].
  rewrite Hsub. unfold ann_add, ann_div, ann_binop. rewrite align_same_labels.
  - f_equal. clear Hsub. revert w Heq.
    induction v as [|[l x] v IH]; intros [|[l' y] w] Heq; try discriminate Heq;
      [reflexivity|].
    cbn [map combine fst snd]. f_equal.
    apply IH. cbn [map] in Heq. injection Heq as _ Hrest. exact Hrest.
  - rewrite !map_map. cbn [fst]. clear Hsub. revert w Heq.
    induction v as [|[l x] v IH]; intros [|[l' y] w] Heq; try discriminate Heq;
      [reflexivity|].
    cbn [map combine fst snd]. cbn [map fst] in Heq. injection Heq as Hl Hrest.
    f_equal; [exact Hl|apply IH; exact Hrest].
Qed.

End AlignFacts.

Section ExcessClaims.

Variable pow : float -> float -> float.
Variable np_sum : list float -> float.
Variable ppa_frequency : TimeSeriesData -> result (option string).

(** The earliest [n] clean observations annualize geometrically over
    exactly [n] periods. *)
Lemma annualized_earliest (r : TimeSeriesData) (n : Z) (f : string) (scale : Z) :
  well_formed r ->
  0 <= n <= len (dropna r) -> n <> 0 ->
  freq_to_scale (Some f) = OK scale ->
  annualized_returns pow np_sum ppa_frequency (earliest n r) (Some f) true
  = OK (reduce (geometric_annual pow scale n) (earliest n r)).
Proof.
  intros Hwf Hn Hn0 Hscale. unfold annualized_returns, to_time_series.
  rewrite (dropna_earliest n r Hwf). cbn [bind]. rewrite Hscale. cbn [bind].
  unfold earliest at 1. rewrite (len_iloc_head n (dropna r) Hn).
  unfold int_truediv. destruct (Z.eqb_spec n 0) as [E|_]; [contradiction|].
  reflexivity.
Qed.

Lemma comparable_dropna (ra rb : TimeSeriesData) :
  comparable ra rb -> comparable (dropna ra) (dropna rb).
Proof.
  destruct ra as [sa|da], rb as [sb|db]; cbn [comparable dropna]; try exact id.
  unfold frame_dropna. cbn [df_columns]. rewrite !length_map. exact id.
Qed.

Lemma zip_maps {A B C D : Type} (f1 : A -> B) (f2 : A -> C) (h : B * C -> D)
      (l : list A) :
  map h (combine (map f1 l) (map f2 l)) = map (fun c => h (f1 c, f2 c)) l.
Proof. induction l as [|x l IH]; [reflexivity|]. cbn [map combine]. rewrite IH. reflexivity. Qed.

(** C6.  [excess_returns] drops the missing observations of both inputs and
    keeps the earliest n = min(len_a, len_b) observations of each by
    position; it annualizes each side geometrically over n periods whatever
    the geometric flag is (one figure for a Series, one figure per column
    for a table), and returns (Ra - Rb) / (1 + Rb) when the flag is true and
    Ra - Rb when it is false.  A single figure meets every column of a
    per-column result; two per-column results with the same labels meet
    column by column; two per-column results with different labels, none of
    them repeated and all of one kind, meet label by label over the union of
    the labels in increasing order, a label on one side only giving a
    missing value.  With Ra = 0.10 and Rb = 0.05 the geometric figure is
    0.05 / 1.05, about 0.047619. *)
Theorem excess_returns_formula :
  (forall (ra rb : TimeSeriesData) (freq : option string) (geometric : bool)
          (f : string) (scale : Z),
      let n := Z.min (len (dropna ra)) (len (dropna rb)) in
      well_formed ra -> well_formed rb -> comparable ra rb ->
      _determine_frequency ppa_frequency (earliest n ra) (earliest n rb) freq = OK f ->
      freq_to_scale (Some f) = OK scale ->
      n <> 0 ->
      excess_returns pow np_sum ppa_frequency ra rb freq geometric
      = OK (excess_of geometric
              (reduce (geometric_annual pow scale n) (earliest n ra))
              (reduce (geometric_annual pow scale n) (earliest n rb))))
  /\ (forall (s : Series) (d : DataFrame),
         len (dropna (TSeries s)) = Z.of_nat (List.length (observed s))
         /\ len (dropna (TFrame d)) = complete_rows d)
  /\ (forall (g : list float -> float) (s : Series) (k : nat),
         reduce g (earliest (Z.of_nat k) (TSeries s))
         = AScalar (g (firstn k (observed s))))
  /\ (forall (g : list float -> float) (d : DataFrame) (k : nat),
         reduce g (earliest (Z.of_nat k) (TFrame d))
         = APerColumn (map (fun c => (fst c, g (firstn k (observed_in d (snd c)))))
                           (df_columns d)))
  /\ (forall (geometric : bool) (x y : float),
         excess_of geometric (AScalar x) (AScalar y)
         = AScalar (excess_value geometric x y))
  /\ (forall (geometric : bool) (v : list (label * float)) (y : float),
         excess_of geometric (APerColumn v) (AScalar y)
         = APerColumn (map (fun c => (fst c, excess_value geometric (snd c) y)) v))
  /\ (forall (geometric : bool) (x : float) (w : list (label * float)),
         excess_of geometric (AScalar x) (APerColumn w)
         = APerColumn (map (fun c => (fst c, excess_value geometric x (snd c))) w))
  /\ (forall (geometric : bool) (v w : list (label * float)),
         map fst v = map fst w ->
         excess_of geometric (APerColumn v) (APerColumn w)
         = APerColumn (map (fun p => (fst (fst p),
                                      excess_value geometric (snd (fst p)) (snd (snd p))))
                           (combine v w)))
  /\ (forall (geometric : bool) (v w : list (label * float)),
         NoDup (map fst v) -> NoDup (map fst w) ->
         same_kind (map fst v ++ map fst w) ->
         map fst v <> map fst w -> v <> [] -> w <> [] ->
         exists labels : list label,
           StronglySorted label_lt labels
           /\ (forall l, In l labels <-> In l (map fst v) \/ In l (map fst w))
           /\ excess_of geometric (APerColumn v) (APerColumn w)
              = APerColumn (map (fun l => (l, excess_value geometric
                                                (value_at v l) (value_at w l)))
                                labels))
  /\ (excess_value true 0.10 0.05 = 0.047619047619047616%float
      /\ (abs (0.047619047619047616 - 0.047619) <? 0.000001)%float = true).
Proof.
  split; [|split; [|split; [|split; [|split; [|split; [|split; [|split; [|split]]]]]]]].
  - intros ra rb freq geometric f scale n Hwa Hwb Hcmp Hfreq Hscale Hn0.
    assert (Hna : 0 <= n <= len (dropna ra))
      by (pose proof (len_nonneg (dropna ra)); pose proof (len_nonneg (dropna rb)); lia).
    assert (Hnb : 0 <= n <= len (dropna rb))
      by (pose proof (len_nonneg (dropna ra)); pose proof (len_nonneg (dropna rb)); lia).
    unfold excess_returns, to_time_series. fold n.
    rewrite (shape_test_passes n (dropna ra) (dropna rb) Hna Hnb
               (comparable_dropna ra rb Hcmp)).
    fold (earliest n ra). fold (earliest n rb).
    rewrite Hfreq. cbn [bind].
    rewrite (annualized_earliest ra n f scale Hwa Hna Hn0 Hscale). cbn [bind].
    rewrite (annualized_earliest rb n f scale Hwb Hnb Hn0 Hscale). cbn [bind].
    reflexivity.
  - intros s d. split.
    + cbn [dropna]. rewrite len_series, series_dropna_values. reflexivity.
    + cbn [dropna]. apply len_frame_dropna.
  - intros g s k. unfold earliest. cbn [dropna iloc_head reduce].
    rewrite Nat2Z.id. unfold s_values at 1. cbn [s_rows].
    rewrite <- firstn_map. fold (s_values (series_dropna s)).
    rewrite series_dropna_values. reflexivity.
  - intros g d k. unfold earliest. cbn [dropna iloc_head reduce df_columns].
    rewrite Nat2Z.id. unfold frame_dropna. cbn [df_columns].
    rewrite !map_map. f_equal. apply map_ext. intros c. cbn [fst snd].
    rewrite select_observed_in. reflexivity.
  - intros geometric x y. destruct geometric; reflexivity.
  - intros geometric v y. destruct geometric; cbn [excess_of excess_value].
    + unfold ann_div, ann_sub, ann_add, ann_binop. rewrite map_map. reflexivity.
    + reflexivity.
  - intros geometric x w. destruct geometric; cbn [excess_of excess_value].
    + unfold ann_div, ann_sub, ann_add, ann_binop.
      rewrite align_same_labels by (rewrite !map_map; reflexivity).
      f_equal.
      apply (zip_maps (fun c => (fst c, (x - snd c)%float))
                      (fun c => (fst c, (1 + snd c)%float))
                      (fun p => (fst (fst p), (snd (fst p) / snd (snd p))%float))).
    + reflexivity.
  - intros geometric v w Heq. apply excess_of_same_labels. exact Heq.
  - intros geometric v w _ _ Hk Hne Hv Hw.
    exists (union_labels (map fst v) (map fst w)).
    split; [|split].
    + apply sorted_label_lt.
      * apply (same_kind_incl (map fst v ++ map fst w)); [|exact Hk].
        intros x Hx. apply union_labels_in in Hx. apply in_app_iff. exact Hx.
      * apply (union_labels_sorted _ _ Hk).
    + intros l. apply union_labels_in.
    + apply excess_of_union; assumption.
  - split; vm_compute; reflexivity.
Qed.

End ExcessClaims.

Section ExcessSamples.

Lemma excess_returns_formula_witness :
  excess_returns pow_whole sum_in_order frequency_or_none
    sample_monthly (TSeries (constant_series (every 30 15) 0.005))
    (Some "monthly") true
  = OK (excess_of true
          (reduce (geometric_annual pow_whole 12 12) (earliest 12 sample_monthly))
          (reduce (geometric_annual pow_whole 12 12)
             (earliest 12 (TSeries (constant_series (every 30 15) 0.005)))))
  /\ excess_of true (APerColumn [(LInt 0, 0.10%float); (LInt 1, 0.20%float)])
                    (APerColumn [(LInt 0, 0.05%float); (LInt 1, 0.10%float)])
     = APerColumn [(LInt 0, excess_value true 0.10 0.05);
                   (LInt 1, excess_value true 0.20 0.10)]
  /\ exists labels : list label,
       StronglySorted label_lt labels
       /\ (forall l, In l labels <-> In l [LInt 7; LInt 5] \/ In l [LInt 5; LInt 9])
       /\ excess_of true (APerColumn [(LInt 7, 0.10%float); (LInt 5, 0.20%float)])
                         (APerColumn [(LInt 5, 0.05%float); (LInt 9, 0.10%float)])
          = APerColumn
              (map (fun l => (l, excess_value true
                                   (value_at [(LInt 7, 0.10%float); (LInt 5, 0.20%float)] l)
                                   (value_at [(LInt 5, 0.05%float); (LInt 9, 0.10%float)] l)))
                   labels).
Proof.
  pose proof (excess_returns_formula pow_whole sum_in_order frequency_or_none) as H.
  destruct H as [Hgeneral [_ [_ [_ [_ [_ [_ [Hsame Hunion]]]]]]]].
  destruct Hunion as [Hunion _].
  split; [|split].
  - apply (Hgeneral sample_monthly (TSeries (constant_series (every 30 15) 0.005))
             (Some "monthly") true "monthly" 12 I I I eq_refl eq_refl).
    vm_compute. discriminate.
  - apply (Hsame true [(LInt 0, 0.10%float); (LInt 1, 0.20%float)]
                      [(LInt 0, 0.05%float); (LInt 1, 0.10%float)]).
    reflexivity.
  - apply (Hunion true [(LInt 7, 0.10%float); (LInt 5, 0.20%float)]
                       [(LInt 5, 0.05%float); (LInt 9, 0.10%float)]).
    + cbn [map fst]. constructor; [|constructor; [|constructor]].
      * intros [E|[]]. discriminate E.
      * intros [].
    + cbn [map fst]. constructor; [|constructor; [|constructor]].
      * intros [E|[]]. discriminate E.
      * intros [].
    + left. cbn [map fst app]. intros l Hl.
      repeat (destruct Hl as [<-|Hl]; [eexists; reflexivity|]). destruct Hl.
    + discriminate.
    + discriminate.
    + discriminate.
Defined.

End ExcessSamples.

(** ** Joins on timestamps *)

Section JoinFacts.

Lemma insert_sorted_in (t x : timestamp) (l : list timestamp) :
  In x (insert_sorted t l) <-> x = t \/ In x l.
Proof.
  induction l as [|u r IH]; cbn [insert_sorted In].
  - intuition.
  - destruct (Z.ltb_spec t u); [cbn [In]; intuition|].
    destruct (Z.eqb_spec t u); [subst; cbn [In]; intuition|].
    cbn [In]. rewrite IH. intuition.
Qed.

Lemma insert_sorted_sorted (t : timestamp) (l : list timestamp) :
  StronglySorted Z.lt l -> StronglySorted Z.lt (insert_sorted t l).
Proof.
  induction 1 as [|u r Hr IH Hu]; cbn [insert_sorted].
  - repeat constructor.
  - destruct (Z.ltb_spec t u) as [Hlt|Hge].
    + constructor; [constructor; assumption|].
      constructor; [exact Hlt|].
      rewrite Forall_forall in *. intros y Hy. specialize (Hu y Hy). lia.
    + destruct (Z.eqb_spec t u) as [Heq|Hne]; [constructor; assumption|].
      constructor; [exact IH|].
      rewrite Forall_forall in *. intros y Hy.
      apply insert_sorted_in in Hy. destruct Hy as [->|Hy]; [lia|auto].
Qed.

Lemma fold_insert_in (l acc : list timestamp) (x : timestamp) :
  In x (fold_left (fun acc t => insert_sorted t acc) l acc) <-> In x l \/ In x acc.
Proof.
  revert acc; induction l as [|t l IH]; intros acc; cbn [fold_left In].
  - intuition.
  - rewrite IH, insert_sorted_in. intuition.
Qed.

Lemma fold_insert_sorted (l acc : list timestamp) :
  StronglySorted Z.lt acc ->
  StronglySorted Z.lt (fold_left (fun acc t => insert_sorted t acc) l acc).
Proof.
  revert acc; induction l as [|t l IH]; intros acc Hacc; cbn [fold_left].
  - exact Hacc.
  - apply IH. apply insert_sorted_sorted. exact Hacc.
Qed.

(** The index of an outer join holds the timestamps of either side, in
    increasing order and once each. *)
Lemma index_union_in (ia ib : list timestamp) (t : timestamp) :
  In t (index_union ia ib) <-> In t ia \/ In t ib.
Proof.
  unfold index_union. rewrite fold_insert_in, in_app_iff. cbn [In]. intuition.
Qed.

Lemma index_union_sorted (ia ib : list timestamp) :
  StronglySorted Z.lt (index_union ia ib).
Proof. unfold index_union. apply fold_insert_sorted. constructor. Qed.

Lemma insert_sorted_last (t : timestamp) (l : list timestamp) :
  Forall (fun u => u < t) l -> insert_sorted t l = l ++ [t].
Proof.
  induction 1 as [|u r Hu _ IH]; [reflexivity|].
  cbn [insert_sorted].
  destruct (Z.ltb_spec t u); [lia|].
  destruct (Z.eqb_spec t u); [lia|].
  rewrite IH. reflexivity.
Qed.

Lemma insert_sorted_present (t : timestamp) (l : list timestamp) :
  StronglySorted Z.lt l -> In t l -> insert_sorted t l = l.
Proof.
  induction 1 as [|u r Hr IH Hu]; intros Hin; [contradiction|].
  cbn [insert_sorted]. rewrite Forall_forall in Hu.
  destruct (Z.ltb_spec t u) as [Hlt|Hge].
  - destruct Hin as [->|Hin]; [lia|]. specialize (Hu t Hin). lia.
  - destruct (Z.eqb_spec t u) as [Heq|Hne]; [reflexivity|].
    destruct Hin as [->|Hin]; [contradiction|].
    rewrite IH by exact Hin. reflexivity.
Qed.

Lemma sorted_app_cons (acc l : list timestamp) (t : timestamp) :
  StronglySorted Z.lt (acc ++ t :: l) ->
  Forall (fun u => u < t) acc /\ StronglySorted Z.lt ((acc ++ [t]) ++ l).
Proof.
  intros H. split.
  - induction acc as [|u acc IH]; [constructor|].
    cbn [app] in H. inversion H as [|? ? Hs Hf]; subst.
    constructor; [|apply IH; exact Hs].
    rewrite Forall_forall in Hf. apply Hf. apply in_or_app. right. left. reflexivity.
  - rewrite <- app_assoc. exact H.
Qed.

(** Inserting the timestamps of an increasing index one after the other
    rebuilds the index, and inserting them again changes nothing. *)
Lemma fold_insert_increasing (l acc : list timestamp) :
  StronglySorted Z.lt (acc ++ l) ->
  fold_left (fun acc t => insert_sorted t acc) l acc = acc ++ l.
Proof.
  revert acc; induction l as [|t l IH]; intros acc Hs; cbn [fold_left].
  - rewrite app_nil_r. reflexivity.
  - destruct (sorted_app_cons acc l t Hs) as [Hlt Hs'].
    rewrite (insert_sorted_last t acc Hlt), (IH _ Hs'), <- app_assoc.
    reflexivity.
Qed.

Lemma fold_insert_present (l acc : list timestamp) :
  StronglySorted Z.lt acc -> incl l acc ->
  fold_left (fun acc t => insert_sorted t acc) l acc = acc.
Proof.
  intros Hs. induction l as [|t l IH]; intros Hincl; cbn [fold_left]; [reflexivity|].
  rewrite (insert_sorted_present t acc Hs) by (apply Hincl; left; reflexivity).
  apply IH. intros x Hx. apply Hincl. right. exact Hx.
Qed.

Lemma index_union_same (l : list timestamp) :
  StronglySorted Z.lt l -> index_union l l = l.
Proof.
  intros Hs. unfold index_union. rewrite fold_left_app.
  rewrite (fold_insert_increasing l []) by exact Hs. cbn [app].
  apply fold_insert_present; [exact Hs|apply incl_refl].
Qed.

Lemma index_union_nil_l (l : list timestamp) :
  StronglySorted Z.lt l -> index_union [] l = l.
Proof.
  intros Hs. unfold index_union. cbn [app].
  apply (fold_insert_increasing l []). exact Hs.
Qed.

(** Looking a timestamp up in a Series. *)
Lemma row_get_absent (rows : list (timestamp * float)) (t : timestamp) :
  ~ In t (map fst rows) -> row_get rows t = nan.
Proof.
  induction rows as [|[u v] r IH]; intros Hnot; [reflexivity|].
  cbn [row_get]. cbn [map fst In] in Hnot.
  destruct (Z.eqb_spec t u) as [->|_]; [tauto|]. apply IH. tauto.
Qed.

Lemma row_get_combine (f : timestamp -> float) (idx : list timestamp) (t : timestamp) :
  In t idx -> row_get (combine idx (map f idx)) t = f t.
Proof.
  induction idx as [|u r IH]; intros Hin; [contradiction|].
  cbn [map combine row_get].
  destruct (Z.eqb_spec t u) as [->|Hne]; [reflexivity|].
  destruct Hin as [->|Hin]; [contradiction|]. apply IH. exact Hin.
Qed.

(** Re-indexing a re-indexed Series on a larger index is re-indexing the
    Series itself. *)
Lemma reindex_reindex (idx idx' : list timestamp) (rel : list (timestamp * float)) :
  incl (map fst rel) idx ->
  reindex idx' (combine idx (reindex idx rel)) = reindex idx' rel.
Proof.
  intros Hincl. unfold reindex. apply map_ext. intros t.
  destruct (in_dec Z.eq_dec t idx) as [Hin|Hnot].
  - apply row_get_combine. exact Hin.
  - rewrite (row_get_absent rel t) by (intros H; apply Hnot, Hincl, H).
    apply row_get_absent. intros H. apply Hnot.
    rewrite map_fst_combine in H by (rewrite length_map; reflexivity). exact H.
Qed.

(** On an index without repetition, re-indexing a Series on its own index
    gives back its values. *)
Lemma reindex_own (rel : list (timestamp * float)) :
  NoDup (map fst rel) -> reindex (map fst rel) rel = map snd rel.
Proof.
  unfold reindex. induction rel as [|[u v] r IH]; intros Hnd; [reflexivity|].
  cbn [map fst snd] in *. inversion Hnd as [|? ? Hnot Hnd']; subst.
  cbn [row_get]. rewrite Z.eqb_refl. f_equal.
  rewrite <- (IH Hnd'). apply map_ext_in. intros t Ht.
  cbn [row_get]. destruct (Z.eqb_spec t u) as [->|_]; [contradiction|reflexivity].
Qed.

Lemma sorted_nodup (l : list timestamp) : StronglySorted Z.lt l -> NoDup l.
Proof.
  induction 1 as [|u r Hr IH Hu]; constructor; [|exact IH].
  intros Hin. rewrite Forall_forall in Hu. specialize (Hu u Hin). lia.
Qed.

Lemma sorted_filter (f : timestamp -> bool) (l : list timestamp) :
  StronglySorted Z.lt l -> StronglySorted Z.lt (filter f l).
Proof.
  induction 1 as [|u r Hr IH Hu]; cbn [filter]; [constructor|].
  destruct (f u); [|exact IH]. constructor; [exact IH|].
  rewrite Forall_forall in *. intros y Hy. apply filter_In in Hy. apply Hu. tauto.
Qed.

End JoinFacts.

(** ** Relative returns *)

Section RelativeFacts.

Lemma combine_nth_error {A B : Type} (l : list A) (l' : list B) (i : nat) (x : A) (y : B) :
  nth_error l i = Some x -> nth_error l' i = Some y ->
  nth_error (combine l l') i = Some (x, y).
Proof.
  revert l l'; induction i as [|i IH]; intros [|u l] [|v l'] Hx Hy;
    cbn [nth_error combine] in *; try discriminate.
  - congruence.
  - apply IH; assumption.
Qed.

Lemma cumprod_from_nth_error (l : list float) (acc : float) (i : nat) (x : float) :
  nth_error l i = Some x ->
  nth_error (cumprod_from acc l) i
  = Some (fold_left PrimFloat.mul (firstn (S i) l) acc).
Proof.
  revert acc i; induction l as [|u l IH]; intros acc [|i] Hx;
    cbn [nth_error] in Hx; try discriminate.
  - reflexivity.
  - cbn [cumprod_from nth_error]. rewrite (IH _ i Hx). reflexivity.
Qed.

(** The running products of [cumprod], position by position. *)
Lemma cumprod_nth_error (l : list float) (i : nat) (x : float) :
  nth_error l i = Some x ->
  nth_error (cumprod l) i = Some (running_product (firstn (S i) l)).
Proof.
  destruct l as [|u l]; intros Hx; [destruct i; discriminate Hx|].
  destruct i as [|i]; [reflexivity|].
  cbn [nth_error] in Hx. cbn [cumprod nth_error].
  rewrite (cumprod_from_nth_error l u i x Hx). reflexivity.
Qed.

Lemma cumprod_from_length (l : list float) (acc : float) :
  List.length (cumprod_from acc l) = List.length l.
Proof.
  revert acc; induction l as [|u l IH]; intros acc; [reflexivity|].
  cbn [cumprod_from List.length]. rewrite IH. reflexivity.
Qed.

Lemma cumprod_length (l : list float) : List.length (cumprod l) = List.length l.
Proof.
  destruct l as [|u l]; [reflexivity|].
  cbn [cumprod List.length]. rewrite cumprod_from_length. reflexivity.
Qed.

(** One ratio per clean row of the join. *)
Lemma ratio_rows_length (a b : Series) :
  List.length (ratio_rows a b) = List.length (joined a b).
Proof.
  unfold ratio_rows. fold (joined a b).
  rewrite length_combine, !length_map, length_combine, !cumprod_length, !length_map.
  lia.
Qed.

Lemma ratio_rows_index (a b : Series) :
  map fst (ratio_rows a b) = map fst (joined a b).
Proof.
  unfold ratio_rows. fold (joined a b).
  apply map_fst_combine.
  rewrite !length_map, length_combine, !cumprod_length, !length_map. lia.
Qed.

(** The ratio at each clean row: growth of the asset over growth of the
    benchmark, both up to that row. *)
Lemma ratio_rows_nth (a b : Series) (i : nat) (t : timestamp) (x y : float) :
  nth_error (joined a b) i = Some (t, (x, y)) ->
  nth_error (ratio_rows a b) i
  = Some (t, (growth (firstn (S i) (asset_side (joined a b)))
              / growth (firstn (S i) (benchmark_side (joined a b))))%float).
Proof.
  intros Hrow. unfold ratio_rows. fold (joined a b).
  apply combine_nth_error.
  - rewrite nth_error_map, Hrow. reflexivity.
  - rewrite nth_error_map.
    rewrite (combine_nth_error _ _ i
               (running_product
                  (firstn (S i) (map (fun r => (fst (snd r) + 1)%float) (joined a b))))
               (running_product
                  (firstn (S i) (map (fun r => (snd (snd r) + 1)%float) (joined a b))))).
    + cbn [option_map fst snd]. unfold growth, asset_side, benchmark_side.
      rewrite !firstn_map, !map_map. reflexivity.
    + apply (cumprod_nth_error _ i (x + 1)%float).
      rewrite nth_error_map, Hrow. reflexivity.
    + apply (cumprod_nth_error _ i (y + 1)%float).
      rewrite nth_error_map, Hrow. reflexivity.
Qed.

(** The clean rows of the join: the timestamps of either side at which both
    sides hold a value, in increasing order. *)
Lemma joined_rows (a b : Series) (t : timestamp) (x y : float) :
  In (t, (x, y)) (joined a b) <->
  (In t (s_index a) \/ In t (s_index b))
  /\ x = row_get (s_rows a) t /\ y = row_get (s_rows b) t
  /\ notna x = true /\ notna y = true.
Proof.
  unfold joined, joined_dropna, outer_rows. rewrite filter_In, in_map_iff.
  cbn [fst snd]. rewrite andb_true_iff. split.
  - intros [[u [Heq Hu]] Hna]. inversion Heq; subst.
    apply index_union_in in Hu. unfold s_index. tauto.
  - intros [Hin [-> [-> Hna]]]. split; [|exact Hna].
    exists t. split; [reflexivity|]. apply index_union_in. exact Hin.
Qed.

Lemma joined_sorted (a b : Series) :
  StronglySorted Z.lt (map fst (joined a b)).
Proof.
  unfold joined, joined_dropna, outer_rows.
  set (idx := index_union (map fst (s_rows a)) (map fst (s_rows b))).
  assert (Hs : StronglySorted Z.lt idx) by apply index_union_sorted.
  induction Hs as [|u r Hr IH Hu]; cbn [map filter]; [constructor|].
  cbn [fst snd].
  destruct (notna (row_get (s_rows a) u) && notna (row_get (s_rows b) u));
    [|exact IH].
  cbn [map fst]. constructor; [exact IH|].
  rewrite Forall_forall in *. intros y Hy. apply in_map_iff in Hy.
  destruct Hy as [[t' v'] [<- Hy]]. apply filter_In in Hy. destruct Hy as [Hy _].
  apply in_map_iff in Hy. destruct Hy as [t'' [Heq Hy]]. inversion Heq; subst.
  cbn [fst]. apply Hu. exact Hy.
Qed.

End RelativeFacts.

Section RelativeTableFacts.


(** The two nested loops visit the pairs of [list_prod], in its order. *)
Lemma nested_fold {R A B : Type} (F : R -> A -> B -> R)
  (xs : list A) (ys : list B) (init : R) :
  fold_left (fun res x => fold_left (fun res y => F res x y) ys res) xs init
  = fold_left (fun res p => F res (fst p) (snd p)) (list_prod xs ys) init.
Proof.
  revert init; induction xs as [|x xs IH]; intros init; [reflexivity|].
  cbn [fold_left list_prod]. rewrite fold_left_app, IH. f_equal.
  clear IH. revert init. induction ys as [|y ys IHy]; intros init; [reflexivity|].
  cbn [map fold_left fst snd]. apply IHy.
Qed.

Lemma relative_table_fold (ra rb : DataFrame) (prefixes : string * string) :
  relative_table ra rb prefixes
  = merge_all
      (fun p => pair_label prefixes (fst (fst p)) (fst (snd p)))
      (fun p => pair_relative (snd (fst p)) (snd (snd p)))
      (column_pairs ra rb) (mkDataFrame [] []).
Proof.
  unfold relative_table, column_pairs.
  rewrite (nested_fold
             (fun res ia ib =>
                merge_column res (pair_label prefixes (fst ia) (fst ib))
                  (pair_relative (snd ia) (snd ib)))).
  reflexivity.
Qed.

Section MergeFold.

Context {X : Type}.
Variable name_of : X -> label.
Variable rows_of : X -> list (timestamp * float).

(** Every column of the merged table is the series it was built from,
    re-indexed on the final index, which holds every timestamp of every
    series. *)
Lemma merged_fold_values (items : list X) :
  forall (res : DataFrame) (done : list (list (timestamp * float))),
    map snd (df_columns res) = map (reindex (df_index res)) done ->
    Forall (fun rel => incl (map fst rel) (df_index res)) done ->
    map snd (df_columns (merged_all name_of rows_of items res))
    = map (reindex (df_index (merged_all name_of rows_of items res)))
          (done ++ map rows_of items)
    /\ Forall (fun rel => incl (map fst rel)
                             (df_index (merged_all name_of rows_of items res)))
              (done ++ map rows_of items).
Proof.
  induction items as [|p items IH]; intros res done Hvals Hincl.
  - cbn [map]. rewrite app_nil_r. split; assumption.
  - unfold merged_all. cbn [fold_left map].
    replace (done ++ rows_of p :: map rows_of items)
      with ((done ++ [rows_of p]) ++ map rows_of items)
      by (rewrite <- app_assoc; reflexivity).
    apply IH.
    + unfold merged_column. cbn [df_columns df_index].
      rewrite !map_app, !map_map. cbn [map fst snd]. f_equal.
      rewrite <- (map_map snd (fun v => reindex _ (combine (df_index res) v))).
      rewrite Hvals, map_map. apply map_ext_in. intros rel Hrel.
      apply reindex_reindex. rewrite Forall_forall in Hincl. exact (Hincl rel Hrel).
    + unfold merged_column. cbn [df_index]. apply Forall_app. split.
      * rewrite Forall_forall in *. intros rel Hrel t Ht.
        apply index_union_in. left. exact (Hincl rel Hrel t Ht).
      * constructor; [|constructor]. intros t Ht.
        apply index_union_in. right. exact Ht.
Qed.


End MergeFold.

Lemma combine_fst_snd {A B : Type} (l : list (A * B)) :
  combine (map fst l) (map snd l) = l.
Proof.
  induction l as [|[x y] l IH]; [reflexivity|].
  cbn [map combine fst snd]. rewrite IH. reflexivity.
Qed.

(** Two Series on the same increasing index that both start with a return
    of 0: the first ratio is 1.0. *)
Lemma ratio_rows_first (a b : Series) (t : timestamp)
  (rest_a rest_b : list (timestamp * float)) :
  s_rows a = (t, 0%float) :: rest_a ->
  s_rows b = (t, 0%float) :: rest_b ->
  s_index a = s_index b ->
  StronglySorted Z.lt (s_index a) ->
  exists rest, ratio_rows a b = (t, 1%float) :: rest.
Proof.
  intros Ha Hb Hidx Hsorted. unfold ratio_rows, joined, outer_rows.
  unfold s_index in Hidx, Hsorted. rewrite <- Hidx.
  rewrite (index_union_same _ Hsorted). rewrite Ha, Hb.
  cbn [map fst row_get]. rewrite Z.eqb_refl.
  unfold joined_dropna. cbn [filter fst snd].
  change (notna 0 && notna 0) with true. cbv iota.
  cbn [map fst snd cumprod combine].
  eexists. f_equal.
Qed.

End RelativeTableFacts.

(** ** The join by positions on indexes without repetition *)

Section JoinPositions.

Lemma map_flat_map {A B C : Type} (g : B -> C) (h : A -> list B) (l : list A) :
  map g (flat_map h l) = flat_map (fun x => map g (h x)) l.
Proof.
  induction l as [|x l IH]; [reflexivity|].
  cbn [flat_map]. rewrite map_app, IH. reflexivity.
Qed.

Lemma flat_map_single {A B : Type} (F : A -> B) (l : list A) :
  flat_map (fun x => [F x]) l = map F l.
Proof. induction l as [|x l IH]; [reflexivity|]. cbn [flat_map map app]. rewrite IH. reflexivity. Qed.

Lemma positions_absent (k : nat) (idx : list timestamp) (t : timestamp) :
  ~ In t idx -> positions_from k idx t = [].
Proof.
  revert k; induction idx as [|u r IH]; intros k Hnot; [reflexivity|].
  cbn [positions_from].
  destruct (Z.eqb_spec u t) as [->|_]; [exfalso; apply Hnot; left; reflexivity|].
  apply IH. intros H. apply Hnot. right. exact H.
Qed.

(** On an index without repetition a timestamp has one position at most,
    and the value taken there is the value of the Series at the timestamp. *)
Lemma take_positions (rows : list (timestamp * float)) (t : timestamp) :
  NoDup (map fst rows) ->
  forall pre : list float,
    map (take (pre ++ map snd rows))
        (or_missing (positions_from (List.length pre) (map fst rows) t))
    = [row_get rows t].
Proof.
  induction rows as [|[u v] r IH]; intros Hnd pre; [reflexivity|].
  cbn [map fst snd] in Hnd |- *. inversion Hnd as [|? ? Hnot Hnd']; subst.
  cbn [positions_from row_get].
  destruct (Z.eqb_spec u t) as [->|Hne].
  - rewrite Z.eqb_refl, (positions_absent _ _ t Hnot).
    cbn [or_missing map take]. rewrite nth_middle. reflexivity.
  - destruct (Z.eqb_spec t u) as [->|_]; [contradiction|].
    specialize (IH Hnd' (pre ++ [v])).
    rewrite length_app, Nat.add_1_r, <- app_assoc in IH. exact IH.
Qed.

Lemma map_single {A B : Type} (f : A -> B) (l : list A) (y : B) :
  map f l = [y] -> exists x, l = [x] /\ f x = y.
Proof.
  destruct l as [|x [|x' l]]; intros H; try discriminate H.
  cbn [map] in H. injection H as H. exists x. split; [reflexivity|exact H].
Qed.

Lemma join_row (a b : list (timestamp * float)) (t : timestamp) :
  NoDup (map fst a) -> NoDup (map fst b) ->
  map (fun r => (fst r, (take (map snd a) (fst (snd r)),
                         take (map snd b) (snd (snd r)))))
      (map (fun q => (t, q))
           (list_prod (or_missing (positions_from 0 (map fst a) t))
                      (or_missing (positions_from 0 (map fst b) t))))
  = [(t, (row_get a t, row_get b t))].
Proof.
  intros Ha Hb.
  destruct (map_single _ _ _ (take_positions a t Ha [])) as [x [Hx Hvx]].
  destruct (map_single _ _ _ (take_positions b t Hb [])) as [y [Hy Hvy]].
  cbn [List.length app] in Hx, Hy, Hvx, Hvy.
  rewrite Hx, Hy. cbn [list_prod map app fst snd]. rewrite Hvx, Hvy. reflexivity.
Qed.

Lemma enumerate_rows {X : Type} (G : timestamp -> float -> X)
      (rows : list (timestamp * float)) :
  NoDup (map fst rows) ->
  forall pre : list float,
    map (fun p => G (snd p) (take (pre ++ map snd rows) (Some (fst p))))
        (combine (seq (List.length pre) (List.length rows)) (map fst rows))
    = map (fun t => G t (row_get rows t)) (map fst rows).
Proof.
  induction rows as [|[u v] r IH]; intros Hnd pre; [reflexivity|].
  cbn [map fst snd] in Hnd |- *. inversion Hnd as [|? ? Hnot Hnd']; subst.
  cbn [List.length seq combine map fst snd take row_get].
  rewrite nth_middle, Z.eqb_refl. f_equal.
  specialize (IH Hnd' (pre ++ [v])).
  rewrite length_app, Nat.add_1_r, <- app_assoc in IH. cbn [app take] in IH.
  rewrite IH. apply map_ext_in. intros t Ht.
  destruct (Z.eqb_spec t u) as [->|_]; [contradiction|reflexivity].
Qed.

Lemma is_unique_nodup (idx : list timestamp) : NoDup idx -> is_unique idx = true.
Proof.
  induction 1 as [|t r Hnot _ IH]; [reflexivity|].
  cbn [is_unique]. rewrite IH, andb_true_r. apply negb_true_iff.
  apply not_true_is_false. intros H. apply existsb_exists in H.
  destruct H as [x [Hx E]]. apply Z.eqb_eq in E. subst. contradiction.
Qed.

Lemma index_eqb_eq (ia ib : list timestamp) : index_eqb ia ib = true <-> ia = ib.
Proof.
  unfold index_eqb. rewrite andb_true_iff, Nat.eqb_eq.
  revert ib; induction ia as [|t ia IH]; intros [|u ib];
    cbn [combine forallb List.length fst snd].
  - intuition.
  - split; [intros [H _]; discriminate H|discriminate].
  - split; [intros [H _]; discriminate H|discriminate].
  - rewrite andb_true_iff, Z.eqb_eq. specialize (IH ib). split.
    + intros [Hlen [Ht Hall]]. f_equal; [exact Ht|].
      apply IH. split; [congruence|exact Hall].
    + intros H. injection H as Ht Hrest. apply IH in Hrest.
      destruct Hrest as [Hlen Hall]. repeat split; [congruence|exact Ht|exact Hall].
Qed.

Lemma join_outer_nil_r (ia : list timestamp) :
  join_outer ia []
  = map (fun p => (snd p, (Some (fst p), None))) (combine (seq 0 (List.length ia)) ia).
Proof. destruct ia; reflexivity. Qed.

Lemma join_outer_nil_l (ib : list timestamp) :
  join_outer [] ib
  = map (fun p => (snd p, (None, Some (fst p)))) (combine (seq 0 (List.length ib)) ib).
Proof. destruct ib; reflexivity. Qed.

Lemma join_outer_cons (ia ib : list timestamp) :
  ia <> [] -> ib <> [] ->
  join_outer ia ib
  = flat_map (fun t =>
                map (fun q => (t, q))
                    (list_prod (or_missing (positions_from 0 ia t))
                               (or_missing (positions_from 0 ib t))))
             (join_keys ia ib).
Proof. destruct ia, ib; intros Ha Hb; try contradiction; reflexivity. Qed.

(** Two Series whose indexes hold no timestamp twice: the join has one row
    per key, with the value of each side at the key. *)
Lemma merge_outer_keys (a b : list (timestamp * float)) :
  NoDup (map fst a) -> NoDup (map fst b) -> a <> [] -> b <> [] ->
  merge_outer a b
  = map (fun t => (t, (row_get a t, row_get b t)))
        (join_keys (map fst a) (map fst b)).
Proof.
  intros Ha Hb Hna Hnb. unfold merge_outer.
  rewrite join_outer_cons
    by (intros E; apply map_eq_nil in E; contradiction).
  rewrite map_flat_map.
  rewrite (flat_map_ext _ (fun t => [(t, (row_get a t, row_get b t))]))
    by (intros t; apply join_row; assumption).
  apply flat_map_single.
Qed.

Lemma merge_outer_nil_r (a : list (timestamp * float)) :
  NoDup (map fst a) ->
  merge_outer a [] = map (fun t => (t, (row_get a t, nan))) (map fst a).
Proof.
  intros Ha. unfold merge_outer. cbn [map]. rewrite join_outer_nil_r, map_map.
  cbn [fst snd take]. rewrite length_map.
  apply (enumerate_rows (fun t x => (t, (x, nan))) a Ha []).
Qed.

Lemma merge_outer_nil_l (b : list (timestamp * float)) :
  NoDup (map fst b) ->
  merge_outer [] b = map (fun t => (t, (nan, row_get b t))) (map fst b).
Proof.
  intros Hb. unfold merge_outer. cbn [map]. rewrite join_outer_nil_l, map_map.
  cbn [fst snd take]. rewrite length_map.
  apply (enumerate_rows (fun t x => (t, (nan, x))) b Hb []).
Qed.

Lemma index_union_nil_r (l : list timestamp) :
  StronglySorted Z.lt l -> index_union l [] = l.
Proof.
  intros Hs. unfold index_union. rewrite app_nil_r.
  apply (fold_insert_increasing l []). exact Hs.
Qed.

Lemma join_keys_sorted (ia ib : list timestamp) :
  StronglySorted Z.lt ia -> StronglySorted Z.lt ib ->
  join_keys ia ib = index_union ia ib.
Proof.
  intros Ha Hb. unfold join_keys.
  destruct (is_unique ia && is_unique ib && index_eqb ia ib) eqn:E; [|reflexivity].
  apply andb_true_iff in E. destruct E as [_ E]. apply index_eqb_eq in E. subst ib.
  symmetry. apply index_union_same. exact Ha.
Qed.

(** On increasing indexes the join by positions is the join over the
    union of the timestamps. *)
Lemma merge_outer_sorted (a b : list (timestamp * float)) :
  StronglySorted Z.lt (map fst a) -> StronglySorted Z.lt (map fst b) ->
  merge_outer a b = outer_rows a b.
Proof.
  intros Ha Hb. unfold outer_rows.
  destruct b as [|rb b'].
  - rewrite (merge_outer_nil_r a (sorted_nodup _ Ha)).
    cbn [map]. rewrite (index_union_nil_r _ Ha). reflexivity.
  - destruct a as [|ra a'].
    + rewrite (merge_outer_nil_l _ (sorted_nodup _ Hb)).
      cbn [map] in *. rewrite (index_union_nil_l _ Hb). reflexivity.
    + rewrite merge_outer_keys;
        [|apply sorted_nodup; exact Ha|apply sorted_nodup; exact Hb
         |discriminate|discriminate].
      rewrite (join_keys_sorted _ _ Ha Hb). reflexivity.
Qed.

Lemma pair_relative_sorted (a b : Series) :
  StronglySorted Z.lt (s_index a) -> StronglySorted Z.lt (s_index b) ->
  pair_relative a b = ratio_rows a b.
Proof.
  intros Ha Hb. unfold pair_relative, ratio_rows, joined.
  rewrite (merge_outer_sorted _ _ Ha Hb). reflexivity.
Qed.

Lemma join_index (ia ib : list timestamp) :
  StronglySorted Z.lt ia -> StronglySorted Z.lt ib ->
  map fst (join_outer ia ib) = index_union ia ib.
Proof.
  intros Ha Hb.
  assert (Efst : forall l : list timestamp, map fst (map (fun t => (t, nan)) l) = l)
    by (intros l; rewrite map_map; apply map_id).
  pose proof (merge_outer_sorted (map (fun t => (t, nan)) ia)
                                 (map (fun t => (t, nan)) ib)) as H.
  rewrite !Efst in H. specialize (H Ha Hb).
  apply (f_equal (map fst)) in H.
  unfold merge_outer, outer_rows in H. rewrite !Efst, !map_map in H.
  cbn [fst] in H. rewrite map_id in H. exact H.
Qed.

Lemma join_left (a : list (timestamp * float)) (ib : list timestamp) :
  StronglySorted Z.lt (map fst a) -> StronglySorted Z.lt ib ->
  map (fun r => take (map snd a) (fst (snd r))) (join_outer (map fst a) ib)
  = reindex (index_union (map fst a) ib) a.
Proof.
  intros Ha Hb.
  assert (Efst : map fst (map (fun t : timestamp => (t, nan)) ib) = ib)
    by (rewrite map_map; apply map_id).
  pose proof (merge_outer_sorted a (map (fun t => (t, nan)) ib)) as H.
  rewrite Efst in H. specialize (H Ha Hb).
  apply (f_equal (map (fun x => fst (snd x)))) in H.
  unfold merge_outer, outer_rows in H. rewrite Efst, !map_map in H.
  cbn [fst snd] in H. exact H.
Qed.

Lemma join_right (ia : list timestamp) (b : list (timestamp * float)) :
  StronglySorted Z.lt ia -> StronglySorted Z.lt (map fst b) ->
  map (fun r => take (map snd b) (snd (snd r))) (join_outer ia (map fst b))
  = reindex (index_union ia (map fst b)) b.
Proof.
  intros Ha Hb.
  assert (Efst : map fst (map (fun t : timestamp => (t, nan)) ia) = ia)
    by (rewrite map_map; apply map_id).
  pose proof (merge_outer_sorted (map (fun t => (t, nan)) ia) b) as H.
  rewrite Efst in H. specialize (H Ha Hb).
  apply (f_equal (map (fun x => snd (snd x)))) in H.
  unfold merge_outer, outer_rows in H. rewrite Efst, !map_map in H.
  cbn [fst snd] in H. exact H.
Qed.

(** On increasing indexes [pd.merge] lays every column over the union of
    the timestamps. *)
Lemma merge_column_sorted (res : DataFrame) (name : label)
      (rel : list (timestamp * float)) :
  StronglySorted Z.lt (df_index res) -> StronglySorted Z.lt (map fst rel) ->
  well_formed (TFrame res) ->
  merge_column res name rel = merged_column res name rel.
Proof.
  intros Hres Hrel Hwf. unfold merge_column, merged_column.
  cbn [well_formed] in Hwf. rewrite Forall_forall in Hwf.
  rewrite (join_index _ _ Hres Hrel), (join_right _ rel Hres Hrel).
  f_equal. f_equal. apply map_ext_in. intros c Hc. f_equal.
  pose proof (join_left (combine (df_index res) (snd c)) (map fst rel)) as H.
  rewrite (map_fst_combine (df_index res) (snd c)) in H
    by (symmetry; apply Hwf; exact Hc).
  rewrite (map_snd_combine (df_index res) (snd c)) in H
    by (symmetry; apply Hwf; exact Hc).
  exact (H Hres Hrel).
Qed.

Lemma merged_column_well_formed (res : DataFrame) (name : label)
      (rel : list (timestamp * float)) :
  well_formed (TFrame (merged_column res name rel)).
Proof.
  unfold merged_column. cbn [well_formed df_columns df_index].
  apply Forall_app. split.
  - apply Forall_forall. intros c Hc. apply in_map_iff in Hc.
    destruct Hc as [c' [<- _]]. cbn [snd]. unfold reindex. apply length_map.
  - constructor; [|constructor]. cbn [snd]. unfold reindex. apply length_map.
Qed.

Lemma merge_all_sorted {X : Type} (name_of : X -> label)
      (rows_of rows_of' : X -> list (timestamp * float)) (items : list X) :
  forall res : DataFrame,
    StronglySorted Z.lt (df_index res) -> well_formed (TFrame res) ->
    (forall p, In p items ->
               StronglySorted Z.lt (map fst (rows_of p)) /\ rows_of p = rows_of' p) ->
    merge_all name_of rows_of items res = merged_all name_of rows_of' items res.
Proof.
  induction items as [|p items IH]; intros res Hs Hwf Hitems; [reflexivity|].
  change (merge_all name_of rows_of (p :: items) res)
    with (merge_all name_of rows_of items (merge_column res (name_of p) (rows_of p))).
  change (merged_all name_of rows_of' (p :: items) res)
    with (merged_all name_of rows_of' items (merged_column res (name_of p) (rows_of' p))).
  destruct (Hitems p (or_introl eq_refl)) as [Hp Heq].
  rewrite (merge_column_sorted res (name_of p) (rows_of p) Hs Hp Hwf), Heq.
  apply IH.
  - unfold merged_column. cbn [df_index]. apply index_union_sorted.
  - apply merged_column_well_formed.
  - intros q Hq. apply Hitems. right. exact Hq.
Qed.

Lemma sorted_combine_fst {B : Type} (idx : list timestamp) (col : list B) :
  StronglySorted Z.lt idx -> StronglySorted Z.lt (map fst (combine idx col)).
Proof.
  intros Hs. revert col. induction Hs as [|u r Hr IH Hu]; intros col; [constructor|].
  destruct col as [|v col]; [constructor|].
  cbn [combine map fst]. constructor; [apply IH|].
  rewrite Forall_forall in Hu |- *. intros t Ht. apply Hu.
  apply in_map_iff in Ht. destruct Ht as [[t' v'] [<- Ht]].
  apply in_combine_l in Ht. exact Ht.
Qed.

Lemma iteritems_sorted (d : DataFrame) (c : label * Series) :
  StronglySorted Z.lt (df_index d) -> In c (iteritems d) ->
  StronglySorted Z.lt (s_index (snd c)).
Proof.
  intros Hs Hc. unfold iteritems in Hc. apply in_map_iff in Hc.
  destruct Hc as [c' [<- _]]. cbn [snd]. unfold column_series, s_index. cbn [s_rows].
  apply sorted_combine_fst. exact Hs.
Qed.

(** On tables with increasing indexes the loops of [relative_returns]
    build, column after column, the ratios laid over the union of their
    timestamps. *)
Lemma relative_table_sorted (ra rb : DataFrame) (prefixes : string * string) :
  StronglySorted Z.lt (df_index ra) -> StronglySorted Z.lt (df_index rb) ->
  relative_table ra rb prefixes
  = merged_all
      (fun p => pair_label prefixes (fst (fst p)) (fst (snd p)))
      (fun p => ratio_rows (snd (fst p)) (snd (snd p)))
      (column_pairs ra rb) (mkDataFrame [] []).
Proof.
  intros Ha Hb. rewrite relative_table_fold.
  apply merge_all_sorted.
  - constructor.
  - constructor.
  - intros [ia ib] Hp. unfold column_pairs in Hp. apply in_prod_iff in Hp.
    destruct Hp as [Hia Hib]. cbn [fst snd].
    pose proof (iteritems_sorted ra ia Ha Hia) as Hsa.
    pose proof (iteritems_sorted rb ib Hb Hib) as Hsb.
    rewrite (pair_relative_sorted _ _ Hsa Hsb). split; [|reflexivity].
    rewrite ratio_rows_index. apply joined_sorted.
Qed.

Lemma map_nth_seq {A : Type} (d : A) (l : list A) :
  map (fun i => nth i l d) (seq 0 (List.length l)) = l.
Proof.
  induction l as [|x l IH]; [reflexivity|].
  cbn [List.length seq map nth]. f_equal.
  rewrite <- seq_shift, map_map. exact IH.
Qed.

(** Merging into the empty table gives the series as it is. *)
Lemma merge_column_first (name : label) (rel : list (timestamp * float)) :
  merge_column (mkDataFrame [] []) name rel
  = mkDataFrame (map fst rel) [(name, map snd rel)].
Proof.
  unfold merge_column. cbn [df_index df_columns existsb map app].
  rewrite join_outer_nil_l, !map_map. cbn [fst snd take].
  f_equal.
  - exact (map_snd_combine _ _ (length_seq _ _)).
  - f_equal. f_equal.
    rewrite <- (map_map fst (fun i => nth i (map snd rel) nan)).
    rewrite map_fst_combine by (apply length_seq).
    rewrite length_map, <- (length_map snd rel). apply map_nth_seq.
Qed.

End JoinPositions.

Section RelativeClaims.

Lemma pair_relative_rows (a a' b b' : Series) :
  s_rows a = s_rows a' -> s_rows b = s_rows b' ->
  pair_relative a b = pair_relative a' b'.
Proof. intros Ha Hb. unfold pair_relative. rewrite Ha, Hb. reflexivity. Qed.

Lemma column_of_series (name : label) (s : Series) :
  iteritems (frame_of_series name s)
  = [(name, mkSeries (Some name) (s_rows s))].
Proof.
  unfold iteritems, frame_of_series, column_series. cbn [df_columns df_index map fst snd].
  unfold s_index, s_values. rewrite combine_fst_snd. reflexivity.
Qed.

Lemma relative_returns_two_series (a b : Series) (prefixes : string * string) :
  relative_returns (TSeries a) (TSeries b) prefixes
  = TSeries
      (mkSeries
         (Some (pair_label prefixes (name_or (s_name a) (fst prefixes))
                  (name_or (s_name b) (snd prefixes))))
         (pair_relative a b)).
Proof.
  unfold relative_returns, to_time_series. cbn [as_frame].
  rewrite relative_table_fold. unfold merge_all, column_pairs.
  rewrite !column_of_series. cbn [list_prod map app fold_left fst snd].
  rewrite (pair_relative_rows (mkSeries _ (s_rows a)) a
             (mkSeries _ (s_rows b)) b eq_refl eq_refl).
  rewrite merge_column_first.
  cbn [df_columns]. unfold column_series. cbn [df_index fst snd].
  rewrite combine_fst_snd. reflexivity.
Qed.

Lemma pair_relative_index (a b : Series) :
  map fst (pair_relative a b)
  = map fst (joined_dropna (merge_outer (s_rows a) (s_rows b))).
Proof.
  unfold pair_relative. apply map_fst_combine.
  rewrite !length_map, length_combine, !cumprod_length, !length_map. lia.
Qed.

Lemma filter_map_fst {A B : Type} (F : A -> B) (P : A * B -> bool) (l : list A) :
  map fst (filter P (map (fun t => (t, F t)) l))
  = filter (fun t => P (t, F t)) l.
Proof.
  induction l as [|t l IH]; [reflexivity|].
  cbn [map filter]. destruct (P (t, F t)); cbn [map fst]; rewrite IH; reflexivity.
Qed.

(** Two Series on the same timestamps, none of them repeated: the rows of
    the ratio follow the order of the index as it is. *)
Lemma pair_relative_same_index (a b : Series) :
  NoDup (s_index a) -> s_index a = s_index b ->
  map fst (pair_relative a b)
  = filter (fun t => notna (row_get (s_rows a) t) && notna (row_get (s_rows b) t))
           (s_index a).
Proof.
  unfold s_index. intros Hnd Heq. rewrite pair_relative_index.
  assert (Hnd' : NoDup (map fst (s_rows b))) by (rewrite <- Heq; exact Hnd).
  destruct (s_rows a) as [|ra a'] eqn:Ea.
  - destruct (s_rows b) as [|rb b'] eqn:Eb; [reflexivity|discriminate Heq].
  - destruct (s_rows b) as [|rb b'] eqn:Eb; [discriminate Heq|].
    rewrite merge_outer_keys; [|exact Hnd|exact Hnd'|discriminate|discriminate].
    unfold join_keys.
    rewrite (is_unique_nodup _ Hnd), (is_unique_nodup _ Hnd').
    rewrite (proj2 (index_eqb_eq _ _) Heq). cbn [andb].
    unfold joined_dropna.
    apply (filter_map_fst
             (fun t => (row_get (ra :: a') t, row_get (rb :: b') t))
             (fun r => notna (fst (snd r)) && notna (snd (snd r)))).
Qed.

(** C7.  For every (asset column, benchmark column) pair, [relative_returns]
    joins the two columns on the timestamps of either side, keeps the rows
    where neither value is missing, and yields at each remaining timestamp
    the cumulative growth of the asset over that of the benchmark, both up
    to that timestamp: a series, one ratio per remaining timestamp.  On
    inputs whose timestamps increase the rows come in increasing order of
    the timestamps, and in the result table every ratio series is laid over
    the union of all timestamps.  Two Series on the same timestamps, none of
    them repeated, keep the order of their index, whatever it is.  Two
    Series give a Series, named asset name / benchmark name.  For two Series
    on the same increasing timestamps that both start with a return of 0,
    the first ratio is 1.0. *)
Theorem relative_returns_ratio :
  (forall a b : Series,
      StronglySorted Z.lt (s_index a) -> StronglySorted Z.lt (s_index b) ->
      map fst (pair_relative a b) = map fst (joined a b)
      /\ StronglySorted Z.lt (map fst (joined a b))
      /\ (forall t x y,
             In (t, (x, y)) (joined a b) <->
             (In t (s_index a) \/ In t (s_index b))
             /\ x = row_get (s_rows a) t /\ y = row_get (s_rows b) t
             /\ notna x = true /\ notna y = true)
      /\ (forall i t x y,
             nth_error (joined a b) i = Some (t, (x, y)) ->
             nth_error (pair_relative a b) i
             = Some (t, (growth (firstn (S i) (asset_side (joined a b)))
                         / growth (firstn (S i) (benchmark_side (joined a b))))%float)))
  /\ (forall a b : Series,
         NoDup (s_index a) -> s_index a = s_index b ->
         map fst (pair_relative a b)
         = filter (fun t => notna (row_get (s_rows a) t)
                            && notna (row_get (s_rows b) t))
                  (s_index a))
  /\ (forall (ra rb : DataFrame) (prefixes : string * string),
         StronglySorted Z.lt (df_index ra) -> StronglySorted Z.lt (df_index rb) ->
         let res := relative_table ra rb prefixes in
         map snd (df_columns res)
         = map (fun p => reindex (df_index res)
                           (pair_relative (snd (fst p)) (snd (snd p))))
               (column_pairs ra rb)
         /\ (forall p, In p (column_pairs ra rb) ->
                       incl (map fst (pair_relative (snd (fst p)) (snd (snd p))))
                            (df_index res)))
  /\ (forall (a b : Series) (prefixes : string * string),
         relative_returns (TSeries a) (TSeries b) prefixes
         = TSeries
             (mkSeries
                (Some (pair_label prefixes (name_or (s_name a) (fst prefixes))
                         (name_or (s_name b) (snd prefixes))))
                (pair_relative a b)))
  /\ (forall (a b : Series) (t : timestamp) (rest_a rest_b : list (timestamp * float)),
         s_rows a = (t, 0%float) :: rest_a ->
         s_rows b = (t, 0%float) :: rest_b ->
         s_index a = s_index b ->
         StronglySorted Z.lt (s_index a) ->
         exists rest, pair_relative a b = (t, 1%float) :: rest).
Proof.
  split; [|split; [|split; [|split]]].
  - intros a b Ha Hb. rewrite (pair_relative_sorted a b Ha Hb).
    split; [apply ratio_rows_index|].
    split; [apply joined_sorted|].
    split; [apply joined_rows|apply ratio_rows_nth].
  - exact pair_relative_same_index.
  - intros ra rb prefixes Ha Hb res. unfold res.
    rewrite (relative_table_sorted ra rb prefixes Ha Hb).
    assert (Hrows : forall p, In p (column_pairs ra rb) ->
                      pair_relative (snd (fst p)) (snd (snd p))
                      = ratio_rows (snd (fst p)) (snd (snd p))).
    { intros [ia ib] Hp. unfold column_pairs in Hp. apply in_prod_iff in Hp.
      destruct Hp as [Hia Hib]. cbn [fst snd].
      apply pair_relative_sorted;
        [exact (iteritems_sorted ra ia Ha Hia)|exact (iteritems_sorted rb ib Hb Hib)]. }
    destruct (merged_fold_values
                (fun p : (label * Series) * (label * Series) =>
                   pair_label prefixes (fst (fst p)) (fst (snd p)))
                (fun p => ratio_rows (snd (fst p)) (snd (snd p)))
                (column_pairs ra rb) (mkDataFrame [] []) [] eq_refl (Forall_nil _))
      as [Hvals Hincl].
    cbn [app] in Hvals, Hincl. split.
    + rewrite Hvals, map_map. apply map_ext_in. intros p Hp.
      rewrite (Hrows p Hp). reflexivity.
    + intros p Hp. rewrite (Hrows p Hp). rewrite Forall_forall in Hincl. apply Hincl.
      apply (in_map (fun p => ratio_rows (snd (fst p)) (snd (snd p)))). exact Hp.
  - exact relative_returns_two_series.
  - intros a b t rest_a rest_b Ha Hb Hidx Hs.
    rewrite (pair_relative_sorted a b Hs) by (rewrite <- Hidx; exact Hs).
    exact (ratio_rows_first a b t rest_a rest_b Ha Hb Hidx Hs).
Qed.

(** C9 as the source has it.  [relative_returns] returns a bare Series when
    exactly one asset column and one benchmark column are compared;
    [active_premium] returns a table whenever it returns, a table of one
    column and one row in that case. *)
Theorem comparison_result_shape :
  (forall (ra rb : TimeSeriesData) (prefixes : string * string),
      List.length (df_columns (as_frame (fst prefixes) ra)) = 1%nat ->
      List.length (df_columns (as_frame (snd prefixes) rb)) = 1%nat ->
      exists s, relative_returns ra rb prefixes = TSeries s)
  /\ (forall (pow : float -> float -> float)
             (np_sum : list float -> float)
             (ppa_frequency : TimeSeriesData -> result (option string))
             (ra rb : TimeSeriesData) (freq : option string) (geometric : bool)
             (prefixes : string * string) (p : Premium),
         active_premium pow np_sum ppa_frequency ra rb freq geometric prefixes = OK p ->
         exists columns,
           p = PremiumFrame columns
           /\ (List.length (df_columns (as_frame (fst prefixes) ra)) = 1%nat ->
               List.length (df_columns (as_frame (snd prefixes) rb)) = 1%nat ->
               exists ca cb v, columns = [(ca, [(cb, v)])])).
Proof.
  split.
  - intros ra rb prefixes Ha Hb. unfold relative_returns, to_time_series.
    rewrite relative_table_fold. unfold merge_all, column_pairs, iteritems.
    destruct (df_columns (as_frame (fst prefixes) ra)) as [|ca [|? ?]];
      try discriminate Ha.
    destruct (df_columns (as_frame (snd prefixes) rb)) as [|cb [|? ?]];
      try discriminate Hb.
    cbn [map list_prod app fold_left fst snd merge_column df_columns].
    eexists. reflexivity.
  - intros pow np_sum ppa_frequency ra rb freq geometric prefixes p Hp.
    unfold active_premium, to_time_series in Hp.
    destruct (_determine_frequency ppa_frequency _ _ freq) as [f|e];
      cbn [bind] in Hp; [|discriminate Hp].
    destruct (asset_loop pow np_sum ppa_frequency prefixes f geometric _ _ [])
      as [res|e] eqn:Hloop; cbn [bind] in Hp; [|discriminate Hp].
    inversion Hp; subst p. exists res. split; [reflexivity|].
    intros Ha Hb. unfold iteritems in Hloop.
    destruct (df_columns (as_frame (fst prefixes) ra)) as [|ca [|? ?]];
      try discriminate Ha.
    destruct (df_columns (as_frame (snd prefixes) rb)) as [|cb [|? ?]];
      try discriminate Hb.
    cbn [map asset_loop premium_loop fst snd] in Hloop.
    destruct (annualized_returns pow np_sum ppa_frequency
                (TSeries (column_series (as_frame (fst prefixes) ra) ca))
                (Some f) geometric) as [x|e]; cbn [bind] in Hloop;
      [|discriminate Hloop].
    destruct (annualized_returns pow np_sum ppa_frequency
                (TSeries (column_series (as_frame (snd prefixes) rb) cb))
                (Some f) geometric) as [y|e]; cbn [bind] in Hloop;
      [|discriminate Hloop].
    cbn [dict_set] in Hloop. inversion Hloop. eauto.
Qed.

End RelativeClaims.

(** ** Column names *)

Section NamingFacts.

Variable pow : float -> float -> float.
Variable np_sum : list float -> float.
Variable ppa_frequency : TimeSeriesData -> result (option string).





Lemma iteritems_labels (d : DataFrame) :
  map fst (iteritems d) = map fst (df_columns d).
Proof. unfold iteritems. rewrite map_map. reflexivity. Qed.







End NamingFacts.

Section ComparisonSamples.

Lemma relative_returns_ratio_witness :
  nth_error (pair_relative sample_asset sample_benchmark) 1
  = Some (1, (growth (firstn 2 (asset_side (joined sample_asset sample_benchmark)))
              / growth (firstn 2 (benchmark_side (joined sample_asset sample_benchmark))))%float)
  /\ map fst (pair_relative sample_shuffled sample_shuffled)
     = filter (fun t => notna (row_get (s_rows sample_shuffled) t)
                        && notna (row_get (s_rows sample_shuffled) t))
              [2; 0; 1]
  /\ map snd (df_columns (relative_table sample_table sample_table_5_7 ("AST", "BMK")))
     = map (fun p => reindex
                       (df_index (relative_table sample_table sample_table_5_7
                                    ("AST", "BMK")))
                       (pair_relative (snd (fst p)) (snd (snd p))))
           (column_pairs sample_table sample_table_5_7)
  /\ exists rest, pair_relative sample_asset sample_benchmark = (0, 1%float) :: rest.
Proof.
  assert (Hasset : StronglySorted Z.lt (s_index sample_asset))
    by (vm_compute; repeat constructor).
  assert (Hbenchmark : StronglySorted Z.lt (s_index sample_benchmark))
    by (vm_compute; repeat constructor).
  assert (Htable : StronglySorted Z.lt [0; 1; 2]) by repeat constructor.
  destruct relative_returns_ratio as [Hrows [Hsame [Htables [_ Hfirst]]]].
  split; [|split; [|split]].
  - apply (proj2 (proj2 (proj2 (Hrows sample_asset sample_benchmark Hasset Hbenchmark)))
             1%nat 1 0.01%float 0.02%float).
    vm_compute. reflexivity.
  - apply (Hsame sample_shuffled sample_shuffled); [|reflexivity].
    vm_compute. repeat constructor; cbn [In]; intuition discriminate.
  - apply (proj1 (Htables sample_table sample_table_5_7 ("AST", "BMK") Htable Htable)).
  - apply (Hfirst sample_asset sample_benchmark 0
             [(1, 0.01%float); (2, 0.02%float)] [(1, 0.02%float); (2, 0.01%float)]
             eq_refl eq_refl eq_refl Hasset).
Defined.

Lemma comparison_result_shape_witness :
  (exists s,
      relative_returns (TSeries sample_asset) (TSeries sample_benchmark) ("AST", "BMK")
      = TSeries s)
  /\ exists columns,
       PremiumFrame [(LStr "AST", [(LStr "BMK", AScalar 0.065147218267471718)])]
       = PremiumFrame columns
       /\ (List.length (df_columns (as_frame "AST" sample_monthly)) = 1%nat ->
           List.length (df_columns (as_frame "BMK" sample_monthly_benchmark)) = 1%nat ->
           exists ca cb v, columns = [(ca, [(cb, v)])]).
Proof.
  split.
  - apply (proj1 comparison_result_shape
             (TSeries sample_asset) (TSeries sample_benchmark) ("AST", "BMK"));
      reflexivity.
  - apply (proj2 comparison_result_shape pow_whole sum_in_order frequency_or_none
             sample_monthly sample_monthly_benchmark (Some "monthly") true
             ("AST", "BMK")).
    vm_compute. reflexivity.
Defined.

(** C9 as the specification words it fails for [active_premium]: with one
    asset column and one benchmark column the result is a table of one
    column and one row, not a Series. *)
Lemma active_premium_one_pair_is_table :
  List.length (df_columns (as_frame "AST" sample_monthly)) = 1%nat
  /\ List.length (df_columns (as_frame "BMK" sample_monthly_benchmark)) = 1%nat
  /\ active_premium pow_whole sum_in_order frequency_or_none
       sample_monthly sample_monthly_benchmark (Some "monthly") true ("AST", "BMK")
     = OK (PremiumFrame [(LStr "AST", [(LStr "BMK", AScalar 0.065147218267471718)])])
  /\ forall rows,
       active_premium pow_whole sum_in_order frequency_or_none
         sample_monthly sample_monthly_benchmark (Some "monthly") true ("AST", "BMK")
       <> OK (PremiumSeries rows).
Proof.
  split; [reflexivity|]. split; [reflexivity|]. split; [vm_compute; reflexivity|].
  intros rows H. vm_compute in H. discriminate H.
Qed.



End ComparisonSamples.

(* ================================================================== *)
(** * Part III: further properties of the two modules *)
(* ================================================================== *)

(** ** [freq_to_scale] and [infer_frequency] *)

Section UtilsFurther.

Lemma lower_ascii_idempotent (c : ascii) : lower_ascii (lower_ascii c) = lower_ascii c.
Proof.
  destruct c as [[] [] [] [] [] [] [] []]; reflexivity.
Qed.

Lemma lower_idempotent (s : string) : lower (lower s) = lower s.
Proof.
  induction s as [|c s IH]; [reflexivity|].
  cbn [lower]. rewrite lower_ascii_idempotent, IH. reflexivity.
Qed.

Lemma str_in_iff (s : string) (t : list string) : str_in s t = true <-> In s t.
Proof.
  unfold str_in. rewrite existsb_exists. split.
  - intros [x [Hx Heq]]. apply String.eqb_eq in Heq. subst x. exact Hx.
  - intros Hs. exists s. split; [exact Hs|apply String.eqb_refl].
Qed.

(** X1.  On a label of ASCII characters, [freq_to_scale] returns a scale
    exactly when the lower-case form of the label is one of the nineteen
    recognised labels, and the scale is the one the table gives for that
    form; any other such input, [None] included, raises the ValueError that
    carries the lower-case form, and no input is given a default scale.
    Upper and lower case make no difference. *)
Theorem freq_to_scale_recognized (freq : option string) :
  ascii_label freq ->
  (forall scale, freq_to_scale freq = OK scale
                 <-> In (lower (py_str freq), scale) scale_table)
  /\ ((exists scale, freq_to_scale freq = OK scale)
      <-> In (lower (py_str freq)) recognized_labels)
  /\ (~ In (lower (py_str freq)) recognized_labels ->
      freq_to_scale freq
      = Raise (ValueError ("Unknown frequency: " ++ lower (py_str freq))%string))
  /\ (forall f, ascii_only f ->
                freq_to_scale (Some (lower f)) = freq_to_scale (Some f)).
Proof.
  intros _.
  assert (Hunknown : ~ In (lower (py_str freq)) recognized_labels ->
            freq_to_scale freq
            = Raise (ValueError ("Unknown frequency: " ++ lower (py_str freq))%string)).
  { intros Hnot. unfold freq_to_scale.
    repeat match goal with
           | |- context [if str_in ?s ?t then _ else _] =>
               let E := fresh "E" in
               destruct (str_in s t) eqn:E;
                 [ exfalso; apply Hnot; apply str_in_iff in E;
                   unfold recognized_labels; cbn [In] in E |- *; tauto | ]
           end.
    reflexivity. }
  assert (Htable : forall scale, In (lower (py_str freq), scale) scale_table ->
                                 freq_to_scale freq = OK scale).
  { intros scale Hin. unfold scale_table in Hin. cbn [In] in Hin.
    unfold freq_to_scale.
    repeat destruct Hin as [Hin|Hin]; try contradiction;
      injection Hin as Hlabel Hscale; rewrite <- Hlabel, <- Hscale; reflexivity. }
  assert (Hlabels : In (lower (py_str freq)) recognized_labels ->
                    exists scale, In (lower (py_str freq), scale) scale_table).
  { intros Hin. unfold recognized_labels in Hin. cbn [In] in Hin.
    repeat destruct Hin as [Hin|Hin]; try contradiction;
      rewrite <- Hin; eexists; unfold scale_table; cbn [In]; tauto. }
  split; [|split; [|split]].
  - intros scale. split; [|apply Htable].
    intros Hscale.
    destruct (in_dec string_dec (lower (py_str freq)) recognized_labels)
      as [Hin|Hnot].
    + destruct (Hlabels Hin) as [scale' Hin'].
      rewrite (Htable scale' Hin') in Hscale. inversion Hscale; subst. exact Hin'.
    + rewrite (Hunknown Hnot) in Hscale. discriminate Hscale.
  - split.
    + intros [scale Hscale].
      destruct (in_dec string_dec (lower (py_str freq)) recognized_labels)
        as [Hin|Hnot]; [exact Hin|].
      rewrite (Hunknown Hnot) in Hscale. discriminate Hscale.
    + intros Hin. destruct (Hlabels Hin) as [scale Hin'].
      exists scale. apply Htable. exact Hin'.
  - exact Hunknown.
  - intros f _. unfold freq_to_scale. cbn [py_str]. rewrite lower_idempotent.
    reflexivity.
Qed.

Lemma freq_to_scale_recognized_witness :
  freq_to_scale None = Raise (ValueError "Unknown frequency: none")
  /\ freq_to_scale (Some "Fortnightly")
     = Raise (ValueError "Unknown frequency: fortnightly")
  /\ freq_to_scale (Some "Semi-Annual") = OK 6.
Proof.
  assert (Hascii : forall f, Forall (fun c => (nat_of_ascii c <? 128)%nat = true)
                                    (list_ascii_of_string f) ->
                             ascii_only f).
  { intros f H. unfold ascii_only. rewrite Forall_forall in H |- *.
    intros c Hc. apply Nat.ltb_lt. apply H. exact Hc. }
  split; [|split].
  - apply (proj1 (proj2 (proj2 (freq_to_scale_recognized None I)))).
    vm_compute. intuition discriminate.
  - apply (proj1 (proj2 (proj2 (freq_to_scale_recognized (Some "Fortnightly")
                                  (Hascii "Fortnightly" ltac:(repeat constructor)))))).
    vm_compute. intuition discriminate.
  - apply (proj1 (freq_to_scale_recognized (Some "Semi-Annual")
                    (Hascii "Semi-Annual" ltac:(repeat constructor)))).
    vm_compute. tauto.
Defined.

Lemma valid_policy_cases (fail_policy : string) :
  valid_policy fail_policy ->
  lower fail_policy = "ignore" \/ lower fail_policy = "raise".
Proof.
  unfold valid_policy. intros H. apply str_in_iff in H. cbn [In] in H.
  intuition congruence.
Qed.

Lemma delta_labels (v : Periodicity -> Z) (k : string) (c : Z) :
  In (k, c) (map (fun p => (periodicity_label p, v p)) periodicities) ->
  exists p, k = periodicity_label p.
Proof.
  intros Hin. apply in_map_iff in Hin. destruct Hin as [p [Heq _]].
  exists p. congruence.
Qed.

(** X2.  The errors of [infer_frequency]: a policy other than 'ignore' and
    'raise' (in any case) raises a ValueError whatever the data; under
    'ignore' the call never raises; the TypeError of a frequency that cannot
    be inferred arises only under 'raise' with 30 observations or more, none
    of whose vote totals clears the threshold; and [None] is returned only
    under 'ignore' in the same situation. *)
Theorem infer_frequency_errors (data : TimeSeriesData) (fail_policy : string) :
  (~ valid_policy fail_policy ->
   infer_frequency data fail_policy
   = Raise (ValueError ("Unknown <fail_policy>: " ++ lower fail_policy
                        ++ ". Use one of [ignore, raise]")%string))
  /\ (lower fail_policy = "ignore" ->
      exists r, infer_frequency data fail_policy = OK r)
  /\ (forall msg,
         infer_frequency data fail_policy = Raise (TypeError msg) ->
         lower fail_policy = "raise" /\ 30 <= len data
         /\ forall p, over_85pct (votes p (index data)) (len data) = false)
  /\ (infer_frequency data fail_policy = OK None ->
      lower fail_policy = "ignore" /\ 30 <= len data
      /\ forall p, over_85pct (votes p (index data)) (len data) = false).
Proof.
  assert (Hscan : forall (P : Prop),
             valid_policy fail_policy ->
             (30 <= len data ->
              (forall p, over_85pct (votes p (index data)) (len data) = false) ->
              infer_frequency data fail_policy
              = (if String.eqb (lower fail_policy) "raise"
                 then Raise (TypeError "could not infer periodicity of time series index")
                 else OK None) -> P) ->
             ((exists k, infer_frequency data fail_policy = OK (Some k)) -> P) -> P).
  { intros P Hvalid Hnone Hsome.
    pose proof (infer_frequency_unfold data fail_policy Hvalid) as Hunfold.
    cbv zeta in Hunfold.
    destruct (Z.ltb_spec (len data) 30) as [Hlt|Hge].
    - destruct (max_first_most (fun p => votes p (index data))) as [p [Hmax _]].
      rewrite Hmax in Hunfold. cbn [bind] in Hunfold. apply Hsome. eauto.
    - destruct (find (fun item => over_85pct (snd item) (len data))
                     (map (fun p => (periodicity_label p, votes p (index data)))
                          periodicities)) as [[k c]|] eqn:Efind.
      + apply Hsome. eauto.
      + apply (Hnone Hge); [|exact Hunfold].
        intros p.
        apply (find_none _ _ Efind (periodicity_label p, votes p (index data))).
        apply (in_map (fun q => (periodicity_label q, votes q (index data)))
                 periodicities p).
        destruct p; cbn [periodicities In]; tauto. }
  split; [|split; [|split]].
  - intros Hinvalid. unfold infer_frequency. unfold valid_policy in Hinvalid.
    apply not_true_is_false in Hinvalid. rewrite Hinvalid. reflexivity.
  - intros Hignore.
    assert (Hvalid : valid_policy fail_policy)
      by (unfold valid_policy; rewrite Hignore; reflexivity).
    apply (Hscan _ Hvalid).
    + intros _ _ Hres. rewrite Hignore in Hres. cbn in Hres. eauto.
    + intros [k Hk]. eauto.
  - intros msg Hraise.
    destruct (str_in (lower fail_policy) ["ignore"; "raise"]) eqn:Evalid.
    + apply (Hscan _ Evalid).
      * intros Hge Hnone Hres. rewrite Hraise in Hres.
        destruct (String.eqb_spec (lower fail_policy) "raise") as [Hpol|_];
          [auto|discriminate Hres].
      * intros [k Hk]. rewrite Hraise in Hk. discriminate Hk.
    + unfold infer_frequency in Hraise. rewrite Evalid in Hraise.
      discriminate Hraise.
  - intros Hnone_result.
    destruct (str_in (lower fail_policy) ["ignore"; "raise"]) eqn:Evalid.
    + apply (Hscan _ Evalid).
      * intros Hge Hnone Hres. rewrite Hnone_result in Hres.
        destruct (String.eqb_spec (lower fail_policy) "raise") as [_|Hpol];
          [discriminate Hres|].
        destruct (valid_policy_cases fail_policy Evalid) as [Hi|Hr];
          [auto|contradiction].
      * intros [k Hk]. rewrite Hnone_result in Hk. discriminate Hk.
    + unfold infer_frequency in Hnone_result. rewrite Evalid in Hnone_result.
      discriminate Hnone_result.
Qed.

Lemma infer_frequency_errors_witness :
  infer_frequency sample_monthly "warn"
  = Raise (ValueError "Unknown <fail_policy>: warn. Use one of [ignore, raise]")
  /\ (exists r, infer_frequency sample_ten_days "IGNORE" = OK r)
  /\ (lower "ignore" = "ignore" /\ 30 <= len sample_ten_days
      /\ forall p, over_85pct (votes p (index sample_ten_days))
                              (len sample_ten_days) = false).
Proof.
  split; [|split].
  - apply (proj1 (infer_frequency_errors sample_monthly "warn")).
    unfold valid_policy. vm_compute. discriminate.
  - apply (proj1 (proj2 (infer_frequency_errors sample_ten_days "IGNORE"))).
    reflexivity.
  - apply (proj2 (proj2 (proj2 (infer_frequency_errors sample_ten_days "ignore")))).
    vm_compute. reflexivity.
Defined.

(** X3.  Whatever [infer_frequency] returns as a frequency is one of the six
    labels, [freq_to_scale] accepts it, and the scale is that of the
    periodicity: an inferred frequency can always be annualized with. *)
Theorem inferred_frequency_has_scale
  (data : TimeSeriesData) (fail_policy k : string) :
  infer_frequency data fail_policy = OK (Some k) ->
  exists p, k = periodicity_label p /\ freq_to_scale (Some k) = OK (scale_of p).
Proof.
  intros Hres.
  assert (Hlabel : exists p, k = periodicity_label p).
  { destruct (str_in (lower fail_policy) ["ignore"; "raise"]) eqn:Evalid.
    - rewrite (infer_frequency_unfold data fail_policy Evalid) in Hres.
      cbv zeta in Hres.
      destruct (len data <? 30).
      + destruct (max_first_most (fun p => votes p (index data))) as [p [Hmax _]].
        rewrite Hmax in Hres. cbn [bind] in Hres. inversion Hres. eauto.
      + destruct (find (fun item => over_85pct (snd item) (len data))
                       (map (fun p => (periodicity_label p, votes p (index data)))
                            periodicities)) as [[k' c]|] eqn:Efind.
        * inversion Hres; subst k'. apply find_some in Efind.
          destruct Efind as [Hin _]. exact (delta_labels _ k c Hin).
        * destruct (String.eqb (lower fail_policy) "raise"); discriminate Hres.
    - unfold infer_frequency in Hres. rewrite Evalid in Hres. discriminate Hres. }
  destruct Hlabel as [p ->]. exists p. split; [reflexivity|].
  destruct p; reflexivity.
Qed.

Lemma inferred_frequency_has_scale_witness :
  exists p, "weekly" = periodicity_label p
            /\ freq_to_scale (Some "weekly") = OK (scale_of p).
Proof.
  apply (inferred_frequency_has_scale sample_weekly "raise" "weekly").
  vm_compute. reflexivity.
Defined.

End UtilsFurther.

Section InferFurther.

Lemma votes_of_gaps (p : Periodicity) (idx idx' : list timestamp) :
  consecutive_gaps idx = consecutive_gaps idx' -> votes p idx = votes p idx'.
Proof. intros H. unfold votes. rewrite H. reflexivity. Qed.

Lemma consecutive_gaps_shift (k : Z) (idx : list timestamp) :
  consecutive_gaps (map (fun t => t + k) idx) = consecutive_gaps idx.
Proof.
  induction idx as [|x r IH]; [reflexivity|].
  destruct r as [|y r']; [reflexivity|].
  cbn [map consecutive_gaps] in *. rewrite IH. f_equal. lia.
Qed.

(** X4.  [infer_frequency] looks at nothing but the number of timestamps and
    the gaps between consecutive ones: two inputs that agree on these get the
    same answer, whatever their values, names, columns and dates.  In
    particular, moving a Series by any number of days changes nothing. *)
Theorem infer_frequency_only_gaps :
  (forall (data data' : TimeSeriesData) (fail_policy : string),
      len data = len data' ->
      consecutive_gaps (index data) = consecutive_gaps (index data') ->
      infer_frequency data fail_policy = infer_frequency data' fail_policy)
  /\ (forall (k : Z) (s : Series) (fail_policy : string),
         infer_frequency (TSeries (shift_series k s)) fail_policy
         = infer_frequency (TSeries s) fail_policy).
Proof.
  assert (Hgaps : forall (data data' : TimeSeriesData) (fail_policy : string),
             len data = len data' ->
             consecutive_gaps (index data) = consecutive_gaps (index data') ->
             infer_frequency data fail_policy = infer_frequency data' fail_policy).
  { intros data data' fail_policy Hlen Hg.
    destruct (str_in (lower fail_policy) ["ignore"; "raise"]) eqn:Evalid.
    - rewrite (infer_frequency_unfold data fail_policy Evalid).
      rewrite (infer_frequency_unfold data' fail_policy Evalid).
      cbv zeta. rewrite Hlen.
      rewrite (map_ext (fun p => (periodicity_label p, votes p (index data)))
                       (fun p => (periodicity_label p, votes p (index data'))))
        by (intros p; rewrite (votes_of_gaps p _ _ Hg); reflexivity).
      reflexivity.
    - unfold infer_frequency. rewrite Evalid. reflexivity. }
  split; [exact Hgaps|].
  intros k s fail_policy. apply Hgaps.
  - unfold len, index, s_index, shift_series. cbn [s_rows].
    rewrite !length_map. reflexivity.
  - unfold index, s_index, shift_series. cbn [s_rows]. rewrite map_map.
    cbn [fst]. rewrite <- (map_map fst (fun t => t + k)).
    apply consecutive_gaps_shift.
Qed.

Lemma infer_frequency_only_gaps_witness :
  infer_frequency (TFrame sample_table) "raise"
  = infer_frequency (TSeries sample_asset) "raise".
Proof.
  apply (proj1 infer_frequency_only_gaps); reflexivity.
Defined.

(** The day-count sets of two periodicities share no gap. *)
Lemma day_sets_disjoint (p q : Periodicity) (g : Z) :
  p <> q -> in_day_set p g = true -> in_day_set q g = false.
Proof.
  intros Hne Hp. destruct p, q; try congruence; cbn [in_day_set] in *;
    rewrite ?andb_true_iff, ?Z.leb_le, ?Z.eqb_eq in Hp;
    rewrite ?andb_false_iff, ?Z.leb_gt, ?Z.eqb_neq; lia.
Qed.

Lemma filter_disjoint_length {A : Type} (f g : A -> bool) (l : list A) :
  (forall x, f x = true -> g x = false) ->
  (List.length (filter f l) + List.length (filter g l) <= List.length l)%nat.
Proof.
  intros Hfg. induction l as [|x l IH]; [cbn; lia|].
  cbn [filter List.length]. destruct (f x) eqn:Ef.
  - rewrite (Hfg x Ef). cbn [List.length]. lia.
  - destruct (g x); cbn [List.length]; lia.
Qed.

(** The vote totals of two periodicities never add up to more than the
    number of gaps, which is below the number of timestamps. *)
Lemma votes_pair_bound (p q : Periodicity) (idx : list timestamp) :
  p <> q ->
  0 <= votes p idx /\ 0 <= votes q idx
  /\ votes p idx + votes q idx <= Z.of_nat (List.length idx).
Proof.
  intros Hne. unfold votes.
  pose proof (filter_disjoint_length (in_day_set p) (in_day_set q)
                (consecutive_gaps idx)
                (fun g => day_sets_disjoint p q g Hne)) as Hsum.
  rewrite consecutive_gaps_length in Hsum. lia.
Qed.

Lemma votes_bound (p : Periodicity) (idx : list timestamp) :
  0 <= votes p idx <= Z.of_nat (List.length idx).
Proof.
  unfold votes. pose proof (filter_length_le (in_day_set p) (consecutive_gaps idx)) as H.
  rewrite consecutive_gaps_length in H. lia.
Qed.

(** X5.  On fewer than 500 timestamps at most one periodicity clears the
    85% threshold: the day-count sets are disjoint, so two vote totals
    cannot both exceed 85% of n.  The order of the scan in
    [infer_frequency] therefore never decides between two candidates. *)
Theorem threshold_scan_unambiguous (data : TimeSeriesData) (p q : Periodicity) :
  len data < 500 ->
  over_85pct (votes p (index data)) (len data) = true ->
  over_85pct (votes q (index data)) (len data) = true ->
  p = q.
Proof.
  intros Hlen Hp Hq.
  assert (Hdec : p = q \/ p <> q) by (destruct p, q; auto; right; discriminate).
  destruct Hdec as [Heq|Hne]; [exact Heq|exfalso].
  pose proof (votes_bound p (index data)) as Bp.
  pose proof (votes_bound q (index data)) as Bq.
  pose proof (votes_pair_bound p q (index data) Hne) as [_ [_ Bsum]].
  fold (len data) in Bp, Bq, Bsum.
  rewrite (over_85pct_exact _ _ Bp Hlen) in Hp.
  rewrite (over_85pct_exact _ _ Bq Hlen) in Hq.
  unfold exceeds_85pct_exactly in Hp, Hq.
  apply Z.ltb_lt in Hp. apply Z.ltb_lt in Hq. lia.
Qed.

Lemma threshold_scan_unambiguous_witness : Weekly = Weekly.
Proof.
  apply (threshold_scan_unambiguous sample_weekly Weekly Weekly);
    vm_compute; reflexivity.
Defined.

End InferFurther.

(** ** [_determine_frequency] *)

Section ReconcileFurther.

Variable ppa_frequency : TimeSeriesData -> result (option string).

(** X6.  Frequency reconciliation does not depend on the order of its two
    inputs: it yields a frequency for (ra, rb) exactly when it yields the
    same one for (rb, ra).  Without a requested frequency, what it yields is
    the frequency the accessor reports for one of the two inputs. *)
Theorem determine_frequency_symmetric
  (ra rb : TimeSeriesData) (freq : option string) (f : string) :
  (_determine_frequency ppa_frequency ra rb freq = OK f
   <-> _determine_frequency ppa_frequency rb ra freq = OK f)
  /\ (_determine_frequency ppa_frequency ra rb None = OK f ->
      ppa_frequency ra = OK (Some f) \/ ppa_frequency rb = OK (Some f)).
Proof.
  unfold _determine_frequency. split.
  - destruct freq as [g|]; [tauto|].
    destruct (ppa_frequency ra) as [[a|]|ea], (ppa_frequency rb) as [[b|]|eb];
      cbn [bind]; try tauto; try (split; intros H; discriminate H).
    destruct (String.eqb_spec a b) as [->|Hne]; cbn [negb].
    + rewrite String.eqb_refl. cbn [negb]. tauto.
    + destruct (String.eqb_spec b a) as [->|_]; [contradiction|].
      cbn [negb]. split; intros H; discriminate H.
  - destruct (ppa_frequency ra) as [[a|]|ea], (ppa_frequency rb) as [[b|]|eb];
      cbn [bind]; intros H; try discriminate H;
      try (inversion H; subst; auto; fail).
    destruct (String.eqb a b); cbn [negb] in H; [|discriminate H].
    inversion H; subst; auto.
Qed.

End ReconcileFurther.

Section ReconcileSamples.

Lemma determine_frequency_symmetric_witness :
  _determine_frequency frequency_or_none sample_weekly sample_ten_days None
  = OK "weekly"
  /\ (frequency_or_none sample_ten_days = OK (Some "weekly")
      \/ frequency_or_none sample_weekly = OK (Some "weekly")).
Proof.
  split.
  - apply (proj1 (proj1 (determine_frequency_symmetric frequency_or_none
                           sample_ten_days sample_weekly None "weekly"))).
    vm_compute. reflexivity.
  - apply (proj2 (determine_frequency_symmetric frequency_or_none
                    sample_ten_days sample_weekly None "weekly")).
    vm_compute. reflexivity.
Defined.

End ReconcileSamples.

(** ** [annualized_returns] *)

Section AnnualizeFurther.

Variable pow : float -> float -> float.
Variable np_sum : list float -> float.
Variable ppa_frequency : TimeSeriesData -> result (option string).

(** In geometric mode an input without a clean observation always fails. *)
Lemma annualized_geometric_empty_raises (r : TimeSeriesData) (freq : option string) :
  len (dropna r) = 0 ->
  raises (annualized_returns pow np_sum ppa_frequency r freq true).
Proof.
  intros Hlen. unfold raises, annualized_returns, to_time_series. rewrite Hlen.
  destruct (match freq with
            | Some _ => OK freq
            | None => ppa_frequency (dropna r)
            end) as [fo|e]; cbn [bind]; [|eauto].
  destruct (freq_to_scale fo) as [scale|e]; cbn [bind]; [|eauto].
  unfold int_truediv. cbn [Z.eqb bind]. eauto.
Qed.

(** X7.  With an explicit frequency, [annualized_returns] raises in two
    cases only: the label is not recognised (the ValueError of
    [freq_to_scale], which comes first), or the label is recognised, the
    mode is geometric and no clean observation is left (ZeroDivisionError).
    In arithmetic mode with a recognised label it never raises. *)
Theorem annualized_returns_errors
  (r : TimeSeriesData) (f : string) (geometric : bool) (e : exn) :
  annualized_returns pow np_sum ppa_frequency r (Some f) geometric = Raise e
  <-> freq_to_scale (Some f) = Raise e
      \/ (exists scale, freq_to_scale (Some f) = OK scale)
         /\ geometric = true /\ len (dropna r) = 0 /\ e = ZeroDivisionError.
Proof.
  unfold annualized_returns, to_time_series. cbn [bind].
  destruct (freq_to_scale (Some f)) as [scale|e'] eqn:Escale; cbn [bind].
  - destruct geometric.
    + unfold int_truediv.
      destruct (Z.eqb_spec (len (dropna r)) 0) as [Hz|Hnz]; cbn [bind].
      * split.
        -- intros H. inversion H. right. eauto.
        -- intros [H|[_ [_ [_ ->]]]]; [discriminate H|reflexivity].
      * split.
        -- intros H. discriminate H.
        -- intros [H|[_ [_ [Hz _]]]]; [discriminate H|contradiction].
    + split.
      * intros H. discriminate H.
      * intros [H|[_ [H _]]]; discriminate H.
  - split.
    + intros H. left. inversion H. reflexivity.
    + intros [H|[[scale H] _]]; [inversion H; reflexivity|discriminate H].
Qed.

(** X8.  Without an explicit frequency, [annualized_returns] asks the
    accessor on the cleaned data: a frequency it reports is used as if it had
    been passed; when it reports none, the call fails with the ValueError
    'Unknown frequency: none'; when it raises, its error comes out. *)
Theorem annualized_returns_inferred (r : TimeSeriesData) (geometric : bool) :
  (forall f,
      ppa_frequency (dropna r) = OK (Some f) ->
      annualized_returns pow np_sum ppa_frequency r None geometric
      = annualized_returns pow np_sum ppa_frequency r (Some f) geometric)
  /\ (ppa_frequency (dropna r) = OK None ->
      annualized_returns pow np_sum ppa_frequency r None geometric
      = Raise (ValueError "Unknown frequency: none"))
  /\ (forall e,
         ppa_frequency (dropna r) = Raise e ->
         annualized_returns pow np_sum ppa_frequency r None geometric = Raise e).
Proof.
  unfold annualized_returns, to_time_series.
  split; [|split]; intros; rewrite H; reflexivity.
Qed.

(** Cleaning keeps a table well formed and leaves no missing cell. *)
Lemma frame_dropna_well_formed (d : DataFrame) :
  well_formed (TFrame d) ->
  well_formed (TFrame (frame_dropna d)) /\ complete (frame_dropna d).
Proof.
  intros Hwf. cbn [well_formed] in *. rewrite Forall_forall in *.
  unfold frame_dropna, complete. cbn [df_index df_columns]. split.
  - intros c' Hc'. apply in_map_iff in Hc'. destruct Hc' as [c [<- Hc]].
    cbn [snd]. apply select_length. apply Hwf. exact Hc.
  - intros c' Hc'. apply in_map_iff in Hc'. destruct Hc' as [c [<- Hc]].
    cbn [snd]. apply frame_dropna_observed. exact Hc.
Qed.

Lemma dropna_idempotent (r : TimeSeriesData) :
  well_formed r -> dropna (dropna r) = dropna r.
Proof.
  intros Hwf. destruct r as [s|d]; cbn [dropna]; f_equal.
  - unfold series_dropna. cbn [s_name s_rows]. f_equal.
    apply filter_all. apply (filter_forall (fun r => notna (snd r))).
  - destruct (frame_dropna_well_formed d Hwf) as [Hwf' Hcomplete].
    apply frame_dropna_complete; assumption.
Qed.

(** X9.  Missing observations play no part in [annualized_returns]: on a
    Series or a well-formed table, cleaning the input beforehand gives the
    same result, error or value, in both modes and with or without an
    explicit frequency. *)
Theorem annualized_returns_ignores_missing
  (r : TimeSeriesData) (freq : option string) (geometric : bool) :
  well_formed r ->
  annualized_returns pow np_sum ppa_frequency (dropna r) freq geometric
  = annualized_returns pow np_sum ppa_frequency r freq geometric.
Proof.
  intros Hwf. unfold annualized_returns, to_time_series.
  rewrite (dropna_idempotent r Hwf). reflexivity.
Qed.

End AnnualizeFurther.

Section AnnualizeFurtherSamples.

Lemma annualized_returns_errors_witness :
  annualized_returns pow_whole sum_in_order frequency_or_none sample_missing (Some "daily") true
  = Raise ZeroDivisionError
  /\ (freq_to_scale (Some "hourly") = Raise (ValueError "Unknown frequency: hourly")
      \/ (exists scale, freq_to_scale (Some "hourly") = OK scale)
         /\ true = true /\ len (dropna sample_missing) = 0
         /\ ValueError "Unknown frequency: hourly" = ZeroDivisionError).
Proof.
  split.
  - apply (proj2 (annualized_returns_errors pow_whole sum_in_order frequency_or_none
                    sample_missing "daily" true ZeroDivisionError)).
    right. split; [exists 252; reflexivity|]. split; [reflexivity|].
    split; reflexivity.
  - apply (proj1 (annualized_returns_errors pow_whole sum_in_order frequency_or_none
                    sample_missing "hourly" true
                    (ValueError "Unknown frequency: hourly"))).
    vm_compute. reflexivity.
Defined.

Lemma annualized_returns_inferred_witness :
  annualized_returns pow_whole sum_in_order frequency_or_none sample_weekly None false
  = annualized_returns pow_whole sum_in_order frequency_or_none sample_weekly (Some "weekly") false
  /\ annualized_returns pow_whole sum_in_order frequency_or_none sample_ten_days None false
     = Raise (ValueError "Unknown frequency: none").
Proof.
  split.
  - apply (proj1 (annualized_returns_inferred pow_whole sum_in_order frequency_or_none
                    sample_weekly false) "weekly").
    vm_compute. reflexivity.
  - apply (proj1 (proj2 (annualized_returns_inferred pow_whole sum_in_order frequency_or_none
                           sample_ten_days false))).
    vm_compute. reflexivity.
Defined.

Lemma annualized_returns_ignores_missing_witness :
  annualized_returns pow_whole sum_in_order frequency_or_none
    (dropna (TSeries (mkSeries None [(0, 0.01%float); (1, nan); (2, 0.02%float)])))
    (Some "daily") false
  = annualized_returns pow_whole sum_in_order frequency_or_none
      (TSeries (mkSeries None [(0, 0.01%float); (1, nan); (2, 0.02%float)]))
      (Some "daily") false.
Proof.
  apply annualized_returns_ignores_missing. exact I.
Defined.

End AnnualizeFurtherSamples.

(** ** [excess_returns] *)

Section ExcessFurther.

Variable pow : float -> float -> float.
Variable np_sum : list float -> float.
Variable ppa_frequency : TimeSeriesData -> result (option string).

Lemma columns_iloc_head_dropna (n : Z) (d : DataFrame) :
  shape (iloc_head n (dropna (TFrame d)))
  = [len (iloc_head n (dropna (TFrame d))); Z.of_nat (List.length (df_columns d))].
Proof.
  cbn [dropna iloc_head shape]. unfold frame_dropna. cbn [df_columns].
  rewrite !length_map. reflexivity.
Qed.

(** X10.  Two tables with different numbers of columns are refused by
    [excess_returns] with the ValueError of mismatching shapes, before any
    frequency is looked at: whatever the frequency argument, the flag and
    the contents. *)
Theorem excess_returns_shape_mismatch
  (da db : DataFrame) (freq : option string) (geometric : bool) :
  List.length (df_columns da) <> List.length (df_columns db) ->
  excess_returns pow np_sum ppa_frequency (TFrame da) (TFrame db) freq geometric
  = Raise (ValueError "The shapes of the asset and benchmark returns do not match!").
Proof.
  intros Hne. unfold excess_returns, to_time_series.
  rewrite !columns_iloc_head_dropna. cbn [dropna iloc_head ndim shape_eqb].
  rewrite Z.eqb_refl.
  destruct (Z.eqb_spec (Z.of_nat (List.length (df_columns da)))
                       (Z.of_nat (List.length (df_columns db)))) as [E|_]; [lia|].
  rewrite !andb_false_r. reflexivity.
Qed.

Lemma len_dropna_iloc_head_zero (r : TimeSeriesData) :
  len (dropna (iloc_head 0 r)) = 0.
Proof. destruct r as [s|d]; reflexivity. Qed.

(** X11.  [excess_returns] fails whenever one of the two inputs has no clean
    observation: both sides are then cut to no observation at all, and
    nothing can be annualized. *)
Theorem excess_returns_empty_side
  (ra rb : TimeSeriesData) (freq : option string) (geometric : bool) :
  len (dropna ra) = 0 \/ len (dropna rb) = 0 ->
  raises (excess_returns pow np_sum ppa_frequency ra rb freq geometric).
Proof.
  intros Hempty. unfold excess_returns, to_time_series.
  assert (Hn : Z.min (len (dropna ra)) (len (dropna rb)) = 0)
    by (pose proof (len_nonneg (dropna ra)); pose proof (len_nonneg (dropna rb)); lia).
  rewrite Hn.
  destruct ((ndim (iloc_head 0 (dropna ra)) =? ndim (iloc_head 0 (dropna rb)))
            && negb (shape_eqb (shape (iloc_head 0 (dropna ra)))
                               (shape (iloc_head 0 (dropna rb)))));
    [unfold raises; eauto|].
  destruct (_determine_frequency ppa_frequency _ _ freq) as [f|e]; cbn [bind];
    [|unfold raises; eauto].
  destruct (annualized_geometric_empty_raises pow np_sum ppa_frequency
              (iloc_head 0 (dropna ra)) (Some f)
              (len_dropna_iloc_head_zero (dropna ra))) as [e He].
  rewrite He. cbn [bind]. unfold raises. eauto.
Qed.

Lemma observed_length (s : Series) :
  len (dropna (TSeries s)) = Z.of_nat (List.length (observed s)).
Proof.
  cbn [dropna]. rewrite len_series, series_dropna_values. reflexivity.
Qed.

Lemma observed_rows_length (s : Series) :
  List.length (s_rows (series_dropna s)) = List.length (observed s).
Proof.
  unfold observed. rewrite <- series_dropna_values. unfold s_values.
  rewrite length_map. reflexivity.
Qed.

Lemma observed_extend (s : Series) (later : list (timestamp * float)) :
  (List.length (observed s) <= List.length (observed (extend_series s later)))%nat.
Proof.
  unfold observed, extend_series, s_values. cbn [s_rows].
  rewrite map_app, filter_app, length_app. lia.
Qed.

(** The earliest clean observations of a Series are not affected by rows
    that come after it. *)
Lemma earliest_extend (n : Z) (s : Series) (later : list (timestamp * float)) :
  n <= Z.of_nat (List.length (observed s)) ->
  iloc_head n (dropna (TSeries (extend_series s later)))
  = iloc_head n (dropna (TSeries s)).
Proof.
  intros Hn. cbn [dropna iloc_head]. f_equal.
  unfold series_dropna, extend_series. cbn [s_name s_rows]. f_equal.
  rewrite filter_app, firstn_app.
  pose proof (observed_rows_length s) as Hlen.
  unfold series_dropna in Hlen. cbn [s_rows] in Hlen.
  replace (Z.to_nat n - List.length (filter (fun r => notna (snd r)) (s_rows s)))%nat
    with 0%nat by lia.
  cbn [firstn]. apply app_nil_r.
Qed.

(** X12.  [excess_returns] on two Series reads only the earliest
    min(len_a, len_b) clean observations of each: rows added after the
    longer Series, on either side, change neither the value nor the error. *)
Theorem excess_returns_ignores_later_rows
  (a b : Series) (later : list (timestamp * float))
  (freq : option string) (geometric : bool) :
  ((List.length (observed a) <= List.length (observed b))%nat ->
   excess_returns pow np_sum ppa_frequency (TSeries a) (TSeries (extend_series b later))
     freq geometric
   = excess_returns pow np_sum ppa_frequency (TSeries a) (TSeries b) freq geometric)
  /\ ((List.length (observed b) <= List.length (observed a))%nat ->
      excess_returns pow np_sum ppa_frequency (TSeries (extend_series a later)) (TSeries b)
        freq geometric
      = excess_returns pow np_sum ppa_frequency (TSeries a) (TSeries b) freq geometric).
Proof.
  split; intros Hle; unfold excess_returns, to_time_series.
  - pose proof (observed_extend b later) as Hext.
    assert (Hmin : Z.min (len (dropna (TSeries a)))
                         (len (dropna (TSeries (extend_series b later))))
                   = Z.min (len (dropna (TSeries a))) (len (dropna (TSeries b))))
      by (rewrite !observed_length; lia).
    rewrite Hmin.
    rewrite (earliest_extend _ b later) by (rewrite !observed_length; lia).
    reflexivity.
  - pose proof (observed_extend a later) as Hext.
    assert (Hmin : Z.min (len (dropna (TSeries (extend_series a later))))
                         (len (dropna (TSeries b)))
                   = Z.min (len (dropna (TSeries a))) (len (dropna (TSeries b))))
      by (rewrite !observed_length; lia).
    rewrite Hmin.
    rewrite (earliest_extend _ a later) by (rewrite !observed_length; lia).
    reflexivity.
Qed.

End ExcessFurther.

Section ExcessFurtherSamples.

Lemma excess_returns_shape_mismatch_witness :
  excess_returns pow_whole sum_in_order frequency_or_none
    (TFrame sample_table) (TFrame (mkDataFrame [0; 1; 2] [])) (Some "daily") true
  = Raise (ValueError "The shapes of the asset and benchmark returns do not match!").
Proof.
  apply excess_returns_shape_mismatch. vm_compute. discriminate.
Defined.

Lemma excess_returns_empty_side_witness :
  raises (excess_returns pow_whole sum_in_order frequency_or_none
            sample_monthly sample_missing (Some "monthly") false).
Proof.
  apply excess_returns_empty_side. right. reflexivity.
Defined.

Lemma excess_returns_ignores_later_rows_witness :
  excess_returns pow_whole sum_in_order frequency_or_none
    (TSeries sample_asset)
    (TSeries (extend_series sample_benchmark [(3, 0.5%float); (4, nan)]))
    (Some "daily") true
  = excess_returns pow_whole sum_in_order frequency_or_none
      (TSeries sample_asset) (TSeries sample_benchmark) (Some "daily") true.
Proof.
  apply (proj1 (excess_returns_ignores_later_rows pow_whole sum_in_order frequency_or_none
                  sample_asset sample_benchmark [(3, 0.5%float); (4, nan)]
                  (Some "daily") true)).
  vm_compute. lia.
Defined.

End ExcessFurtherSamples.

(** ** [active_premium] *)

Section PremiumFurther.

Variable pow : float -> float -> float.
Variable np_sum : list float -> float.
Variable ppa_frequency : TimeSeriesData -> result (option string).




Lemma dict_set_keys {V : Type} (d : list (label * V)) (k k' : label) (v : V) :
  In k' (map fst (dict_set d k v)) <-> k' = k \/ In k' (map fst d).
Proof.
  induction d as [|[k0 v0] d IH]; cbn [dict_set map fst In].
  - intuition.
  - destruct (label_eqb k k0) eqn:E; cbn [map fst In].
    + apply label_eqb_true in E. subst k0. intuition.
    + rewrite IH. intuition.
Qed.

Lemma dict_set_nodup {V : Type} (d : list (label * V)) (k : label) (v : V) :
  NoDup (map fst d) -> NoDup (map fst (dict_set d k v)).
Proof.
  induction d as [|[k0 v0] d IH]; intros Hnd; cbn [dict_set map fst].
  - repeat constructor. intros [].
  - cbn [map fst] in Hnd. inversion Hnd as [|? ? Hnot Hnd']; subst.
    destruct (label_eqb k k0) eqn:E; cbn [map fst].
    + constructor; assumption.
    + constructor; [|apply IH; exact Hnd'].
      intros Hin. apply dict_set_keys in Hin. destruct Hin as [->|Hin].
      * assert (label_eqb k k = true) by (apply label_eqb_true; reflexivity).
        congruence.
      * contradiction.
Qed.

Lemma dict_set_values {V : Type} (d : list (label * V)) (k : label) (v : V)
  (c : label * V) :
  In c (dict_set d k v) -> snd c = v \/ In c d.
Proof.
  induction d as [|[k0 v0] d IH]; cbn [dict_set In].
  - intros [<-|[]]. left. reflexivity.
  - destruct (label_eqb k k0); cbn [In].
    + intros [<-|H]; [left; reflexivity|right; right; exact H].
    + intros [<-|H]; [right; left; reflexivity|].
      destruct (IH H) as [Hv|Hin]; [left; exact Hv|right; right; exact Hin].
Qed.

Lemma premium_loop_keys (a : Series) (prefix f : string) (geometric : bool)
  (bs : list (label * Series)) :
  forall premium out,
    premium_loop pow np_sum ppa_frequency a prefix f geometric bs premium = OK out ->
    NoDup (map fst premium) ->
    NoDup (map fst out)
    /\ forall x, In x (map fst out)
                 <-> In x (map fst premium)
                     \/ In x (map (fun ib => col_name prefix (fst ib)) bs).
Proof.
  induction bs as [|ib bs IH]; intros premium out Hrun Hnd.
  - cbn [premium_loop] in Hrun. inversion Hrun; subst out.
    split; [exact Hnd|]. cbn [map In]. intuition.
  - cbn [premium_loop] in Hrun.
    destruct (annualized_returns pow np_sum ppa_frequency (TSeries a) (Some f) geometric)
      as [x|e]; cbn [bind] in Hrun; [|discriminate Hrun].
    destruct (annualized_returns pow np_sum ppa_frequency (TSeries (snd ib)) (Some f) geometric)
      as [y|e]; cbn [bind] in Hrun; [|discriminate Hrun].
    apply IH in Hrun; [|apply dict_set_nodup; exact Hnd].
    destruct Hrun as [Hout Hkeys]. split; [exact Hout|].
    intros k. rewrite Hkeys, dict_set_keys. cbn [map In]. intuition.
Qed.

Lemma asset_loop_keys (prefixes : string * string) (f : string) (geometric : bool)
  (bs items : list (label * Series)) (P : list (label * Annualized) -> Prop) :
  (forall a out,
      premium_loop pow np_sum ppa_frequency a (snd prefixes) f geometric bs [] = OK out ->
      P out) ->
  forall res out,
    asset_loop pow np_sum ppa_frequency prefixes f geometric bs items res = OK out ->
    NoDup (map fst res) ->
    Forall (fun col => P (snd col)) res ->
    NoDup (map fst out)
    /\ (forall x, In x (map fst out)
                  <-> In x (map fst res)
                      \/ In x (map (fun ia => col_name (fst prefixes) (fst ia)) items))
    /\ Forall (fun col => P (snd col)) out.
Proof.
  intros HP. induction items as [|ia items IH]; intros res out Hrun Hnd Hres.
  - cbn [asset_loop] in Hrun. inversion Hrun; subst out.
    split; [exact Hnd|]. split; [|exact Hres]. cbn [map In]. intuition.
  - cbn [asset_loop] in Hrun.
    destruct (premium_loop pow np_sum ppa_frequency (snd ia) (snd prefixes) f geometric bs [])
      as [premium|e] eqn:Hpremium; cbn [bind] in Hrun; [|discriminate Hrun].
    apply IH in Hrun.
    + destruct Hrun as [Hout [Hkeys Hall]]. split; [exact Hout|].
      split; [|exact Hall].
      intros k. rewrite Hkeys, dict_set_keys. cbn [map In]. intuition.
    + apply dict_set_nodup. exact Hnd.
    + apply Forall_forall. intros col Hcol.
      apply dict_set_values in Hcol. destruct Hcol as [->|Hcol].
      * apply (HP (snd ia)). exact Hpremium.
      * rewrite Forall_forall in Hres. apply Hres. exact Hcol.
Qed.

(** X14.  The table of [active_premium] never has two columns or two rows
    of the same name: its columns are exactly the output names of the asset
    columns and the rows of every column exactly those of the benchmark
    columns, each once.  Columns that come out under one name are therefore
    merged into a single column. *)
Theorem active_premium_names_distinct
  (ra rb : TimeSeriesData) (freq : option string) (geometric : bool)
  (prefixes : string * string)
  (columns : list (label * list (label * Annualized))) :
  active_premium pow np_sum ppa_frequency ra rb freq geometric prefixes
  = OK (PremiumFrame columns) ->
  NoDup (map fst columns)
  /\ (forall name,
         In name (map fst columns)
         <-> In name (output_names (fst prefixes) (as_frame (fst prefixes) ra)))
  /\ Forall
       (fun col =>
          NoDup (map fst (snd col))
          /\ forall name,
               In name (map fst (snd col))
               <-> In name (output_names (snd prefixes)
                              (as_frame (snd prefixes) rb)))
       columns.
Proof.
  intros Hrun. unfold active_premium, to_time_series in Hrun.
  destruct (_determine_frequency ppa_frequency _ _ freq) as [f|e];
    cbn [bind] in Hrun; [|discriminate Hrun].
  destruct (asset_loop pow np_sum ppa_frequency prefixes f geometric _ _ [])
    as [res|e] eqn:Hloop; cbn [bind] in Hrun; [|discriminate Hrun].
  inversion Hrun; subst res.
  apply (asset_loop_keys prefixes f geometric _ _
           (fun rows =>
              NoDup (map fst rows)
              /\ forall name,
                   In name (map fst rows)
                   <-> In name (output_names (snd prefixes)
                                  (as_frame (snd prefixes) rb)))) in Hloop.
  - destruct Hloop as [Hnd [Hkeys Hall]]. split; [exact Hnd|]. split; [|exact Hall].
    intros name. rewrite Hkeys. unfold output_names, iteritems. rewrite map_map.
    cbn [map In fst]. intuition.
  - intros a out Hout. apply premium_loop_keys in Hout; [|constructor].
    destruct Hout as [Hnd Hkeys]. split; [exact Hnd|].
    intros name. rewrite Hkeys. unfold output_names, iteritems. rewrite map_map.
    cbn [map In fst]. intuition.
  - constructor.
  - constructor.
Qed.

(** In geometric mode the loops fail as soon as they reach a column without
    a clean observation, on either side. *)
Lemma premium_loop_empty_benchmark (a : Series) (prefix f : string)
  (bs : list (label * Series)) (ib : label * Series) :
  In ib bs -> len (dropna (TSeries (snd ib))) = 0 ->
  forall premium, raises (premium_loop pow np_sum ppa_frequency a prefix f true bs premium).
Proof.
  intros Hin Hempty. induction bs as [|ib' bs IH]; [contradiction|].
  intros premium. cbn [premium_loop].
  destruct (annualized_returns pow np_sum ppa_frequency (TSeries a) (Some f) true)
    as [x|e]; cbn [bind]; [|unfold raises; eauto].
  destruct Hin as [->|Hin].
  - destruct (annualized_geometric_empty_raises pow np_sum ppa_frequency
                (TSeries (snd ib)) (Some f) Hempty) as [e He].
    rewrite He. cbn [bind]. unfold raises. eauto.
  - destruct (annualized_returns pow np_sum ppa_frequency (TSeries (snd ib')) (Some f) true)
      as [y|e]; cbn [bind]; [|unfold raises; eauto].
    apply IH. exact Hin.
Qed.

Lemma asset_loop_empty_asset (prefixes : string * string) (f : string)
  (bs items : list (label * Series)) (ia : label * Series) :
  In ia items -> len (dropna (TSeries (snd ia))) = 0 -> bs <> [] ->
  forall res, raises (asset_loop pow np_sum ppa_frequency prefixes f true bs items res).
Proof.
  intros Hin Hempty Hbs. induction items as [|ia' items IH]; [contradiction|].
  intros res. cbn [asset_loop].
  destruct Hin as [->|Hin].
  - destruct bs as [|ib bs]; [contradiction|]. cbn [premium_loop].
    destruct (annualized_geometric_empty_raises pow np_sum ppa_frequency
                (TSeries (snd ia)) (Some f) Hempty) as [e He].
    rewrite He. cbn [bind]. unfold raises. eauto.
  - destruct (premium_loop pow np_sum ppa_frequency (snd ia') (snd prefixes) f true bs [])
      as [premium|e]; cbn [bind]; [|unfold raises; eauto].
    apply IH. exact Hin.
Qed.

(** X15.  In geometric mode one column without a single clean observation
    makes the whole call of [active_premium] fail, whether it is an asset
    column or a benchmark column, as long as the other side has a column to
    pair it with. *)
Theorem active_premium_empty_column
  (ra rb : TimeSeriesData) (freq : option string) (prefixes : string * string) :
  let fa := as_frame (fst prefixes) ra in
  let fb := as_frame (snd prefixes) rb in
  ((exists ia, In ia (iteritems fa) /\ len (dropna (TSeries (snd ia))) = 0)
   /\ df_columns fb <> []
   \/ (exists ib, In ib (iteritems fb) /\ len (dropna (TSeries (snd ib))) = 0)
      /\ df_columns fa <> []) ->
  raises (active_premium pow np_sum ppa_frequency ra rb freq true prefixes).
Proof.
  intros fa fb Hcase. unfold active_premium, to_time_series. fold fa fb.
  destruct (_determine_frequency ppa_frequency (TFrame fa) (TFrame fb) freq)
    as [f|e]; cbn [bind]; [|unfold raises; eauto].
  assert (Hloop : raises (asset_loop pow np_sum ppa_frequency prefixes f true
                            (iteritems fb) (iteritems fa) [])).
  { destruct Hcase as [[[ia [Hin Hempty]] Hfb]|[[ib [Hin Hempty]] Hfa]].
    - apply (asset_loop_empty_asset prefixes f _ _ ia Hin Hempty).
      unfold iteritems. destruct (df_columns fb); [contradiction|discriminate].
    - unfold iteritems at 2. destruct (df_columns fa) as [|ca cols]; [contradiction|].
      cbn [map asset_loop].
      destruct (premium_loop_empty_benchmark
                  (snd (fst ca, column_series fa ca)) (snd prefixes) f
                  (iteritems fb) ib Hin Hempty []) as [e He].
      rewrite He. cbn [bind]. unfold raises. eauto. }
  destruct Hloop as [e He]. rewrite He. cbn [bind]. unfold raises. eauto.
Qed.

End PremiumFurther.

Section PremiumFurtherSamples.


Lemma active_premium_names_distinct_witness :
  exists columns,
    active_premium pow_whole sum_in_order frequency_or_none
      (TFrame clashing_table) (TSeries sample_benchmark) (Some "daily") false
      ("AST", "BMK")
    = OK (PremiumFrame columns)
    /\ map fst columns = [LStr "AST_0"]
    /\ NoDup (map fst columns).
Proof.
  eexists. split; [vm_compute; reflexivity|]. split; [reflexivity|].
  apply (proj1 (active_premium_names_distinct pow_whole sum_in_order frequency_or_none
                  (TFrame clashing_table) (TSeries sample_benchmark)
                  (Some "daily") false ("AST", "BMK") _
                  ltac:(vm_compute; reflexivity))).
Defined.

Lemma active_premium_empty_column_witness :
  raises (active_premium pow_whole sum_in_order frequency_or_none
            (TFrame table_with_empty_column) (TSeries sample_benchmark)
            (Some "daily") true ("AST", "BMK")).
Proof.
  apply active_premium_empty_column. left. split.
  - exists (LStr "B", column_series table_with_empty_column
                        (LStr "B", [nan; nan; nan])).
    split; [right; left; reflexivity|reflexivity].
  - discriminate.
Defined.

End PremiumFurtherSamples.

(** ** [relative_returns] *)

Section RelativeFurther.

Lemma merge_all_columns_length {X : Type} (name_of : X -> label)
  (rows_of : X -> list (timestamp * float)) (items : list X) :
  forall res,
    List.length (df_columns (merge_all name_of rows_of items res))
    = (List.length (df_columns res) + List.length items)%nat.
Proof.
  induction items as [|p items IH]; intros res.
  - cbn [merge_all fold_left List.length]. lia.
  - change (merge_all name_of rows_of (p :: items) res)
      with (merge_all name_of rows_of items
              (merge_column res (name_of p) (rows_of p))).
    rewrite IH. unfold merge_column. cbn [df_columns List.length].
    rewrite length_app, length_map. cbn [List.length]. lia.
Qed.

Lemma relative_table_columns_length (ra rb : DataFrame) (prefixes : string * string) :
  List.length (df_columns (relative_table ra rb prefixes))
  = (List.length (df_columns ra) * List.length (df_columns rb))%nat.
Proof.
  rewrite relative_table_fold, merge_all_columns_length.
  unfold column_pairs. rewrite length_prod. unfold iteritems.
  rewrite !length_map. reflexivity.
Qed.

(** X16.  The table that [relative_returns] builds always has one column per
    (asset column, benchmark column) pair, also when names clash, and the
    call returns a bare Series exactly when there is one pair; with no pair
    or with several it returns a table. *)
Theorem relative_returns_series_iff
  (ra rb : TimeSeriesData) (prefixes : string * string) :
  let fa := as_frame (fst prefixes) ra in
  let fb := as_frame (snd prefixes) rb in
  List.length (df_columns (relative_table fa fb prefixes))
  = (List.length (df_columns fa) * List.length (df_columns fb))%nat
  /\ ((exists s, relative_returns ra rb prefixes = TSeries s)
      <-> (List.length (df_columns fa) * List.length (df_columns fb) = 1)%nat).
Proof.
  intros fa fb. split; [apply relative_table_columns_length|].
  rewrite <- (relative_table_columns_length fa fb prefixes).
  unfold relative_returns, to_time_series. fold fa fb.
  destruct (df_columns (relative_table fa fb prefixes)) as [|c [|c' cols]];
    cbn [List.length]; split.
  - intros [s Hs]. discriminate Hs.
  - intros H. discriminate H.
  - reflexivity.
  - eauto.
  - intros [s Hs]. discriminate Hs.
  - intros H. discriminate H.
Qed.

Lemma notna_present (rows : list (timestamp * float)) (t : timestamp) :
  notna (row_get rows t) = true -> In t (map fst rows).
Proof.
  intros Hna. destruct (in_dec Z.eq_dec t (map fst rows)) as [Hin|Hnot];
    [exact Hin|].
  rewrite (row_get_absent rows t Hnot) in Hna. discriminate Hna.
Qed.

Lemma joined_index_in (a b : Series) (t : timestamp) :
  In t (map fst (joined a b))
  <-> In t (s_index a) /\ In t (s_index b)
      /\ notna (row_get (s_rows a) t) = true
      /\ notna (row_get (s_rows b) t) = true.
Proof.
  rewrite in_map_iff. split.
  - intros [[t' [x y]] [Heq Hin]]. cbn [fst] in Heq. subst t'.
    apply joined_rows in Hin. destruct Hin as [_ [-> [-> [Ha Hb]]]].
    split; [apply notna_present; exact Ha|].
    split; [apply notna_present; exact Hb|]. auto.
  - intros [Ha [Hb [Hna Hnb]]].
    exists (t, (row_get (s_rows a) t, row_get (s_rows b) t)).
    split; [reflexivity|]. apply joined_rows. auto 10.
Qed.

Lemma relative_returns_index (a b : Series) (prefixes : string * string) :
  StronglySorted Z.lt (s_index a) -> StronglySorted Z.lt (s_index b) ->
  index (relative_returns (TSeries a) (TSeries b) prefixes)
  = map fst (joined a b).
Proof.
  intros Ha Hb. rewrite relative_returns_two_series.
  cbn [index]. unfold s_index at 1. cbn [s_rows].
  rewrite (pair_relative_sorted a b Ha Hb). apply ratio_rows_index.
Qed.

(** X17.  For two Series whose timestamps increase, the Series that
    [relative_returns] gives covers exactly the timestamps that both have
    with a value that is not missing, in increasing order: the outer join
    followed by the removal of incomplete rows keeps the common observations
    only. *)
Theorem relative_returns_common_timestamps
  (a b : Series) (prefixes : string * string) :
  StronglySorted Z.lt (s_index a) -> StronglySorted Z.lt (s_index b) ->
  StronglySorted Z.lt (index (relative_returns (TSeries a) (TSeries b) prefixes))
  /\ forall t,
       In t (index (relative_returns (TSeries a) (TSeries b) prefixes))
       <-> In t (s_index a) /\ In t (s_index b)
           /\ notna (row_get (s_rows a) t) = true
           /\ notna (row_get (s_rows b) t) = true.
Proof.
  intros Ha Hb. rewrite (relative_returns_index a b prefixes Ha Hb). split.
  - apply joined_sorted.
  - intros t. apply joined_index_in.
Qed.

Lemma merged_all_index_in {X : Type} (name_of : X -> label)
  (rows_of : X -> list (timestamp * float)) (items : list X) (t : timestamp) :
  forall res,
    In t (df_index (merged_all name_of rows_of items res))
    <-> In t (df_index res)
        \/ exists p, In p items /\ In t (map fst (rows_of p)).
Proof.
  induction items as [|p items IH]; intros res.
  - cbn [merged_all fold_left In]. split; [auto|].
    intros [H|[p [[] _]]]. exact H.
  - change (merged_all name_of rows_of (p :: items) res)
      with (merged_all name_of rows_of items
              (merged_column res (name_of p) (rows_of p))).
    rewrite IH. unfold merged_column. cbn [df_index]. rewrite index_union_in.
    split.
    + intros [[H|H]|[q [Hq Ht]]]; [auto| |].
      * right. exists p. split; [left; reflexivity|exact H].
      * right. exists q. split; [right; exact Hq|exact Ht].
    + intros [H|[q [[<-|Hq] Ht]]]; [auto|auto|].
      right. exists q. auto.
Qed.

Lemma merged_all_index_sorted {X : Type} (name_of : X -> label)
  (rows_of : X -> list (timestamp * float)) (items : list X) :
  forall res,
    StronglySorted Z.lt (df_index res) ->
    StronglySorted Z.lt (df_index (merged_all name_of rows_of items res)).
Proof.
  induction items as [|p items IH]; intros res Hs; [exact Hs|].
  change (merged_all name_of rows_of (p :: items) res)
    with (merged_all name_of rows_of items
            (merged_column res (name_of p) (rows_of p))).
  apply IH. unfold merged_column. cbn [df_index]. apply index_union_sorted.
Qed.

(** X18.  For two tables whose timestamps increase, the table of
    [relative_returns] is indexed by the union of the timestamps of its
    pairs: a timestamp is in the index exactly when some (asset column,
    benchmark column) pair has a ratio at it, and the index is increasing
    without repetition. *)
Theorem relative_table_index (ra rb : DataFrame) (prefixes : string * string) :
  StronglySorted Z.lt (df_index ra) -> StronglySorted Z.lt (df_index rb) ->
  StronglySorted Z.lt (df_index (relative_table ra rb prefixes))
  /\ forall t,
       In t (df_index (relative_table ra rb prefixes))
       <-> exists p,
             In p (column_pairs ra rb)
             /\ In t (map fst (pair_relative (snd (fst p)) (snd (snd p)))).
Proof.
  intros Ha Hb. rewrite (relative_table_sorted ra rb prefixes Ha Hb).
  assert (Hrows : forall p, In p (column_pairs ra rb) ->
                    pair_relative (snd (fst p)) (snd (snd p))
                    = ratio_rows (snd (fst p)) (snd (snd p))).
  { intros [ia ib] Hp. unfold column_pairs in Hp. apply in_prod_iff in Hp.
    destruct Hp as [Hia Hib]. cbn [fst snd].
    apply pair_relative_sorted;
      [exact (iteritems_sorted ra ia Ha Hia)|exact (iteritems_sorted rb ib Hb Hib)]. }
  split.
  - apply merged_all_index_sorted. constructor.
  - intros t. rewrite merged_all_index_in. cbn [df_index In]. split.
    + intros [[]|[p [Hp Ht]]]. exists p. split; [exact Hp|].
      rewrite (Hrows p Hp). exact Ht.
    + intros [p [Hp Ht]]. right. exists p. split; [exact Hp|].
      rewrite <- (Hrows p Hp). exact Ht.
Qed.

End RelativeFurther.

Section RelativeFurtherSamples.

Lemma relative_returns_series_iff_witness :
  exists s,
    relative_returns (TSeries sample_asset) (TSeries sample_benchmark) ("AST", "BMK")
    = TSeries s.
Proof.
  apply (proj2 (proj2 (relative_returns_series_iff
                         (TSeries sample_asset) (TSeries sample_benchmark)
                         ("AST", "BMK")))).
  reflexivity.
Defined.

Lemma relative_returns_common_timestamps_witness :
  In 2 (s_index sample_asset) /\ In 2 (s_index sample_benchmark)
  /\ notna (row_get (s_rows sample_asset) 2) = true
  /\ notna (row_get (s_rows sample_benchmark) 2) = true.
Proof.
  assert (Hasset : StronglySorted Z.lt (s_index sample_asset))
    by (vm_compute; repeat constructor).
  assert (Hbenchmark : StronglySorted Z.lt (s_index sample_benchmark))
    by (vm_compute; repeat constructor).
  apply (proj1 (proj2 (relative_returns_common_timestamps
                         sample_asset sample_benchmark ("AST", "BMK")
                         Hasset Hbenchmark) 2)).
  vm_compute. auto.
Defined.

Lemma relative_table_index_witness :
  exists p,
    In p (column_pairs sample_table sample_table_5_7)
    /\ In 1 (map fst (pair_relative (snd (fst p)) (snd (snd p)))).
Proof.
  assert (Htable : StronglySorted Z.lt [0; 1; 2]) by repeat constructor.
  apply (proj1 (proj2 (relative_table_index sample_table sample_table_5_7
                         ("AST", "BMK") Htable Htable) 1)).
  vm_compute. auto.
Defined.

End RelativeFurtherSamples.

(** ** Regular series *)

Section RegularSeries.

Lemma filter_none {A : Type} (f : A -> bool) (l : list A) :
  Forall (fun x => f x = false) l -> filter f l = [].
Proof.
  induction 1 as [|x l Hx _ IH]; [reflexivity|].
  cbn [filter]. rewrite Hx. exact IH.
Qed.

(** When every gap lies in the day-count set of one periodicity, that
    periodicity gets one vote per gap and the others get none. *)
Lemma regular_votes (p : Periodicity) (idx : list timestamp) :
  Forall (fun g => in_day_set p g = true) (consecutive_gaps idx) ->
  votes p idx = Z.of_nat (Nat.pred (List.length idx))
  /\ forall q, q <> p -> votes q idx = 0.
Proof.
  intros Hall. unfold votes. split.
  - rewrite (filter_all _ _ Hall), consecutive_gaps_length. reflexivity.
  - intros q Hne. rewrite filter_none; [reflexivity|].
    apply Forall_forall. intros g Hg. rewrite Forall_forall in Hall.
    apply (day_sets_disjoint p q g); [congruence|apply Hall; exact Hg].
Qed.

Lemma periodicity_eq_dec (p q : Periodicity) : {p = q} + {p <> q}.
Proof. decide equality. Qed.

(** X19.  A series whose consecutive gaps all lie in the day-count set of
    one periodicity is classified as that periodicity, in both regimes: for
    2 to 29 observations by the highest vote total, for 30 to 499
    observations by the threshold, which n - 1 votes out of n clear. *)
Theorem regular_series_inferred
  (data : TimeSeriesData) (fail_policy : string) (p : Periodicity) :
  valid_policy fail_policy ->
  2 <= len data < 500 ->
  Forall (fun g => in_day_set p g = true) (consecutive_gaps (index data)) ->
  infer_frequency data fail_policy = OK (Some (periodicity_label p)).
Proof.
  intros Hvalid Hlen Hall.
  destruct (regular_votes p (index data) Hall) as [Hp Hothers].
  assert (Hvp : votes p (index data) = len data - 1) by (unfold len in *; lia).
  rewrite (infer_frequency_unfold data fail_policy Hvalid). cbv zeta.
  destruct (Z.ltb_spec (len data) 30) as [Hsmall|Hlarge].
  - destruct (max_first_most (fun q => votes q (index data)))
      as [q [Hmax [Hmost _]]].
    rewrite Hmax. cbn [bind].
    destruct (periodicity_eq_dec q p) as [->|Hne]; [reflexivity|exfalso].
    specialize (Hmost p). rewrite (Hothers q Hne) in Hmost. lia.
  - assert (Hover : forall q,
               over_85pct (votes q (index data)) (len data) = true <-> q = p).
    { intros q. pose proof (votes_bound q (index data)) as Bq.
      fold (len data) in Bq.
      rewrite (over_85pct_exact _ _ Bq (proj2 Hlen)).
      unfold exceeds_85pct_exactly. rewrite Z.ltb_lt.
      destruct (periodicity_eq_dec q p) as [->|Hne].
      - split; [reflexivity|]. intros _. lia.
      - rewrite (Hothers q Hne). split; [lia|contradiction]. }
    destruct (find (fun item => over_85pct (snd item) (len data))
                   (map (fun q => (periodicity_label q, votes q (index data)))
                        periodicities)) as [[k c]|] eqn:Efind.
    + apply find_some in Efind. destruct Efind as [Hin Hc].
      apply in_map_iff in Hin. destruct Hin as [q [Heq _]].
      inversion Heq; subst k c. cbn [snd] in Hc.
      apply Hover in Hc. subst q. reflexivity.
    + exfalso.
      pose proof (find_none _ _ Efind (periodicity_label p, votes p (index data)))
        as Hnone.
      cbn [snd] in Hnone. rewrite (proj2 (Hover p) eq_refl) in Hnone.
      assert (Hin : In (periodicity_label p, votes p (index data))
                       (map (fun q => (periodicity_label q, votes q (index data)))
                            periodicities)).
      { apply (in_map (fun q => (periodicity_label q, votes q (index data)))
                 periodicities p).
        destruct p; cbn [periodicities In]; tauto. }
      specialize (Hnone Hin). discriminate Hnone.
Qed.

Lemma regular_series_inferred_witness :
  infer_frequency (TSeries (constant_series (every 91 8) 0.02)) "ignore"
  = OK (Some "quarterly")
  /\ infer_frequency (TSeries (constant_series (every 365 35) 0.02)) "raise"
     = OK (Some "yearly").
Proof.
  split.
  - apply (regular_series_inferred
             (TSeries (constant_series (every 91 8) 0.02)) "ignore" Quarterly).
    + reflexivity.
    + vm_compute. split; [discriminate|reflexivity].
    + vm_compute. repeat constructor.
  - apply (regular_series_inferred
             (TSeries (constant_series (every 365 35) 0.02)) "raise" Yearly).
    + reflexivity.
    + vm_compute. split; [discriminate|reflexivity].
    + vm_compute. repeat constructor.
Defined.

End RegularSeries.

(** ** Missing rows and relative returns *)

Section RelativeMissing.

(** Two lists of rows with increasing keys that hold the same rows are the
    same list. *)
Lemma sorted_rows_ext {V : Type} (l l' : list (timestamp * V)) :
  StronglySorted Z.lt (map fst l) ->
  StronglySorted Z.lt (map fst l') ->
  (forall e, In e l <-> In e l') ->
  l = l'.
Proof.
  revert l'. induction l as [|e r IH]; intros l' Hs Hs' Hsame.
  - destruct l' as [|e' r']; [reflexivity|].
    exfalso. apply (proj2 (Hsame e')). left. reflexivity.
  - destruct l' as [|e' r'].
    + exfalso. apply (proj1 (Hsame e)). left. reflexivity.
    + cbn [map] in Hs, Hs'.
      inversion Hs as [|? ? Hr Hlt]; subst.
      inversion Hs' as [|? ? Hr' Hlt']; subst.
      rewrite Forall_forall in Hlt, Hlt'.
      assert (Hhead : e = e').
      { destruct (proj1 (Hsame e) (or_introl eq_refl)) as [He|He]; [congruence|].
        destruct (proj2 (Hsame e') (or_introl eq_refl)) as [He'|He']; [congruence|].
        pose proof (Hlt' (fst e) (in_map fst _ _ He)).
        pose proof (Hlt (fst e') (in_map fst _ _ He')). lia. }
      subst e'. f_equal. apply IH; try assumption.
      intros x. split; intros Hx.
      * destruct (proj1 (Hsame x) (or_intror Hx)) as [<-|Hx']; [|exact Hx'].
        pose proof (Hlt (fst e) (in_map fst _ _ Hx)). lia.
      * destruct (proj2 (Hsame x) (or_intror Hx)) as [<-|Hx']; [|exact Hx'].
        pose proof (Hlt' (fst e) (in_map fst _ _ Hx)). lia.
Qed.

(** With timestamps that occur once, the value found at a timestamp after
    cleaning is the value found before, unless that one was missing. *)
Lemma row_get_dropna (rows : list (timestamp * float)) (t : timestamp) :
  NoDup (map fst rows) ->
  row_get (filter (fun r => notna (snd r)) rows) t
  = if notna (row_get rows t) then row_get rows t else nan.
Proof.
  induction rows as [|[u v] r IH]; intros Hnd; [reflexivity|].
  cbn [map fst] in Hnd. inversion Hnd as [|? ? Hnot Hnd']; subst.
  cbn [filter row_get snd].
  destruct (Z.eqb_spec t u) as [->|Hne].
  - destruct (notna v) eqn:Ev.
    + cbn [row_get]. rewrite Z.eqb_refl. reflexivity.
    + apply row_get_absent. intros Hin. apply Hnot.
      apply in_map_iff in Hin. destruct Hin as [e [He Hin]].
      apply filter_In in Hin. rewrite <- He. apply in_map. tauto.
  - destruct (notna v).
    + cbn [row_get]. destruct (Z.eqb_spec t u); [contradiction|]. apply IH. exact Hnd'.
    + apply IH. exact Hnd'.
Qed.

Lemma joined_rows_values (a b : Series) (t : timestamp) (x y : float) :
  In (t, (x, y)) (joined a b)
  <-> x = row_get (s_rows a) t /\ y = row_get (s_rows b) t
      /\ notna x = true /\ notna y = true.
Proof.
  rewrite joined_rows. split; [tauto|].
  intros [Hx [Hy [Hna Hnb]]]. split; [|tauto].
  left. unfold s_index. apply notna_present. rewrite <- Hx. exact Hna.
Qed.

Lemma clean_value (rows : list (timestamp * float)) (t : timestamp) (x : float) :
  NoDup (map fst rows) ->
  (x = row_get (filter (fun r => notna (snd r)) rows) t /\ notna x = true)
  <-> (x = row_get rows t /\ notna x = true).
Proof.
  intros Hnd. rewrite (row_get_dropna rows t Hnd).
  destruct (notna (row_get rows t)) eqn:E; [tauto|].
  split.
  - intros [-> H]. discriminate H.
  - intros [-> H]. congruence.
Qed.

Lemma joined_dropna_series (a b : Series) :
  NoDup (s_index a) -> NoDup (s_index b) ->
  joined (series_dropna a) (series_dropna b) = joined a b.
Proof.
  intros Ha Hb. apply sorted_rows_ext; try apply joined_sorted.
  intros [t [x y]]. rewrite !joined_rows_values.
  unfold series_dropna. cbn [s_rows].
  pose proof (clean_value (s_rows a) t x Ha) as Hx.
  pose proof (clean_value (s_rows b) t y Hb) as Hy.
  tauto.
Qed.

Lemma sorted_filter_rows {V : Type} (f : timestamp * V -> bool)
      (rows : list (timestamp * V)) :
  StronglySorted Z.lt (map fst rows) ->
  StronglySorted Z.lt (map fst (filter f rows)).
Proof.
  induction rows as [|e r IH]; intros Hs; [constructor|].
  cbn [map] in Hs. inversion Hs as [|? ? Hr Hlt]; subst.
  cbn [filter]. destruct (f e); [|apply IH; exact Hr].
  cbn [map]. constructor; [apply IH; exact Hr|].
  rewrite Forall_forall in Hlt |- *. intros t Ht. apply Hlt.
  apply in_map_iff in Ht. destruct Ht as [e' [<- He']].
  apply filter_In in He'. apply in_map. tauto.
Qed.

(** X20.  For two Series whose timestamps increase, removing the missing
    observations before the call changes nothing: [relative_returns] of the
    cleaned Series is [relative_returns] of the Series as they are. *)
Theorem relative_returns_ignores_missing
  (a b : Series) (prefixes : string * string) :
  StronglySorted Z.lt (s_index a) -> StronglySorted Z.lt (s_index b) ->
  relative_returns (dropna (TSeries a)) (dropna (TSeries b)) prefixes
  = relative_returns (TSeries a) (TSeries b) prefixes.
Proof.
  intros Ha Hb. cbn [dropna]. rewrite !relative_returns_two_series.
  assert (Ha' : StronglySorted Z.lt (s_index (series_dropna a)))
    by (apply sorted_filter_rows; exact Ha).
  assert (Hb' : StronglySorted Z.lt (s_index (series_dropna b)))
    by (apply sorted_filter_rows; exact Hb).
  rewrite (pair_relative_sorted _ _ Ha' Hb'), (pair_relative_sorted _ _ Ha Hb).
  unfold ratio_rows.
  rewrite (joined_dropna_series a b (sorted_nodup _ Ha) (sorted_nodup _ Hb)).
  reflexivity.
Qed.

Lemma relative_returns_ignores_missing_witness :
  relative_returns
    (dropna (TSeries (mkSeries None [(0, 0%float); (1, nan); (2, 0.02%float)])))
    (dropna (TSeries sample_benchmark)) ("AST", "BMK")
  = relative_returns
      (TSeries (mkSeries None [(0, 0%float); (1, nan); (2, 0.02%float)]))
      (TSeries sample_benchmark) ("AST", "BMK").
Proof.
  apply relative_returns_ignores_missing; vm_compute; repeat constructor.
Defined.

End RelativeMissing.
